(** * Streaming chat: the message routes and the chat view

    A shallow embedding of the Express router for conversations and
    messages (the handlers [router.post('/')], [router.get('/:id/messages')]
    and [router.post('/:id/messages')]) and of the React component
    [ChatView] ([sendMessage], its three stream callbacks and
    [handleRetry]), with the properties of the streaming exchange proved
    over them. *)

From Stdlib Require Import String List Bool Arith NArith ZArith Lia.
From Stdlib Require Import DecimalString Permutation.
Import ListNotations.
Open Scope string_scope.
Open Scope list_scope.

(** ** JavaScript values of a parsed JSON body *)

(** A field of [req.body]: [JUndefined] when the field is absent.  Arrays
    and objects are not inspected by the handlers beyond their truthiness
    and [typeof], so they share the constructor [JObject].  Numbers are the
    integer-valued ones; only whether they are zero matters here. *)
Inductive JsValue : Type :=
| JUndefined
| JNull
| JBool (b : bool)
| JNumber (n : Z)
| JString (s : string)
| JObject.

(** [!v] is [negb (truthy v)]. *)
Definition truthy (v : JsValue) : bool :=
  match v with
  | JUndefined | JNull => false
  | JBool b => b
  | JNumber n => negb (n =? 0)%Z
  | JString s => negb (s =? "")
  | JObject => true
  end.

Definition typeof (v : JsValue) : string :=
  match v with
  | JUndefined => "undefined"
  | JNull => "object"
  | JBool _ => "boolean"
  | JNumber _ => "number"
  | JString _ => "string"
  | JObject => "object"
  end.

(** [a || b] on values. *)
Definition js_or (a b : JsValue) : JsValue := if truthy a then a else b.

(** Whether [better-sqlite3] takes a value as a parameter of [run].  It
    binds a string or a number as it is, and NULL for [null] and
    [undefined].  It throws a TypeError for a boolean.  A plain object,
    which is what [JObject] stands for here, is read as the named
    parameters, of which the statements of the router have none, so that
    a positional value is missing and [run] throws as well.  (An array is
    spread over the positions instead; [JObject] does not tell it apart,
    and no property is stated for a value that is an object.) *)
Definition binds (v : JsValue) : bool :=
  match v with
  | JBool _ | JObject => false
  | _ => true
  end.

(** [String.prototype.replace] with a string pattern: the first occurrence
    of [pat] is replaced, the rest is kept. *)
Fixpoint replace (pat rep s : string) : string :=
  if String.prefix pat s
  then rep ++ substring (String.length pat) (String.length s - String.length pat) s
  else match s with
       | EmptyString => EmptyString
       | String c s' => String c (replace pat rep s')
       end.

(** ** Data model *)

Inductive Role : Type := User | Assistant.
Inductive Status : Type := Sending | Sent | Failed.

Definition Role_eqb (a b : Role) : bool :=
  match a, b with
  | User, User | Assistant, Assistant => true
  | _, _ => false
  end.

Definition Status_eqb (a b : Status) : bool :=
  match a, b with
  | Sending, Sending | Sent, Sent | Failed, Failed => true
  | _, _ => false
  end.

Module Message.
(** A row of the table [messages]; also the [Message] of the front end. *)
Record t : Type := mk {
  id : string;
  conversation_id : string;
  role : Role;
  content : string;
  status : Status;
  error_message : option string;
  created_at : string
}.

Definition set_status (s : Status) (m : t) : t :=
  mk (id m) (conversation_id m) (role m) (content m) s (error_message m) (created_at m).
Definition set_error_message (e : option string) (m : t) : t :=
  mk (id m) (conversation_id m) (role m) (content m) (status m) e (created_at m).
Definition set_content (c : string) (m : t) : t :=
  mk (id m) (conversation_id m) (role m) c (status m) (error_message m) (created_at m).
Definition set_id (i : string) (m : t) : t :=
  mk i (conversation_id m) (role m) (content m) (status m) (error_message m) (created_at m).
End Message.

Module Conversation.
(** A row of the table [conversations].  [title] holds the value that was
    bound to the INSERT statement. *)
Record t : Type := mk {
  id : string;
  title : JsValue;
  created_at : string;
  updated_at : string
}.

Definition set_updated_at (u : string) (c : t) : t :=
  mk (id c) (title c) (created_at c) u.
End Conversation.

(** ** The store *)

(** The two tables, rows in insertion order. *)
Record Database : Type := {
  conversations : list Conversation.t;
  messages : list Message.t
}.

(** The writing statements the handlers prepare, with their bound
    parameters in the order of the [run] call. *)
Inductive Statement : Type :=
| InsertConversation (id : string) (title : JsValue) (created_at updated_at : string)
    (* INSERT INTO conversations (id, title, created_at, updated_at) *)
| InsertMessage (id conversation_id : string) (role : Role) (content : string)
                (status : Status) (created_at : string)
    (* INSERT INTO messages (id, conversation_id, role, content, status, created_at) *)
| TouchConversation (updated_at id : string)
    (* UPDATE conversations SET updated_at = ? WHERE id = ? *)
| UpdateStatusError (status : Status) (error_message id : string)
    (* UPDATE messages SET status = ?, error_message = ? WHERE id = ? *)
| UpdateContentStatus (content : string) (status : Status) (id : string).
    (* UPDATE messages SET content = ?, status = ? WHERE id = ? *)

Definition update_where {A} (p : A -> bool) (f : A -> A) (rows : list A) : list A :=
  map (fun r => if p r then f r else r) rows.

Definition run (d : Database) (s : Statement) : Database :=
  match s with
  | InsertConversation id title c u =>
      {| conversations := conversations d ++ [Conversation.mk id title c u];
         messages := messages d |}
  | InsertMessage id cid r c st at_ =>
      {| conversations := conversations d;
         messages := messages d ++ [Message.mk id cid r c st None at_] |}
  | TouchConversation u id =>
      {| conversations :=
           update_where (fun c => Conversation.id c =? id)
                        (Conversation.set_updated_at u) (conversations d);
         messages := messages d |}
  | UpdateStatusError st e id =>
      {| conversations := conversations d;
         messages :=
           update_where (fun m => Message.id m =? id)
                        (fun m => Message.set_error_message (Some e) (Message.set_status st m))
                        (messages d) |}
  | UpdateContentStatus c st id =>
      {| conversations := conversations d;
         messages :=
           update_where (fun m => Message.id m =? id)
                        (fun m => Message.set_status st (Message.set_content c m))
                        (messages d) |}
  end.

(** [SELECT * FROM conversations WHERE id = ?] with [.get]: the first
    matching row, or [undefined]. *)
Definition get_conversation (d : Database) (id : string) : option Conversation.t :=
  find (fun c => Conversation.id c =? id) (conversations d).

(** [ORDER BY created_at ASC]: a stable insertion sort on the time stamps,
    which are ISO strings and compare as text. *)
Fixpoint insert_by_created_at (m : Message.t) (l : list Message.t) : list Message.t :=
  match l with
  | [] => [m]
  | x :: l' =>
      if String.ltb (Message.created_at m) (Message.created_at x)
      then m :: l
      else x :: insert_by_created_at m l'
  end.

Definition order_by_created_at (l : list Message.t) : list Message.t :=
  fold_left (fun acc m => insert_by_created_at m acc) l [].

(** [SELECT * FROM messages WHERE conversation_id = ? ORDER BY created_at ASC] *)
Definition messages_of (d : Database) (id : string) : list Message.t :=
  order_by_created_at (filter (fun m => Message.conversation_id m =? id) (messages d)).

(** [SELECT * FROM messages WHERE conversation_id = ? AND status = ?
    ORDER BY created_at ASC] *)
Definition messages_with_status (d : Database) (id : string) (st : Status)
  : list Message.t :=
  order_by_created_at
    (filter (fun m => (Message.conversation_id m =? id) && Status_eqb (Message.status m) st)
            (messages d)).

(** The rows with a given identifier. *)
Definition rows_with_id (d : Database) (id : string) : list Message.t :=
  filter (fun m => Message.id m =? id) (messages d).

(** ** The routes *)

Module Routes.

(** The three kinds of event of the push channel with their payloads. *)
Inductive SseEvent : Type :=
| EvChunk (content : string)
| EvDone (messageId content : string)
| EvError (error : string).

Inductive Json : Type :=
| ErrorJson (error : string)
| ConversationJson (c : option Conversation.t)
| MessagesJson (l : list Message.t).

(** What a handler does to the outside, in the order it does it. *)
Inductive Effect : Type :=
| Sql (s : Statement)                 (* db.prepare(...).run(...) *)
| Respond (status : nat) (body : Json) (* res.status(n).json(body) *)
| CreateSession                       (* createSession(req, res) *)
| Push (e : SseEvent)                 (* session.push(payload, kind) *)
| ResEnd                              (* res.end() *)
| Cancel.                             (* cancelStream() *)

Record World : Type := { db : Database; log : list Effect }.

(** Handlers thread the store and the log of effects. *)
Definition Handler (A : Type) : Type := World -> A * World.

Definition ret {A} (a : A) : Handler A := fun w => (a, w).
Definition bind {A B} (c : Handler A) (k : A -> Handler B) : Handler B :=
  fun w => let (a, w') := c w in k a w'.

Notation "x <- c ;; k" := (bind c (fun x => k))
  (at level 61, c at next level, right associativity).
Notation "c ;; k" := (bind c (fun _ => k))
  (at level 61, right associativity).

Definition emit (e : Effect) : Handler unit :=
  fun w => (tt, {| db := db w; log := log w ++ [e] |}).
Definition sql (s : Statement) : Handler unit :=
  fun w => (tt, {| db := run (db w) s; log := log w ++ [Sql s] |}).
Definition query {A} (q : Database -> A) : Handler A :=
  fun w => (q (db w), w).

Definition respond (status : nat) (body : Json) : Handler unit :=
  emit (Respond status body).
Definition push (e : SseEvent) : Handler unit := emit (Push e).

Definition exec (h : Handler unit) (d : Database) : World :=
  snd (h {| db := d; log := [] |}).

(** *** POST /  *)

(** [id] is the result of [uuidv4()], [now] of [new Date().toISOString()].
    When [run] throws on the value bound for the title, nothing is
    written and the [catch] clause answers 500.  A title that is a number
    is bound as a number: what the column makes of it is laid down by the
    schema, which is in [db.js] and not among the sources, so the row
    holds the value as it was bound, and no property is stated for such
    a title. *)
Definition post_conversation (id now : string) (title : JsValue) : Handler unit :=
  let bound := js_or title (JString "New Chat") in
  if binds bound then
    sql (InsertConversation id bound now now) ;;
    conversation <- query (fun d => get_conversation d id) ;;
    respond 201 (ConversationJson conversation)
  else
    respond 500 (ErrorJson "Failed to create conversation").

(** *** GET /:id/messages *)

Definition get_messages (id : string) : Handler unit :=
  conversation <- query (fun d => get_conversation d id) ;;
  match conversation with
  | None => respond 404 (ErrorJson "Conversation not found")
  | Some _ =>
      messages <- query (fun d => messages_of d id) ;;
      respond 200 (MessagesJson messages)
  end.

(** *** POST /:id/messages *)

(** What reaches the handler once the stream is set up: the three
    callbacks it handed to [createAIStream], and the session's
    [disconnected] notification. *)
Inductive Signal : Type :=
| OnChunk (chunk : string)
| OnError (message : string)     (* [error.message] of the error passed *)
| OnDone (fullText : string)
| Disconnected.

(** One turn of [conversationHistory]. *)
Definition Turn : Type := (Role * string)%type.

(** The environment of one request: the two results of [uuidv4()], the
    time stamp, whether [createSession] resolves (it throws otherwise),
    and what then reaches the handler.  [createAIStream] is imported from
    [openai-stream.js], which is not among the sources: it is taken as
    the calls it makes to the three callbacks, in their order and
    together with the session's notifications, for a prompt and the
    prior turns. *)
Record Env : Type := {
  userMessageId : string;
  assistantMessageId : string;
  now : string;
  session_opens : bool;
  signals : string -> list Turn -> list Signal
}.

(** The outcome of one call of the Completion Source. *)
Inductive Ending : Type :=
| Completes
| Rejects (message : string).

Record Generation : Type := { fragments : list string; ending : Ending }.

(** Modelled from the spec: the behaviour of [createAIStream] of
    [openai-stream.js], which is not among the sources.  The Completion
    Source produces a sequence of text fragments and signals completion
    or failure; a fragment is one incremental piece of the generated text
    delivered before the full response is known.  So each fragment is
    handed to the chunk callback in order, then completion hands over the
    full text, which is the fragments put together, or failure hands over
    an error with its message. *)
Definition completion_source (g : Generation) : list Signal :=
  map OnChunk (fragments g) ++
  match ending g with
  | Completes => [OnDone (String.concat "" (fragments g))]
  | Rejects message => [OnError message]
  end.

(** [dbMessages.map(msg => ({ role: msg.role, content: msg.content }))] *)
Definition history_of (dbMessages : list Message.t) : list Turn :=
  map (fun msg => (Message.role msg, Message.content msg)) dbMessages.

(** The three callbacks; [fullResponse] is the accumulator they close
    over. *)
Definition onChunk (chunk : string) (fullResponse : string) : Handler string :=
  let fullResponse := (fullResponse ++ chunk)%string in
  push (EvChunk chunk) ;;
  ret fullResponse.

Definition onError (assistantMessageId message : string) : Handler unit :=
  sql (UpdateStatusError Failed message assistantMessageId) ;;
  push (EvError message) ;;
  emit ResEnd.

Definition onDone (assistantMessageId fullText : string) : Handler unit :=
  sql (UpdateContentStatus fullText Sent assistantMessageId) ;;
  push (EvDone assistantMessageId fullText) ;;
  emit ResEnd.

Fixpoint deliver (assistantMessageId : string) (signals : list Signal)
         (fullResponse : string) : Handler string :=
  match signals with
  | [] => ret fullResponse
  | s :: rest =>
      fullResponse' <-
        match s with
        | OnChunk chunk => onChunk chunk fullResponse
        | OnError message => onError assistantMessageId message ;; ret fullResponse
        | OnDone fullText => onDone assistantMessageId fullText ;; ret fullResponse
        | Disconnected => emit Cancel ;; ret fullResponse
        end ;;
      deliver assistantMessageId rest fullResponse'
  end.

Definition post_message (env : Env) (id : string) (content : JsValue)
  : Handler unit :=
  if negb (truthy content) || negb (typeof content =? "string") then
    respond 400 (ErrorJson "Message content is required")
  else
    match content with
    | JString text =>
        conversation <- query (fun d => get_conversation d id) ;;
        match conversation with
        | None => respond 404 (ErrorJson "Conversation not found")
        | Some _ =>
            dbMessages <- query (fun d => messages_with_status d id Sent) ;;
            let conversationHistory := history_of dbMessages in
            sql (InsertMessage (userMessageId env) id User text Sent (now env)) ;;
            sql (InsertMessage (assistantMessageId env) id Assistant "" Sending (now env)) ;;
            sql (TouchConversation (now env) id) ;;
            emit CreateSession ;;
            if session_opens env then
              deliver (assistantMessageId env)
                      (signals env text conversationHistory) "" ;;
              ret tt
            else
              respond 500 (ErrorJson "Failed to process message")
        end
    | _ => ret tt (* excluded by the test on [typeof] *)
    end.

(** The store as it is after the writes of a log, replayed in order. *)
Definition replay (d : Database) (l : list Effect) : Database :=
  fold_left (fun d e => match e with Sql s => run d s | _ => d end) l d.

(** The request as far as the first [n] calls that reach the handler.
    The callbacks run one after the other, each to its end, so the world
    that the handler of a request has made once [n] of them have run is
    the world of the request in which nothing more arrives. *)
Definition upto (n : nat) (env : Env) : Env :=
  {| userMessageId := userMessageId env;
     assistantMessageId := assistantMessageId env;
     now := now env;
     session_opens := session_opens env;
     signals := fun content history => firstn n (signals env content history) |}.

(** *** Observations on a log and on the store *)

Definition chunk_payloads (l : list Effect) : list string :=
  flat_map (fun e => match e with Push (EvChunk c) => [c] | _ => [] end) l.

Definition done_events (l : list Effect) : list (string * string) :=
  flat_map (fun e => match e with Push (EvDone i c) => [(i, c)] | _ => [] end) l.

Definition error_events (l : list Effect) : list string :=
  flat_map (fun e => match e with Push (EvError m) => [m] | _ => [] end) l.

Definition responses (l : list Effect) : list (nat * Json) :=
  flat_map (fun e => match e with Respond n b => [(n, b)] | _ => [] end) l.

(** The write that is the last effect before an event is pushed: none
    is asked of a chunk; a done event comes right after the update that
    stores its content with the status [sent] on the placeholder [a], an
    error event right after the update that stores its message with the
    status [failed]. *)
Definition written_just_before (a : string) (before : list Effect) (e : SseEvent)
  : Prop :=
  match e with
  | EvChunk _ => True
  | EvDone messageId content =>
      messageId = a
      /\ exists l0, before = l0 ++ [Sql (UpdateContentStatus content Sent a)]
  | EvError message =>
      exists l0, before = l0 ++ [Sql (UpdateStatusError Failed message a)]
  end.

(** What the store shows for the placeholder [a] when an event is
    pushed. *)
Definition stored_when_pushed (a : string) (d : Database) (e : SseEvent) : Prop :=
  match e with
  | EvChunk _ => True
  | EvDone _ content =>
      forall m, In m (rows_with_id d a) ->
                Message.status m = Sent /\ Message.content m = content
  | EvError message =>
      forall m, In m (rows_with_id d a) ->
                Message.status m = Failed /\ Message.error_message m = Some message
  end.

(** The effects of the callback a signal calls, as a list. *)
Definition signal_effects (a : string) (s : Signal) : list Effect :=
  match s with
  | OnChunk chunk => [Push (EvChunk chunk)]
  | OnError message =>
      [Sql (UpdateStatusError Failed message a); Push (EvError message); ResEnd]
  | OnDone fullText =>
      [Sql (UpdateContentStatus fullText Sent a); Push (EvDone a fullText); ResEnd]
  | Disconnected => [Cancel]
  end.

(** The terminal calls among the signals. *)
Definition terminal_count (l : list Signal) : nat :=
  length (filter (fun s => match s with OnDone _ | OnError _ => true | _ => false end) l).

(** The status a reader finds for a message identifier, if it has a row. *)
Definition status_of (d : Database) (id : string) : option Status :=
  option_map Message.status (find (fun m => Message.id m =? id) (messages d)).

(** The successive statuses of one identifier: before the log, and after
    each of its effects. *)
Fixpoint status_history (d : Database) (l : list Effect) (id : string)
  : list (option Status) :=
  status_of d id ::
  match l with
  | [] => []
  | e :: l' => status_history (replay d [e]) l' id
  end.

(** The moves of the life cycle [sending -> sent], [sending -> failed]:
    a record comes into being as [sending], and leaves [sending] only
    for a terminal status. *)
Definition lifecycle_move (a b : option Status) : bool :=
  match a, b with
  | None, Some Sending => true
  | Some Sending, Some Sent => true
  | Some Sending, Some Failed => true
  | _, _ => false
  end.

Definition same_status (a b : option Status) : bool :=
  match a, b with
  | None, None => true
  | Some x, Some y => Status_eqb x y
  | _, _ => false
  end.

(** A record created directly in the status [sent]. *)
Definition created_sent (a b : option Status) : bool :=
  match a, b with
  | None, Some Sent => true
  | _, _ => false
  end.

(** No change of status at all. *)
Definition no_move (a b : option Status) : bool := false.

(** Every change between two successive statuses is allowed by [move]. *)
Fixpoint follows (move : option Status -> option Status -> bool)
         (h : list (option Status)) : bool :=
  match h with
  | a :: ((b :: _) as h') => (same_status a b || move a b) && follows move h'
  | _ => true
  end.

End Routes.

(** ** The chat view *)

Module ChatView.

(** The two readings of the clock [sendMessage] and [onDone] take:
    [Date.now()] and [new Date().toISOString()]. *)
Record Clock : Type := { dateNow : N; toISOString : string }.

(** A stream opened by [subscribeToSSE]: the request it sent, and what
    its callbacks close over, the route's [id] and [tempUserMessage]. *)
Record Subscription : Type := {
  endpoint : string;
  body_content : string;
  closure_id : string;
  tempUserMessage : Message.t
}.

(** The state of the component, and the streams that were opened and have
    not delivered their terminal event.  A handler reads the state of the
    latest render: user events and stream events are taken one at a
    time, each on the state the one before left. *)
Record State : Type := {
  messages : list Message.t;
  streamingContent : string;
  isStreaming : bool;
  error : option string;
  cleanupRef : option Subscription;
  streams : list Subscription
}.

(** [`temp-${Date.now()}`] *)
Definition temp_id (ms : N) : string :=
  "temp-" ++ NilEmpty.string_of_uint (N.to_uint ms).

(** [!id] for the route parameter, a string or [undefined]. *)
Definition no_id (id : option string) : bool :=
  match id with
  | None => true
  | Some s => s =? ""
  end.

Definition onChunk (chunk : string) (v : State) : State :=
  {| messages := messages v;
     streamingContent := streamingContent v ++ chunk;
     isStreaming := isStreaming v;
     error := error v;
     cleanupRef := cleanupRef v;
     streams := streams v |}.

Definition onDone (id : string) (tempUserMessage : Message.t)
           (messageId fullContent : string) (clock : Clock) (v : State) : State :=
  let updated :=
    map (fun msg =>
           if Message.id msg =? Message.id tempUserMessage
           then Message.set_id (replace "temp-" "user-" (Message.id msg))
                               (Message.set_status Sent msg)
           else msg)
        (messages v) in
  let assistantMessage :=
    Message.mk messageId id Assistant fullContent Sent None (toISOString clock) in
  {| messages := updated ++ [assistantMessage];
     streamingContent := "";
     isStreaming := false;
     error := error v;
     cleanupRef := None;
     streams := streams v |}.

Definition onError (tempUserMessage : Message.t) (message : string) (v : State)
  : State :=
  {| messages :=
       map (fun msg =>
              if Message.id msg =? Message.id tempUserMessage
              then Message.set_error_message (Some message)
                                             (Message.set_status Failed msg)
              else msg)
           (messages v);
     streamingContent := "";
     isStreaming := false;
     error := Some message;
     cleanupRef := None;
     streams := streams v |}.

Definition sendMessage (id : option string) (content : string) (clock : Clock)
           (v : State) : State :=
  match id with
  | Some id' =>
      if no_id id || isStreaming v then v
      else
        let tempUserMessage :=
          Message.mk (temp_id (dateNow clock)) id' User content Sending None
                     (toISOString clock) in
        let subscription :=
          {| endpoint := "/chats/" ++ id' ++ "/messages";
             body_content := content;
             closure_id := id';
             tempUserMessage := tempUserMessage |} in
        {| messages := messages v ++ [tempUserMessage];
           streamingContent := "";
           isStreaming := true;
           error := None;
           cleanupRef := Some subscription;
           streams := streams v ++ [subscription] |}
  | None => v
  end.

Definition handleRetry (id : option string) (message : Message.t) (clock : Clock)
           (v : State) : State :=
  sendMessage id (Message.content message) clock
    {| messages :=
         filter (fun m => negb (Message.id m =? Message.id message)) (messages v);
       streamingContent := streamingContent v;
       isStreaming := isStreaming v;
       error := error v;
       cleanupRef := cleanupRef v;
       streams := streams v |}.

(** What happens to a mounted view: the user sends or retries, or an
    open stream, the [n]-th, delivers an event. *)
Inductive Action : Type :=
| Send (content : string) (clock : Clock)
| Retry (message : Message.t) (clock : Clock)
| Chunk (n : nat) (chunk : string)
| Done (n : nat) (messageId content : string) (clock : Clock)
| Error (n : nat) (message : string).

Definition close (n : nat) (v : State) : State :=
  {| messages := messages v;
     streamingContent := streamingContent v;
     isStreaming := isStreaming v;
     error := error v;
     cleanupRef := cleanupRef v;
     streams := firstn n (streams v) ++ skipn (S n) (streams v) |}.

(** Modelled from the spec: [subscribeToSSE] of [api/client], which is not
    among the sources.  The Client Stream Consumer opens the channel and
    dispatches the callbacks of that stream; it dispatches exactly one
    terminal callback ([onDone] or [onError]), followed by no further
    [onChunk] call.  So an event reaches the callbacks of a stream that
    is open, and a terminal event closes it. *)
Definition step (id : option string) (v : State) (a : Action) : State :=
  match a with
  | Send content clock => sendMessage id content clock v
  | Retry message clock => handleRetry id message clock v
  | Chunk n chunk =>
      match nth_error (streams v) n with
      | Some _ => onChunk chunk v
      | None => v
      end
  | Done n messageId content clock =>
      match nth_error (streams v) n with
      | Some s =>
          close n (onDone (closure_id s) (tempUserMessage s) messageId content clock v)
      | None => v
      end
  | Error n message =>
      match nth_error (streams v) n with
      | Some s => close n (onError (tempUserMessage s) message v)
      | None => v
      end
  end.

Definition steps (id : option string) (v : State) (l : list Action) : State :=
  fold_left (step id) l v.

(** The view once the messages of the conversation have been fetched. *)
Definition loaded (fetched : list Message.t) : State :=
  {| messages := fetched;
     streamingContent := "";
     isStreaming := false;
     error := None;
     cleanupRef := None;
     streams := [] |}.

(** The optimistic entries that wait for their exchange to end. *)
Definition pending (l : list Message.t) : list Message.t :=
  filter (fun m => Role_eqb (Message.role m) User
                   && Status_eqb (Message.status m) Sending) l.

(** What holds of every view that can be reached: an idle view has no
    open stream, and there is one open stream at most. *)
Definition one_stream (v : State) : Prop :=
  (isStreaming v = false -> streams v = []) /\ length (streams v) <= 1.

(** What holds besides of every view reached from fetched messages none of
    which is pending: an idle view has no pending entry; there is one
    pending entry at most, which is the one the open stream closes over. *)
Definition settled (v : State) : Prop :=
  (isStreaming v = false -> streams v = [] /\ pending (messages v) = [])
  /\ length (streams v) <= 1
  /\ length (pending (messages v)) <= 1
  /\ (forall s m, In s (streams v) -> In m (pending (messages v)) ->
                  Message.id m = Message.id (tempUserMessage s)).

End ChatView.

(** ** The scenarios of the specification, as data *)

Module Scenario.
Import Routes.

(** A store with one fresh conversation. *)
Definition fresh_conversation : Database :=
  {| conversations := [Conversation.mk "c1" (JString "New Chat") "t0" "t0"];
     messages := [] |}.

Definition request (l : list Signal) : Env :=
  {| userMessageId := "u1";
     assistantMessageId := "a1";
     now := "t1";
     session_opens := true;
     signals := fun _ _ => l |}.

(** The source yields "Hi" and " there", then completes. *)
Definition hi_there : Generation :=
  {| fragments := ["Hi"; " there"]; ending := Completes |}.

(** The source yields one fragment, then rejects. *)
Definition rejects_after_one (message : string) : list Signal :=
  [OnChunk "Hi"; OnError message].

(** Two readings of the clock in the browser. *)
Definition first_click : ChatView.Clock :=
  {| ChatView.dateNow := 1700%N; ChatView.toISOString := "t1" |}.
Definition second_click : ChatView.Clock :=
  {| ChatView.dateNow := 1800%N; ChatView.toISOString := "t2" |}.
Definition third_click : ChatView.Clock :=
  {| ChatView.dateNow := 1900%N; ChatView.toISOString := "t3" |}.

(** The entry of a first send that failed. *)
Definition failed_entry : Message.t :=
  Message.mk "temp-1700" "c1" User "first" Failed (Some "boom") "t1".

(** A view in which the first send has failed and a second one is being
    streamed. *)
Definition streaming_after_failure : ChatView.State :=
  ChatView.steps (Some "c1") (ChatView.loaded [])
    [ChatView.Send "first" first_click;
     ChatView.Error 0 "boom";
     ChatView.Send "second" second_click;
     ChatView.Chunk 0 "Hi"].

End Scenario.

(** ** The other routes of the conversations *)

Module Crud.

Inductive Body : Type :=
| ErrorBody (error : string)
| ConversationBody (c : option Conversation.t)
| ConversationsBody (l : list Conversation.t)
| DeletedBody. (* { success: true, message: 'Conversation deleted' } *)

(** The status and the JSON body a handler answers with. *)
Definition Response : Type := (nat * Body)%type.

(** [ORDER BY updated_at DESC]: an insertion sort on the time stamps that
    keeps rows with the same stamp in the order of the table. *)
Fixpoint insert_by_updated_at (c : Conversation.t) (l : list Conversation.t)
  : list Conversation.t :=
  match l with
  | [] => [c]
  | x :: l' =>
      if String.ltb (Conversation.updated_at x) (Conversation.updated_at c)
      then c :: l
      else x :: insert_by_updated_at c l'
  end.

Definition order_by_updated_at_desc (l : list Conversation.t) : list Conversation.t :=
  fold_left (fun acc c => insert_by_updated_at c acc) l [].

(** [UPDATE conversations SET title = ?, updated_at = ? WHERE id = ?]: the
    store after it, and [result.changes], the number of rows it matched. *)
Definition update_title (d : Database) (title : JsValue) (now id : string)
  : Database * nat :=
  ({| conversations :=
        update_where (fun c => Conversation.id c =? id)
                     (fun c => Conversation.mk (Conversation.id c) title
                                               (Conversation.created_at c) now)
                     (conversations d);
      messages := messages d |},
   length (filter (fun c => Conversation.id c =? id) (conversations d))).

(** [DELETE FROM conversations WHERE id = ?], with [result.changes].
    Whether the rows of [messages] that point to a deleted conversation go
    with it is decided by the schema, which is in [db.js] and not among
    the sources: [cascade] says whether they do. *)
Definition delete_from_conversations (cascade : bool) (d : Database) (id : string)
  : Database * nat :=
  let deleted := filter (fun c => Conversation.id c =? id) (conversations d) in
  ({| conversations :=
        filter (fun c => negb (Conversation.id c =? id)) (conversations d);
      messages :=
        match deleted with
        | [] => messages d
        | _ :: _ =>
            if cascade
            then filter (fun m => negb (Message.conversation_id m =? id)) (messages d)
            else messages d
        end |},
   length deleted).

(** GET / *)
Definition get_conversations (d : Database) : Database * Response :=
  (d, (200, ConversationsBody (order_by_updated_at_desc (conversations d)))).

(** GET /:id *)
Definition get_conversation_by_id (id : string) (d : Database) : Database * Response :=
  match get_conversation d id with
  | None => (d, (404, ErrorBody "Conversation not found"))
  | Some conversation => (d, (200, ConversationBody (Some conversation)))
  end.

(** PATCH /:id; [now] is the result of [new Date().toISOString()].  The
    title of the body is bound as it is: when [run] throws on it, nothing
    is written, [result.changes] is not read and the [catch] clause
    answers 500.  For a title that is bound but is not a string (a
    number, or NULL for a title that is missing) the schema, which is in
    [db.js] and not among the sources, lays down what a row that matches
    takes: the row holds the value as it was bound, and the properties of
    a renaming are stated for strings. *)
Definition patch_conversation (now id : string) (title : JsValue) (d : Database)
  : Database * Response :=
  if binds title then
    let (d', changes) := update_title d title now id in
    if (changes =? 0)%nat
    then (d', (404, ErrorBody "Conversation not found"))
    else (d', (200, ConversationBody (get_conversation d' id)))
  else (d, (500, ErrorBody "Failed to update conversation")).

(** DELETE /:id *)
Definition delete_conversation (cascade : bool) (id : string) (d : Database)
  : Database * Response :=
  let (d', changes) := delete_from_conversations cascade d id in
  if (changes =? 0)%nat
  then (d', (404, ErrorBody "Conversation not found"))
  else (d', (200, DeletedBody)).

(** A list in which each element is followed by one that [le] allows. *)
Fixpoint ordered {A} (le : A -> A -> bool) (l : list A) : bool :=
  match l with
  | a :: ((b :: _) as l') => le a b && ordered le l'
  | _ => true
  end.

(** [a] is created no later than [b]. *)
Definition created_le (a b : Message.t) : bool :=
  String.leb (Message.created_at a) (Message.created_at b).

(** [a] was updated no earlier than [b]. *)
Definition updated_ge (a b : Conversation.t) : bool :=
  String.leb (Conversation.updated_at b) (Conversation.updated_at a).

End Crud.

(** ** The sidebar *)

Module Sidebar.

(** [String.prototype.split] with a separator that is not empty: [acc] is
    the piece being read, [skip] the characters of a separator just found
    that are still to be passed. *)
Fixpoint split_from (sep : string) (skip : nat) (acc : string) (s : string)
  : list string :=
  match s with
  | EmptyString => [acc]
  | String c s' =>
      match skip with
      | S k => split_from sep k acc s'
      | O =>
          if String.prefix sep s
          then acc :: split_from sep (String.length sep - 1) "" s'
          else split_from sep 0 (acc ++ String c "") s'
      end
  end.

Definition split (sep s : string) : list string := split_from sep 0 "" s.

(** Whether [sep] occurs in [s]. *)
Fixpoint occurs (sep s : string) : bool :=
  String.prefix sep s
  || match s with
     | EmptyString => false
     | String _ s' => occurs sep s'
     end.

(** [location.pathname.startsWith('/chat/')
      ? location.pathname.split('/chat/')[1] : undefined] *)
Definition currentId (pathname : string) : option string :=
  if String.prefix "/chat/" pathname
  then nth_error (split "/chat/" pathname) 1
  else None.

(** The state of the component, and the path of the router's location. *)
Record State : Type := {
  conversations : list Conversation.t;
  loading : bool;
  error : option string;
  creating : bool;
  pathname : string
}.

Definition set_conversations (l : list Conversation.t) (v : State) : State :=
  {| conversations := l;
     loading := loading v;
     error := error v;
     creating := creating v;
     pathname := pathname v |}.

(** [prev => { ... return [selectedConv, ...others]; }] of the effect that
    runs when [currentId] or the number of conversations changes. *)
Definition current_to_top (currentId : string) (prev : list Conversation.t)
  : list Conversation.t :=
  match find (fun c => Conversation.id c =? currentId) prev with
  | None => prev
  | Some selectedConv =>
      if match prev with
         | [] => false
         | c :: _ => Conversation.id c =? currentId
         end
      then prev
      else selectedConv
           :: filter (fun c => negb (Conversation.id c =? currentId)) prev
  end.

Definition move_current_to_top (v : State) : State :=
  match currentId (pathname v) with
  | Some cur =>
      if negb (cur =? "") && (0 <? length (conversations v))%nat
      then set_conversations (current_to_top cur (conversations v)) v
      else v
  | None => v
  end.

(** [prev => prev.map(conv => conv.id === updatedConversation.id
      ? updatedConversation : conv)] *)
Definition updateConversation (updatedConversation : Conversation.t) (v : State)
  : State :=
  set_conversations
    (map (fun conv =>
            if Conversation.id conv =? Conversation.id updatedConversation
            then updatedConversation else conv)
         (conversations v))
    v.

(** [prev => { ... return [selectedConv, ...others]; }] of
    [handleSelectConversation]. *)
Definition selected_to_top (id : string) (prev : list Conversation.t)
  : list Conversation.t :=
  match find (fun c => Conversation.id c =? id) prev with
  | None => prev
  | Some selectedConv =>
      selectedConv :: filter (fun c => negb (Conversation.id c =? id)) prev
  end.

(** The path of the location after [navigate(to)] for a string that
    starts with a slash.  The router reads the string as a URL: a search
    starts at the first '?', a hash at the first '#', and the path is
    what comes before both.  What the browser does to the other
    characters that a URL does not take as they are is not modelled: the
    properties of the path are stated for identifiers that are [plain]. *)
Fixpoint navigate (to : string) : string :=
  match to with
  | EmptyString => EmptyString
  | String c rest =>
      (* '?' is the character 63, '#' the character 35 *)
      if ((Ascii.nat_of_ascii c =? 63) || (Ascii.nat_of_ascii c =? 35))%nat
      then EmptyString
      else String c (navigate rest)
  end.

(** The characters of the identifiers that [uuidv4()] draws, and the other
    letters and digits: a URL takes them as they are. *)
Definition plain_char (c : Ascii.ascii) : bool :=
  let n := Ascii.nat_of_ascii c in
  (* digits, capital letters, small letters, and '-' *)
  ((48 <=? n) && (n <=? 57) || (65 <=? n) && (n <=? 90)
   || (97 <=? n) && (n <=? 122) || (n =? 45))%nat.

Fixpoint plain (s : string) : bool :=
  match s with
  | EmptyString => true
  | String c rest => plain_char c && plain rest
  end.

Definition handleSelectConversation (id : string) (v : State) : State :=
  {| conversations := selected_to_top id (conversations v);
     loading := loading v;
     error := error v;
     creating := creating v;
     pathname := navigate ("/chat/" ++ id) |}.

(** [handleNewChat], once [apiFetch] has settled: with the conversation the
    server created, or with the message shown for the failure. *)
Definition handleNewChat (result : Conversation.t + string) (v : State) : State :=
  match result with
  | inl newConversation =>
      {| conversations := newConversation :: conversations v;
         loading := loading v;
         error := None;
         creating := false;
         pathname := navigate ("/chat/" ++ Conversation.id newConversation) |}
  | inr message =>
      {| conversations := conversations v;
         loading := loading v;
         error := Some message;
         creating := false;
         pathname := pathname v |}
  end.

(** [handleDeleteConversation], once [apiFetch] has settled: [failure] is
    the message shown when the request failed. *)
Definition handleDeleteConversation (id : string) (failure : option string) (v : State)
  : State :=
  match failure with
  | None =>
      {| conversations :=
           filter (fun c => negb (Conversation.id c =? id)) (conversations v);
         loading := loading v;
         error := error v;
         creating := creating v;
         pathname :=
           match currentId (pathname v) with
           | Some cur => if cur =? id then "/" else pathname v
           | None => pathname v
           end |}
  | Some message =>
      {| conversations := conversations v;
         loading := loading v;
         error := Some message;
         creating := creating v;
         pathname := pathname v |}
  end.

End Sidebar.

(** ** The message input *)

Module MessageInput.

Section Trim.

(** [String.prototype.trim], whose set of white space is the language's. *)
Variable trim : string -> string.

(** [handleSubmit]: what is handed to [onSend], if anything, and the input
    afterwards. *)
Definition handleSubmit (disabled : bool) (input : string) : option string * string :=
  let trimmed := trim input in
  if negb (trimmed =? "") && negb disabled
  then (Some trimmed, "")
  else (None, input).

Definition canSend (disabled : bool) (input : string) : bool :=
  (0 <? String.length (trim input))%nat && negb disabled.

(** [handleKeyDown]: whether [preventDefault] is called, and the outcome of
    the submission. *)
Definition handleKeyDown (key : string) (shiftKey : bool) (disabled : bool)
           (input : string) : bool * (option string * string) :=
  if (key =? "Enter") && negb shiftKey
  then (true, handleSubmit disabled input)
  else (false, (None, input)).

End Trim.

(** White space of the ASCII range, as [trim] removes it. *)
Definition is_space (c : Ascii.ascii) : bool :=
  let n := Ascii.nat_of_ascii c in
  ((n =? 32) || ((9 <=? n) && (n <=? 13)))%nat.

Fixpoint trim_start (s : string) : string :=
  match s with
  | EmptyString => EmptyString
  | String c s' => if is_space c then trim_start s' else s
  end.

Fixpoint trim_end (s : string) : string :=
  match s with
  | EmptyString => EmptyString
  | String c s' =>
      match trim_end s' with
      | EmptyString => if is_space c then EmptyString else String c EmptyString
      | rest => String c rest
      end
  end.

(** [trim] on strings of the ASCII range. *)
Definition ascii_trim (s : string) : string := trim_end (trim_start s).

End MessageInput.

(** ** The message list *)

Module MessageList.

(** What a [MessageBubble] shows. *)
Record Bubble : Type := {
  label : string;
  typing : bool;
  text : string;
  failure : option string;
  retry : bool
}.

(** [MessageBubble]; [onRetry] says whether the property is given. *)
Definition MessageBubble (onRetry : bool) (message : Message.t) : Bubble :=
  let isUser := Role_eqb (Message.role message) User in
  let isFailed := Status_eqb (Message.status message) Failed in
  let isSending := Status_eqb (Message.status message) Sending in
  {| label := if isUser then "You" else "Assistant";
     typing := isSending;
     text := if negb (Message.content message =? "") then Message.content message
             else if isSending then "..." else "";
     failure :=
       if isFailed
       then Some match Message.error_message message with
                 | Some e => if negb (e =? "") then e else "Failed to send"
                 | None => "Failed to send"
                 end
       else None;
     retry := isFailed && onRetry && isUser |}.

(** What [MessageList] renders: the empty state, or the bubbles followed by
    the streaming text when there is some. *)
Inductive Rendered : Type :=
| EmptyState
| Thread (bubbles : list Bubble) (streaming : option string).

Definition MessageList (onRetry : bool) (messages : list Message.t)
           (streamingContent : option string) : Rendered :=
  let shown :=
    match streamingContent with
    | Some s => if negb (s =? "") then Some s else None
    | None => None
    end in
  match messages, shown with
  | [], None => EmptyState
  | _, _ => Thread (map (MessageBubble onRetry) messages) shown
  end.

(** [streamingContent || undefined], as [ChatView] passes it. *)
Definition streaming_prop (streamingContent : string) : option string :=
  if negb (streamingContent =? "") then Some streamingContent else None.

End MessageList.

(** ** The title of the chat view *)

Module ChatTitle.

Section Trim.

Variable trim : string -> string.

(** The part of the state of [ChatView] that the title uses. *)
Record State : Type := {
  conversation : option Conversation.t;
  isEditingTitle : bool;
  editedTitle : string;
  error : option string
}.

(** [editedTitle === conversation?.title] *)
Definition same_title (editedTitle : string) (conversation : option Conversation.t)
  : bool :=
  match conversation with
  | Some c =>
      match Conversation.title c with
      | JString t => editedTitle =? t
      | _ => false
      end
  | None => false
  end.

(** The request [handleTitleSave] makes, if any: PATCH /chats/:id with the
    title in its body. *)
Definition title_request (id : option string) (v : State) : option (string * string) :=
  match id with
  | Some id' =>
      if ChatView.no_id id || (trim (editedTitle v) =? "")
         || same_title (editedTitle v) (conversation v)
      then None
      else Some (id', trim (editedTitle v))
  | None => None
  end.

(** [handleTitleSave], once the request, if one is made, has settled:
    [result] is the conversation the server answered with, or the message
    shown for the failure.  With the state comes the conversation handed
    to [onConversationUpdate], if any. *)
Definition handleTitleSave (id : option string) (result : Conversation.t + string)
           (v : State) : State * option Conversation.t :=
  match title_request id v with
  | None =>
      ({| conversation := conversation v;
          isEditingTitle := false;
          editedTitle := editedTitle v;
          error := error v |}, None)
  | Some _ =>
      match result with
      | inl updatedConversation =>
          ({| conversation := Some updatedConversation;
              isEditingTitle := false;
              editedTitle := editedTitle v;
              error := error v |}, Some updatedConversation)
      | inr message =>
          ({| conversation := conversation v;
              isEditingTitle := false;
              editedTitle := editedTitle v;
              error := Some message |}, None)
      end
  end.

End Trim.

End ChatTitle.

(** * Properties of the routes *)

Module RoutesTheory.
Import Routes.

Local Ltac run_handler :=
  unfold exec, post_message, get_messages, post_conversation, bind, query,
    respond, push, emit, sql, ret; cbn.

(** ** Validation and lookup *)

Lemma not_a_string_rejected (content : JsValue) :
  (forall s, content <> JString s) ->
  negb (truthy content) || negb (typeof content =? "string") = true.
Proof.
  intros H. destruct content; cbn; try reflexivity.
  - apply orb_true_r.
  - apply orb_true_r.
  - exfalso. apply (H s). reflexivity.
Qed.

Lemma text_accepted (text : string) :
  text <> "" ->
  negb (truthy (JString text)) || negb (typeof (JString text) =? "string") = false.
Proof.
  intros H. cbn. apply String.eqb_neq in H. rewrite H. reflexivity.
Qed.

Lemma post_message_400 (env : Env) (d : Database) (id : string) (content : JsValue) :
  negb (truthy content) || negb (typeof content =? "string") = true ->
  exec (post_message env id content) d =
  {| db := d; log := [Respond 400 (ErrorJson "Message content is required")] |}.
Proof.
  intros H. unfold exec, post_message. rewrite H. reflexivity.
Qed.

Lemma post_message_404 (env : Env) (d : Database) (id text : string) :
  text <> "" ->
  get_conversation d id = None ->
  exec (post_message env id (JString text)) d =
  {| db := d; log := [Respond 404 (ErrorJson "Conversation not found")] |}.
Proof.
  intros Ht Hc. unfold exec, post_message.
  rewrite (text_accepted text Ht).
  unfold bind, query. cbn. rewrite Hc. reflexivity.
Qed.

Lemma get_messages_404 (d : Database) (id : string) :
  get_conversation d id = None ->
  exec (get_messages id) d =
  {| db := d; log := [Respond 404 (ErrorJson "Conversation not found")] |}.
Proof.
  intros Hc. unfold exec, get_messages, bind, query. cbn. rewrite Hc. reflexivity.
Qed.

(** C4.  A request to the send endpoint whose content is missing or not a
    string is answered with 400 and nothing else happens: the store is
    unchanged and the log holds the response only.  A request that names
    a conversation without a row is answered with 404, again with the
    store unchanged and no other effect, by the send endpoint (for a
    well-formed content) and by the listing endpoint. *)
Theorem client_errors_have_no_side_effects
        (env : Env) (d : Database) (id : string) (content : JsValue) :
  ((forall s, content <> JString s) ->
   exec (post_message env id content) d =
   {| db := d; log := [Respond 400 (ErrorJson "Message content is required")] |})
  /\
  (get_conversation d id = None ->
   (exists s, content = JString s /\ s <> "") ->
   exec (post_message env id content) d =
   {| db := d; log := [Respond 404 (ErrorJson "Conversation not found")] |})
  /\
  (get_conversation d id = None ->
   exec (get_messages id) d =
   {| db := d; log := [Respond 404 (ErrorJson "Conversation not found")] |}).
Proof.
  split; [| split].
  - intros H. apply post_message_400. apply not_a_string_rejected. exact H.
  - intros Hc [s [-> Hs]]. apply post_message_404; assumption.
  - apply get_messages_404.
Qed.

Lemma client_errors_have_no_side_effects_witness :
  let env := Scenario.request [] in
  let d := Scenario.fresh_conversation in
  ((forall s, JUndefined <> JString s)
   /\ get_conversation d "c9" = None
   /\ (exists s, JString "hello" = JString s /\ s <> ""))
  /\ exec (post_message env "c1" JUndefined) d =
     {| db := d; log := [Respond 400 (ErrorJson "Message content is required")] |}
  /\ exec (post_message env "c9" (JString "hello")) d =
     {| db := d; log := [Respond 404 (ErrorJson "Conversation not found")] |}
  /\ exec (get_messages "c9") d =
     {| db := d; log := [Respond 404 (ErrorJson "Conversation not found")] |}.
Proof.
  intros env d.
  assert (H1 : forall s, JUndefined <> JString s) by discriminate.
  assert (H2 : get_conversation d "c9" = None) by reflexivity.
  assert (H3 : exists s, JString "hello" = JString s /\ s <> "").
  { exists "hello". split; [reflexivity | discriminate]. }
  destruct (client_errors_have_no_side_effects env d "c1" JUndefined) as [H400 _].
  destruct (client_errors_have_no_side_effects env d "c9" (JString "hello"))
    as [_ [H404 Hget]].
  split; [repeat split; assumption |].
  split; [exact (H400 H1) |]. split; [exact (H404 H2 H3) | exact (Hget H2)].
Defined.

(** C9.  In the send endpoint the content is validated before the
    conversation is looked up: content that is missing or not a string
    (or is the empty string) gets 400 also when the conversation has no
    row, and the log then holds no 404. *)
Theorem validation_precedes_lookup
        (env : Env) (d : Database) (id : string) (content : JsValue) :
  (forall s, content <> JString s) \/ content = JString "" ->
  get_conversation d id = None ->
  responses (log (exec (post_message env id content) d)) =
  [(400, ErrorJson "Message content is required")].
Proof.
  intros H _. rewrite post_message_400; [reflexivity |].
  destruct H as [H | ->].
  - apply not_a_string_rejected. exact H.
  - reflexivity.
Qed.

Lemma validation_precedes_lookup_witness :
  let env := Scenario.request [] in
  let d := Scenario.fresh_conversation in
  (((forall s, JNumber 7 <> JString s) \/ JNumber 7 = JString "")
   /\ get_conversation d "c9" = None)
  /\ responses (log (exec (post_message env "c9" (JNumber 7)) d)) =
     [(400, ErrorJson "Message content is required")].
Proof.
  intros env d.
  assert (H1 : (forall s, JNumber 7 <> JString s) \/ JNumber 7 = JString "").
  { left. discriminate. }
  assert (H2 : get_conversation d "c9" = None) by reflexivity.
  split; [split; assumption |].
  exact (validation_precedes_lookup env d "c9" (JNumber 7) H1 H2).
Defined.

(** ** Creating a conversation *)

Lemma find_fresh_last (rows : list Conversation.t) (c : Conversation.t) :
  find (fun x => Conversation.id x =? Conversation.id c) rows = None ->
  find (fun x => Conversation.id x =? Conversation.id c) (rows ++ [c]) = Some c.
Proof.
  induction rows as [| r rows IH]; cbn.
  - intros _. rewrite String.eqb_refl. reflexivity.
  - destruct (Conversation.id r =? Conversation.id c); [discriminate | exact IH].
Qed.

(** C10.  When the body of POST / gives no title, or a falsy one, and the
    identifier drawn by [uuidv4()] is new, the row inserted has the title
    'New Chat', and the response is 201 with that row. *)
Theorem default_title_is_New_Chat
        (d : Database) (id now : string) (title : JsValue) :
  truthy title = false ->
  get_conversation d id = None ->
  let created := Conversation.mk id (JString "New Chat") now now in
  exec (post_conversation id now title) d =
  {| db := {| conversations := conversations d ++ [created];
              messages := messages d |};
     log := [Sql (InsertConversation id (JString "New Chat") now now);
             Respond 201 (ConversationJson (Some created))] |}.
Proof.
  intros Ht Hfresh created. run_handler.
  unfold js_or. rewrite Ht. unfold get_conversation. cbn.
  pose proof (find_fresh_last (conversations d) created Hfresh) as Hfind.
  subst created. cbn in Hfind. rewrite Hfind. reflexivity.
Qed.

Lemma default_title_is_New_Chat_witness :
  let d := Scenario.fresh_conversation in
  (truthy JUndefined = false /\ get_conversation d "c2" = None)
  /\ responses (log (exec (post_conversation "c2" "t2" JUndefined) d)) =
     [(201, ConversationJson (Some (Conversation.mk "c2" (JString "New Chat") "t2" "t2")))].
Proof.
  intros d.
  assert (H1 : truthy JUndefined = false) by reflexivity.
  assert (H2 : get_conversation d "c2" = None) by reflexivity.
  split; [split; assumption |].
  rewrite (default_title_is_New_Chat d "c2" "t2" JUndefined H1 H2). reflexivity.
Defined.

(** ** The stream, effect by effect *)

Lemma append_empty_r (s : string) : (s ++ "")%string = s.
Proof. induction s as [| c s IH]; cbn; [reflexivity | now rewrite IH]. Qed.

Lemma append_assoc (a b c : string) : ((a ++ b) ++ c)%string = (a ++ b ++ c)%string.
Proof. induction a as [| x a IH]; cbn; [reflexivity | now rewrite IH]. Qed.

Lemma concat_cons (x : string) (xs : list string) :
  String.concat "" (x :: xs) = (x ++ String.concat "" xs)%string.
Proof.
  destruct xs as [| y ys]; cbn.
  - symmetry. apply append_empty_r.
  - reflexivity.
Qed.

(** The fragments are relayed one by one, in order, while [fullResponse]
    gathers them; the store is not touched. *)
Lemma deliver_chunks (a : string) (fr : list string) (rest : list Signal) :
  forall (acc : string) (w : World),
    deliver a (map OnChunk fr ++ rest) acc w =
    deliver a rest (acc ++ String.concat "" fr)
            {| db := db w; log := log w ++ map (fun c => Push (EvChunk c)) fr |}.
Proof.
  induction fr as [| c fr IH]; intros acc w.
  - cbn [map app String.concat]. rewrite append_empty_r, app_nil_r.
    destruct w; reflexivity.
  - rewrite concat_cons, <- append_assoc.
    cbn [map app deliver]. unfold bind at 1, onChunk, bind, push, emit, ret.
    rewrite IH. cbn [db log]. rewrite <- app_assoc. reflexivity.
Qed.

Lemma deliver_source (a : string) (g : Generation) (acc : string) (w : World) :
  snd (deliver a (completion_source g) acc w) =
  match ending g with
  | Completes =>
      {| db := run (db w) (UpdateContentStatus (String.concat "" (fragments g)) Sent a);
         log := log w ++ map (fun c => Push (EvChunk c)) (fragments g)
                ++ [Sql (UpdateContentStatus (String.concat "" (fragments g)) Sent a);
                    Push (EvDone a (String.concat "" (fragments g)));
                    ResEnd] |}
  | Rejects message =>
      {| db := run (db w) (UpdateStatusError Failed message a);
         log := log w ++ map (fun c => Push (EvChunk c)) (fragments g)
                ++ [Sql (UpdateStatusError Failed message a);
                    Push (EvError message);
                    ResEnd] |}
  end.
Proof.
  unfold completion_source. rewrite deliver_chunks.
  destruct (ending g); cbn; rewrite <- !app_assoc; reflexivity.
Qed.

(** The effects of a request up to the opening of the session, after
    which the signals are delivered. *)
Lemma post_message_opens (env : Env) (d : Database) (id text : string) :
  text <> "" ->
  get_conversation d id <> None ->
  session_opens env = true ->
  exec (post_message env id (JString text)) d =
  snd (deliver (assistantMessageId env)
         (signals env text (history_of (messages_with_status d id Sent))) ""
         {| db := run (run (run d
                    (InsertMessage (userMessageId env) id User text Sent (now env)))
                    (InsertMessage (assistantMessageId env) id Assistant "" Sending (now env)))
                    (TouchConversation (now env) id);
            log := [Sql (InsertMessage (userMessageId env) id User text Sent (now env));
                    Sql (InsertMessage (assistantMessageId env) id Assistant ""
                                       Sending (now env));
                    Sql (TouchConversation (now env) id);
                    CreateSession] |}).
Proof.
  intros Ht Hc Hs. unfold exec, post_message.
  rewrite (text_accepted text Ht).
  unfold bind at 1. unfold query at 1. cbn [db].
  destruct (get_conversation d id) as [c |]; [| congruence].
  unfold bind, query, sql, emit. cbn. rewrite Hs.
  destruct (deliver _ _ _ _). reflexivity.
Qed.

(** ** What the log shows *)

Lemma chunk_payloads_app (l1 l2 : list Effect) :
  chunk_payloads (l1 ++ l2) = chunk_payloads l1 ++ chunk_payloads l2.
Proof. apply flat_map_app. Qed.

Lemma done_events_app (l1 l2 : list Effect) :
  done_events (l1 ++ l2) = done_events l1 ++ done_events l2.
Proof. apply flat_map_app. Qed.

Lemma error_events_app (l1 l2 : list Effect) :
  error_events (l1 ++ l2) = error_events l1 ++ error_events l2.
Proof. apply flat_map_app. Qed.

Lemma chunk_payloads_chunks (fr : list string) :
  chunk_payloads (map (fun c => Push (EvChunk c)) fr) = fr.
Proof. induction fr as [| c fr IH]; cbn; [reflexivity | now f_equal]. Qed.

Lemma done_events_chunks (fr : list string) :
  done_events (map (fun c => Push (EvChunk c)) fr) = [].
Proof. induction fr as [| c fr IH]; cbn; [reflexivity | exact IH]. Qed.

Lemma error_events_chunks (fr : list string) :
  error_events (map (fun c => Push (EvChunk c)) fr) = [].
Proof. induction fr as [| c fr IH]; cbn; [reflexivity | exact IH]. Qed.

(** ** What the store holds *)

Lemma filter_update_where {A} (p : A -> bool) (f : A -> A) (rows : list A) :
  (forall r, p (f r) = p r) ->
  filter p (update_where p f rows) = map f (filter p rows).
Proof.
  intros Hp. unfold update_where.
  induction rows as [| r rows IH]; cbn; [reflexivity |].
  destruct (p r) eqn:E.
  - rewrite Hp, E. cbn. now rewrite IH.
  - rewrite E. exact IH.
Qed.

Lemma rows_after_sent (d : Database) (c a : string) :
  rows_with_id (run d (UpdateContentStatus c Sent a)) a =
  map (fun m => Message.set_status Sent (Message.set_content c m)) (rows_with_id d a).
Proof.
  unfold rows_with_id. cbn.
  apply (filter_update_where (fun m => Message.id m =? a)). reflexivity.
Qed.

Lemma rows_after_failed (d : Database) (e a : string) :
  rows_with_id (run d (UpdateStatusError Failed e a)) a =
  map (fun m => Message.set_error_message (Some e) (Message.set_status Failed m))
      (rows_with_id d a).
Proof.
  unfold rows_with_id. cbn.
  apply (filter_update_where (fun m => Message.id m =? a)). reflexivity.
Qed.

(** Once the two rows are inserted, the placeholder has a row. *)
Lemma placeholder_inserted (d : Database) (u a id text now : string) :
  rows_with_id
    (run (run (run d (InsertMessage u id User text Sent now))
              (InsertMessage a id Assistant "" Sending now))
         (TouchConversation now id)) a <> [].
Proof.
  unfold rows_with_id. cbn. rewrite filter_app. cbn.
  rewrite String.eqb_refl. intros H. apply app_eq_nil in H.
  destruct H as [_ H]. discriminate.
Qed.

Lemma map_not_nil {A B} (f : A -> B) (l : list A) : l <> [] -> map f l <> [].
Proof. destruct l; [congruence | discriminate]. Qed.

(** C1.  When the source completes, the stream shows the fragments as
    chunk events, then one done event; the payloads of the chunk events
    put together are the content of the done event, and they are the
    content the store holds for the placeholder, whose status is then
    [sent].  No error event is pushed. *)
Theorem stream_content_agrees
        (env : Env) (d : Database) (id text : string) (g : Generation) :
  text <> "" ->
  get_conversation d id <> None ->
  session_opens env = true ->
  signals env text (history_of (messages_with_status d id Sent)) = completion_source g ->
  ending g = Completes ->
  let w := exec (post_message env id (JString text)) d in
  let full := String.concat "" (chunk_payloads (log w)) in
  chunk_payloads (log w) = fragments g
  /\ (exists before,
      log w = before ++ [Push (EvDone (assistantMessageId env) full); ResEnd]
      /\ chunk_payloads before = chunk_payloads (log w)
      /\ done_events before = [])
  /\ done_events (log w) = [(assistantMessageId env, full)]
  /\ error_events (log w) = []
  /\ rows_with_id (db w) (assistantMessageId env) <> []
  /\ forall m, In m (rows_with_id (db w) (assistantMessageId env)) ->
               Message.content m = full /\ Message.status m = Sent.
Proof.
  intros Ht Hc Hs Hg He w full. subst full w.
  rewrite (post_message_opens env d id text Ht Hc Hs), Hg, deliver_source, He.
  cbn [log db].
  set (fr := fragments g).
  set (a := assistantMessageId env).
  set (opening := [Sql _; Sql _; Sql _; CreateSession]).
  assert (Hchunks : chunk_payloads
            (opening ++ map (fun c => Push (EvChunk c)) fr
               ++ [Sql (UpdateContentStatus (String.concat "" fr) Sent a);
                   Push (EvDone a (String.concat "" fr)); ResEnd]) = fr).
  { rewrite !chunk_payloads_app, chunk_payloads_chunks. cbn. apply app_nil_r. }
  rewrite Hchunks.
  split; [| split; [| split; [| split; [| split]]]].
  - reflexivity.
  - exists (opening ++ map (fun c => Push (EvChunk c)) fr
             ++ [Sql (UpdateContentStatus (String.concat "" fr) Sent a)]).
    split; [| split].
    + rewrite <- !app_assoc. reflexivity.
    + rewrite !chunk_payloads_app, chunk_payloads_chunks. cbn. apply app_nil_r.
    + rewrite !done_events_app, done_events_chunks. reflexivity.
  - rewrite !done_events_app, done_events_chunks. reflexivity.
  - rewrite !error_events_app, error_events_chunks. reflexivity.
  - rewrite rows_after_sent. apply map_not_nil, placeholder_inserted.
  - intros m Hm. rewrite rows_after_sent in Hm. apply in_map_iff in Hm.
    destruct Hm as [m0 [<- _]]. split; reflexivity.
Qed.

Lemma stream_content_agrees_witness :
  let env := Scenario.request (completion_source Scenario.hi_there) in
  let d := Scenario.fresh_conversation in
  let w := exec (post_message env "c1" (JString "hello")) d in
  ("hello" <> ""
   /\ get_conversation d "c1" <> None
   /\ session_opens env = true
   /\ signals env "hello" (history_of (messages_with_status d "c1" Sent))
      = completion_source Scenario.hi_there
   /\ ending Scenario.hi_there = Completes)
  /\ chunk_payloads (log w) = ["Hi"; " there"]
  /\ done_events (log w) = [("a1", "Hi there")]
  /\ forall m, In m (rows_with_id (db w) "a1") ->
               Message.content m = "Hi there" /\ Message.status m = Sent.
Proof.
  intros env d w.
  assert (H1 : "hello" <> "") by discriminate.
  assert (H2 : get_conversation d "c1" <> None) by discriminate.
  assert (H3 : session_opens env = true) by reflexivity.
  assert (H4 : signals env "hello" (history_of (messages_with_status d "c1" Sent))
               = completion_source Scenario.hi_there) by reflexivity.
  assert (H5 : ending Scenario.hi_there = Completes) by reflexivity.
  destruct (stream_content_agrees env d "c1" "hello" Scenario.hi_there H1 H2 H3 H4 H5)
    as [Hchunks [_ [Hdone [_ [_ Hrows]]]]].
  split; [repeat split; assumption |].
  split; [exact Hchunks |].
  split; [exact Hdone | exact Hrows].
Defined.

(** ** The order of writes and events *)

Lemma split_snoc {A} (l : list A) (x : A) (l1 : list A) (y : A) (l2 : list A) :
  l ++ [x] = l1 ++ y :: l2 ->
  (l2 = [] /\ l = l1 /\ x = y) \/ (exists l2', l2 = l2' ++ [x] /\ l = l1 ++ y :: l2').
Proof.
  intros H. destruct l2 as [| b l2].
  - left. apply app_inj_tail in H. destruct H. auto.
  - right. destruct (exists_last (l := b :: l2)) as [l2' [c Hc]]; [discriminate |].
    rewrite Hc in H. change (l1 ++ y :: l2' ++ [c]) with (l1 ++ (y :: l2') ++ [c]) in H.
    rewrite app_assoc in H. apply app_inj_tail in H. destruct H as [H1 H2].
    exists l2'. subst. auto.
Qed.

Lemma replay_app (d : Database) (l1 l2 : list Effect) :
  replay d (l1 ++ l2) = replay (replay d l1) l2.
Proof. apply fold_left_app. Qed.

(** Every push that [deliver] adds to the log comes after all that was
    logged before, and a terminal push comes right after its write. *)
Lemma deliver_pushes (a : string) (sigs : list Signal) :
  forall (acc : string) (w : World) (l1 : list Effect) (e : SseEvent) (l2 : list Effect),
    log (snd (deliver a sigs acc w)) = l1 ++ Push e :: l2 ->
    (exists l2', log w = l1 ++ Push e :: l2')
    \/ ((exists mid, l1 = log w ++ mid) /\ written_just_before a l1 e).
Proof.
  induction sigs as [| s rest IH]; intros acc w l1 e l2 H.
  - left. exists l2. exact H.
  - destruct s; cbn [deliver] in H;
      unfold bind, onChunk, onError, onDone, push, emit, sql, ret in H;
      cbn [fst snd db log] in H;
      apply IH in H; cbn [log] in H;
      destruct H as [[l2' H] | [[mid Hmid] Hw]].
    + apply split_snoc in H. destruct H as [[_ [H1 H2]] | [l3 [_ H]]].
      * right. inversion H2; subst. split; [exists []; now rewrite app_nil_r | exact I].
      * left. eauto.
    + right. split; [| exact Hw]. exists ([Push (EvChunk chunk)] ++ mid).
      rewrite Hmid, <- app_assoc. reflexivity.
    + apply split_snoc in H. destruct H as [[_ [_ H2]] | [l3 [_ H]]]; [discriminate |].
      apply split_snoc in H. destruct H as [[_ [H1 H2]] | [l4 [_ H]]].
      * right. inversion H2; subst. split.
        -- exists [Sql (UpdateStatusError Failed message a)]. reflexivity.
        -- cbn. exists (log w). reflexivity.
      * apply split_snoc in H. destruct H as [[_ [_ H2]] | [l5 [_ H]]]; [discriminate |].
        left. eauto.
    + right. split; [| exact Hw].
      exists ([Sql (UpdateStatusError Failed message a); Push (EvError message); ResEnd]
                ++ mid).
      rewrite Hmid, <- !app_assoc. reflexivity.
    + apply split_snoc in H. destruct H as [[_ [_ H2]] | [l3 [_ H]]]; [discriminate |].
      apply split_snoc in H. destruct H as [[_ [H1 H2]] | [l4 [_ H]]].
      * right. inversion H2; subst. split.
        -- exists [Sql (UpdateContentStatus fullText Sent a)]. reflexivity.
        -- cbn. split; [reflexivity |]. exists (log w). reflexivity.
      * apply split_snoc in H. destruct H as [[_ [_ H2]] | [l5 [_ H]]]; [discriminate |].
        left. eauto.
    + right. split; [| exact Hw].
      exists ([Sql (UpdateContentStatus fullText Sent a); Push (EvDone a fullText); ResEnd]
                ++ mid).
      rewrite Hmid, <- !app_assoc. reflexivity.
    + apply split_snoc in H. destruct H as [[_ [_ H2]] | [l3 [_ H]]]; [discriminate |].
      left. eauto.
    + right. split; [| exact Hw]. exists ([Cancel] ++ mid).
      rewrite Hmid, <- app_assoc. reflexivity.
Qed.

Lemma filter_update_other {A} (q p : A -> bool) (f : A -> A) (rows : list A) :
  (forall r, q (f r) = q r) ->
  filter q (update_where p f rows) = update_where p f (filter q rows).
Proof.
  intros Hq. unfold update_where.
  induction rows as [| r rows IH]; cbn; [reflexivity |].
  destruct (p r) eqn:Ep.
  - rewrite Hq. destruct (q r); cbn; rewrite ?Ep, IH; reflexivity.
  - destruct (q r); cbn; rewrite ?Ep, IH; reflexivity.
Qed.

(** No statement removes a row or changes its identifier. *)
Lemma rows_survive (d : Database) (s : Statement) (x : string) :
  rows_with_id d x <> [] -> rows_with_id (run d s) x <> [].
Proof.
  unfold rows_with_id. intros H.
  destruct s; cbn; try exact H.
  - rewrite filter_app. intros E. apply app_eq_nil in E. tauto.
  - rewrite filter_update_other by reflexivity. apply map_not_nil, H.
  - rewrite filter_update_other by reflexivity. apply map_not_nil, H.
Qed.

Lemma rows_survive_replay (l : list Effect) (x : string) :
  forall d, rows_with_id d x <> [] -> rows_with_id (replay d l) x <> [].
Proof.
  induction l as [| e l IH]; intros d H; [exact H |].
  change (replay d (e :: l)) with (replay (replay d [e]) l).
  apply IH. destruct e; try exact H. cbn. apply rows_survive, H.
Qed.

Lemma rows_inserted (d : Database) (l : list Effect)
      (x c : string) (r : Role) (t : string) (st : Status) (n : string) :
  In (Sql (InsertMessage x c r t st n)) l ->
  rows_with_id (replay d l) x <> [].
Proof.
  intros H. apply in_split in H. destruct H as [l1 [l2 ->]].
  rewrite replay_app.
  change (replay (replay d l1) (Sql (InsertMessage x c r t st n) :: l2))
    with (replay (run (replay d l1) (InsertMessage x c r t st n)) l2).
  apply rows_survive_replay. unfold rows_with_id. cbn.
  rewrite filter_app. cbn. rewrite String.eqb_refl.
  intros E. apply app_eq_nil in E. destruct E as [_ E]. discriminate.
Qed.

Lemma replay_snoc (d : Database) (l : list Effect) (s : Statement) :
  replay d (l ++ [Sql s]) = run (replay d l) s.
Proof. rewrite replay_app. reflexivity. Qed.

Lemma stored_after_write (a : string) (d : Database) (l1 : list Effect) (e : SseEvent) :
  written_just_before a l1 e -> stored_when_pushed a (replay d l1) e.
Proof.
  destruct e as [c | mid full | msg]; cbn.
  - trivial.
  - intros [_ [l0 ->]] m Hm. rewrite replay_snoc, rows_after_sent in Hm. apply in_map_iff in Hm.
    destruct Hm as [m0 [<- _]]. split; reflexivity.
  - intros [l0 ->] m Hm. rewrite replay_snoc, rows_after_failed in Hm. apply in_map_iff in Hm.
    destruct Hm as [m0 [<- _]]. split; reflexivity.
Qed.

(** The store a handler leaves is the store it was given with the writes
    of its log applied in order. *)
Lemma deliver_tracks (a : string) (sigs : list Signal) :
  forall (acc : string) (w : World) (d : Database),
    db w = replay d (log w) ->
    db (snd (deliver a sigs acc w)) = replay d (log (snd (deliver a sigs acc w))).
Proof.
  induction sigs as [| s rest IH]; intros acc w d H; [exact H |].
  destruct s; cbn [deliver];
    unfold bind, onChunk, onError, onDone, push, emit, sql, ret;
    cbn [fst snd db log]; apply IH; cbn [db log];
    rewrite ?replay_app, <- H; reflexivity.
Qed.

Lemma post_message_500 (env : Env) (d : Database) (id text : string) :
  text <> "" ->
  get_conversation d id <> None ->
  session_opens env = false ->
  exec (post_message env id (JString text)) d =
  {| db := run (run (run d
              (InsertMessage (userMessageId env) id User text Sent (now env)))
              (InsertMessage (assistantMessageId env) id Assistant "" Sending (now env)))
              (TouchConversation (now env) id);
     log := [Sql (InsertMessage (userMessageId env) id User text Sent (now env));
             Sql (InsertMessage (assistantMessageId env) id Assistant ""
                                Sending (now env));
             Sql (TouchConversation (now env) id);
             CreateSession;
             Respond 500 (ErrorJson "Failed to process message")] |}.
Proof.
  intros Ht Hc Hs. unfold exec, post_message.
  rewrite (text_accepted text Ht).
  unfold bind at 1. unfold query at 1. cbn [db].
  destruct (get_conversation d id) as [c |]; [| congruence].
  unfold bind, query, sql, emit, respond. cbn. rewrite Hs. reflexivity.
Qed.

Lemma valid_content (content : JsValue) :
  negb (truthy content) || negb (typeof content =? "string") = false ->
  exists text, content = JString text /\ text <> "".
Proof.
  intros Ev.
  destruct content as [| | b | n | text |]; cbn in Ev;
    rewrite ?orb_true_r in Ev; try discriminate Ev.
  exists text. split; [reflexivity |]. intros ->. discriminate Ev.
Qed.

Lemma post_message_tracks (env : Env) (d : Database) (id : string) (content : JsValue) :
  db (exec (post_message env id content) d)
  = replay d (log (exec (post_message env id content) d)).
Proof.
  destruct (negb (truthy content) || negb (typeof content =? "string")) eqn:Ev.
  { rewrite post_message_400 by exact Ev. reflexivity. }
  apply valid_content in Ev. destruct Ev as [text [-> Ht]].
  destruct (get_conversation d id) as [c |] eqn:Hc.
  2:{ rewrite post_message_404 by assumption. reflexivity. }
  assert (Hc' : get_conversation d id <> None) by congruence.
  destruct (session_opens env) eqn:Hs.
  - rewrite post_message_opens by assumption. apply deliver_tracks. reflexivity.
  - rewrite post_message_500 by assumption. reflexivity.
Qed.

Lemma deliver_effects (a : string) (sigs : list Signal) :
  forall (acc : string) (w : World),
    snd (deliver a sigs acc w) =
    {| db := replay (db w) (flat_map (signal_effects a) sigs);
       log := log w ++ flat_map (signal_effects a) sigs |}.
Proof.
  induction sigs as [| s rest IH]; intros acc w.
  - cbn. rewrite app_nil_r. destruct w; reflexivity.
  - destruct s; cbn [deliver flat_map signal_effects];
      cbv beta iota zeta delta [bind onChunk onError onDone push emit sql ret];
      rewrite IH; cbn [db log];
      rewrite replay_app, <- !app_assoc; reflexivity.
Qed.

(** A push among the effects of the callbacks ends the effects of the
    calls up to the one that made it, or is followed there by the end of
    the response only. *)
Lemma effects_cut (a : string) (sigs : list Signal) :
  forall (mid : list Effect) (e : SseEvent) (l2 : list Effect),
    flat_map (signal_effects a) sigs = mid ++ Push e :: l2 ->
    exists n,
      flat_map (signal_effects a) (firstn n sigs) = mid ++ [Push e]
      \/ flat_map (signal_effects a) (firstn n sigs) = mid ++ [Push e; ResEnd].
Proof.
  induction sigs as [| s rest IH]; intros mid e l2 H.
  - destruct mid; discriminate H.
  - cbn [flat_map] in H. destruct s; cbn [signal_effects app] in H.
    + destruct mid as [| x mid].
      * exists 1. left. cbn in H |- *. inversion H. reflexivity.
      * cbn [app] in H. inversion H as [[Hx Hrest]].
        destruct (IH mid e l2 Hrest) as [n [Hn | Hn]]; exists (S n);
          cbn [firstn flat_map signal_effects app]; rewrite Hn; auto.
    + destruct mid as [| x1 [| x2 [| x3 mid]]]; cbn [app] in H; try discriminate H.
      * exists 1. right. cbn in H |- *. inversion H. reflexivity.
      * inversion H as [[Hx1 Hx2 Hx3 Hrest]].
        destruct (IH mid e l2 Hrest) as [n [Hn | Hn]]; exists (S n);
          cbn [firstn flat_map signal_effects app]; rewrite Hn; auto.
    + destruct mid as [| x1 [| x2 [| x3 mid]]]; cbn [app] in H; try discriminate H.
      * exists 1. right. cbn in H |- *. inversion H. reflexivity.
      * inversion H as [[Hx1 Hx2 Hx3 Hrest]].
        destruct (IH mid e l2 Hrest) as [n [Hn | Hn]]; exists (S n);
          cbn [firstn flat_map signal_effects app]; rewrite Hn; auto.
    + destruct mid as [| x mid]; cbn [app] in H; [discriminate H |].
      inversion H as [[Hx Hrest]].
      destruct (IH mid e l2 Hrest) as [n [Hn | Hn]]; exists (S n);
        cbn [firstn flat_map signal_effects app]; rewrite Hn; auto.
Qed.

(** A push and the end of the response write nothing. *)
Lemma replay_past_push (d : Database) (l : list Effect) (e : SseEvent) :
  replay d (l ++ [Push e]) = replay d l
  /\ replay d (l ++ [Push e; ResEnd]) = replay d l.
Proof. rewrite !replay_app. split; reflexivity. Qed.

(** C2.  Whenever an event is pushed, the two INSERT statements, of the
    user message and of the placeholder, are among the effects that came
    before it, and the store as those effects left it has a row for each;
    a done event comes right after the update that stores its content
    with the status [sent] on the placeholder, an error event right
    after the update that stores its message with the status [failed],
    and the store then shows the placeholder so.  That store is the one
    the handler holds: the store of the world it leaves is the store it
    was given with the writes of its log made in order, and so is, at
    the push of the event, the store of the world it has made by then
    (the world of [upto n], whose log ends with the event, or with the
    event and the end of the response, which writes nothing); that store
    has a row for the user message and one for the placeholder, and
    shows the placeholder as the event says. *)
Theorem persistence_precedes_events
        (env : Env) (d : Database) (id : string) (content : JsValue)
        (before : list Effect) (e : SseEvent) (after : list Effect) :
  log (exec (post_message env id content) d) = before ++ Push e :: after ->
  exists text,
    content = JString text
    /\ In (Sql (InsertMessage (userMessageId env) id User text Sent (now env))) before
    /\ In (Sql (InsertMessage (assistantMessageId env) id Assistant "" Sending (now env)))
          before
    /\ rows_with_id (replay d before) (userMessageId env) <> []
    /\ rows_with_id (replay d before) (assistantMessageId env) <> []
    /\ written_just_before (assistantMessageId env) before e
    /\ stored_when_pushed (assistantMessageId env) (replay d before) e
    /\ db (exec (post_message env id content) d)
       = replay d (log (exec (post_message env id content) d))
    /\ exists n,
         let w := exec (post_message (upto n env) id content) d in
         (log w = before ++ [Push e] \/ log w = before ++ [Push e; ResEnd])
         /\ db w = replay d before
         /\ rows_with_id (db w) (userMessageId env) <> []
         /\ rows_with_id (db w) (assistantMessageId env) <> []
         /\ stored_when_pushed (assistantMessageId env) (db w) e.
Proof.
  intros H.
  assert (Hin : In (Push e) (log (exec (post_message env id content) d))).
  { rewrite H. apply in_elt. }
  destruct (negb (truthy content) || negb (typeof content =? "string")) eqn:Ev.
  { rewrite post_message_400 in Hin by exact Ev.
    destruct Hin as [Hin | []]. discriminate. }
  apply valid_content in Ev. destruct Ev as [text [-> Ht]].
  destruct (get_conversation d id) as [c |] eqn:Hc.
  2:{ rewrite post_message_404 in Hin by assumption.
      destruct Hin as [Hin | []]. discriminate. }
  assert (Hc' : get_conversation d id <> None) by congruence.
  destruct (session_opens env) eqn:Hs.
  2:{ rewrite post_message_500 in Hin by assumption. cbn in Hin.
      repeat (destruct Hin as [Hin | Hin]; [discriminate |]). destruct Hin. }
  clear Hin.
  pose proof (post_message_tracks env d id (JString text)) as Htracks.
  pose proof H as Hlog.
  rewrite (post_message_opens env d id text Ht Hc' Hs) in H.
  apply deliver_pushes in H. cbn [log] in H.
  destruct H as [[l2' H] | [[mid Hmid] Hw]].
  { exfalso.
    assert (Hin : In (Push e)
                     [Sql (InsertMessage (userMessageId env) id User text Sent (now env));
                      Sql (InsertMessage (assistantMessageId env) id Assistant ""
                                         Sending (now env));
                      Sql (TouchConversation (now env) id);
                      CreateSession]).
    { rewrite H. apply in_elt. }
    cbn in Hin. repeat (destruct Hin as [Hin | Hin]; [discriminate |]). destruct Hin. }
  exists text.
  assert (Hu : In (Sql (InsertMessage (userMessageId env) id User text Sent (now env)))
                  before).
  { rewrite Hmid. cbn. auto. }
  assert (Ha : In (Sql (InsertMessage (assistantMessageId env) id Assistant ""
                                      Sending (now env))) before).
  { rewrite Hmid. cbn. auto. }
  assert (Hru : rows_with_id (replay d before) (userMessageId env) <> [])
    by (eapply rows_inserted, Hu).
  assert (Hra : rows_with_id (replay d before) (assistantMessageId env) <> [])
    by (eapply rows_inserted, Ha).
  assert (Hst : stored_when_pushed (assistantMessageId env) (replay d before) e)
    by (apply stored_after_write, Hw).
  repeat (split; [first [assumption | reflexivity] |]).
  (* the world at the push *)
  rewrite (post_message_opens env d id text Ht Hc' Hs), deliver_effects in Hlog.
  cbn [log] in Hlog. rewrite Hmid, <- app_assoc in Hlog.
  apply app_inv_head in Hlog.
  destruct (effects_cut _ _ _ _ _ Hlog) as [n Hn].
  exists n. cbv zeta.
  rewrite (post_message_opens (upto n env) d id text Ht Hc' Hs), deliver_effects.
  cbn [upto userMessageId assistantMessageId now signals db log].
  assert (Hopen : run (run (run d
                    (InsertMessage (userMessageId env) id User text Sent (now env)))
                    (InsertMessage (assistantMessageId env) id Assistant "" Sending
                                   (now env)))
                    (TouchConversation (now env) id)
                  = replay d
                      [Sql (InsertMessage (userMessageId env) id User text Sent (now env));
                       Sql (InsertMessage (assistantMessageId env) id Assistant ""
                                          Sending (now env));
                       Sql (TouchConversation (now env) id);
                       CreateSession]) by reflexivity.
  rewrite Hopen, <- replay_app.
  destruct Hn as [Hn | Hn]; rewrite Hn, !app_assoc, <- Hmid.
  - rewrite (proj1 (replay_past_push d before e)).
    split; [left; reflexivity |]. repeat (split; [assumption || reflexivity |]). assumption.
  - rewrite (proj2 (replay_past_push d before e)).
    split; [right; reflexivity |]. repeat (split; [assumption || reflexivity |]). assumption.
Qed.

Lemma persistence_precedes_events_witness :
  let env := Scenario.request (completion_source Scenario.hi_there) in
  let d := Scenario.fresh_conversation in
  let before :=
    [Sql (InsertMessage "u1" "c1" User "hello" Sent "t1");
     Sql (InsertMessage "a1" "c1" Assistant "" Sending "t1");
     Sql (TouchConversation "t1" "c1");
     CreateSession;
     Push (EvChunk "Hi");
     Push (EvChunk " there");
     Sql (UpdateContentStatus "Hi there" Sent "a1")] in
  log (exec (post_message env "c1" (JString "hello")) d)
  = before ++ Push (EvDone "a1" "Hi there") :: [ResEnd]
  /\ rows_with_id (replay d before) "u1" <> []
  /\ stored_when_pushed "a1" (replay d before) (EvDone "a1" "Hi there")
  /\ messages (db (exec (post_message (upto 3 env) "c1" (JString "hello")) d))
     = [Message.mk "u1" "c1" User "hello" Sent None "t1";
        Message.mk "a1" "c1" Assistant "Hi there" Sent None "t1"]
  /\ messages (db (exec (post_message (upto 1 env) "c1" (JString "hello")) d))
     = [Message.mk "u1" "c1" User "hello" Sent None "t1";
        Message.mk "a1" "c1" Assistant "" Sending None "t1"].
Proof.
  intros env d before.
  assert (H : log (exec (post_message env "c1" (JString "hello")) d)
              = before ++ Push (EvDone "a1" "Hi there") :: [ResEnd]) by reflexivity.
  destruct (persistence_precedes_events env d "c1" (JString "hello")
              before (EvDone "a1" "Hi there") [ResEnd] H)
    as [text [_ [_ [_ [Hu [_ [_ [Hstored _]]]]]]]].
  split; [exact H |]. split; [exact Hu |]. split; [exact Hstored |].
  split; reflexivity.
Defined.

(** ** A source that fails *)

Lemma deliver_rejection (a : string) (fr : list string) (message acc : string)
      (w : World) :
  snd (deliver a (map OnChunk fr ++ [OnError message]) acc w) =
  {| db := run (db w) (UpdateStatusError Failed message a);
     log := log w ++ map (fun c => Push (EvChunk c)) fr
            ++ [Sql (UpdateStatusError Failed message a);
                Push (EvError message);
                ResEnd] |}.
Proof.
  rewrite deliver_chunks. cbn. rewrite <- !app_assoc. reflexivity.
Qed.

(** C5, as stated, fails: when the error the source rejects with has an
    empty message, the error detail stored on the placeholder is empty. *)
Lemma rejection_with_empty_message :
  let env := Scenario.request (Scenario.rejects_after_one "") in
  let w := exec (post_message env "c1" (JString "hello")) Scenario.fresh_conversation in
  error_events (log w) = [""]
  /\ rows_with_id (db w) "a1" = [Message.mk "a1" "c1" Assistant "" Failed (Some "") "t1"]
  /\ ~ (forall m, In m (rows_with_id (db w) "a1") ->
                  Message.status m = Failed
                  /\ exists detail, Message.error_message m = Some detail /\ detail <> "").
Proof.
  intros env w. split; [reflexivity |]. split; [reflexivity |]. intros H.
  destruct (H (Message.mk "a1" "c1" Assistant "" Failed (Some "") "t1"))
    as [_ [detail [Hd Hne]]].
  - cbn. left. reflexivity.
  - cbn in Hd. inversion Hd. congruence.
Qed.

(** C5, amended.  When the source fails after yielding fragments, the
    fragments are pushed as chunk events, then the placeholder is stored
    with the status [failed] and, as error detail, the message of the
    error (whatever it is), then exactly one error event with that
    message is pushed and the response is ended; no done event is
    pushed. *)
Theorem rejection_persisted_and_reported
        (env : Env) (d : Database) (id text : string)
        (fr : list string) (message : string) :
  text <> "" ->
  get_conversation d id <> None ->
  session_opens env = true ->
  signals env text (history_of (messages_with_status d id Sent))
  = map OnChunk fr ++ [OnError message] ->
  let w := exec (post_message env id (JString text)) d in
  chunk_payloads (log w) = fr
  /\ (exists before,
      log w = before ++ [Sql (UpdateStatusError Failed message (assistantMessageId env));
                         Push (EvError message); ResEnd]
      /\ chunk_payloads before = fr
      /\ error_events before = [])
  /\ error_events (log w) = [message]
  /\ done_events (log w) = []
  /\ rows_with_id (db w) (assistantMessageId env) <> []
  /\ forall m, In m (rows_with_id (db w) (assistantMessageId env)) ->
               Message.status m = Failed /\ Message.error_message m = Some message.
Proof.
  intros Ht Hc Hs Hsig w. subst w.
  rewrite (post_message_opens env d id text Ht Hc Hs), Hsig, deliver_rejection.
  cbn [log db].
  set (a := assistantMessageId env).
  set (opening := [Sql _; Sql _; Sql _; CreateSession]).
  split; [| split; [| split; [| split; [| split]]]].
  - rewrite !chunk_payloads_app, chunk_payloads_chunks. cbn. apply app_nil_r.
  - exists (opening ++ map (fun c => Push (EvChunk c)) fr).
    split; [| split].
    + rewrite <- !app_assoc. reflexivity.
    + rewrite !chunk_payloads_app, chunk_payloads_chunks. reflexivity.
    + rewrite !error_events_app, error_events_chunks. reflexivity.
  - rewrite !error_events_app, error_events_chunks. reflexivity.
  - rewrite !done_events_app, done_events_chunks. reflexivity.
  - rewrite rows_after_failed. apply map_not_nil, placeholder_inserted.
  - intros m Hm. rewrite rows_after_failed in Hm. apply in_map_iff in Hm.
    destruct Hm as [m0 [<- _]]. split; reflexivity.
Qed.

Lemma rejection_persisted_and_reported_witness :
  let env := Scenario.request (Scenario.rejects_after_one "upstream failed") in
  let d := Scenario.fresh_conversation in
  let w := exec (post_message env "c1" (JString "hello")) d in
  ("hello" <> ""
   /\ get_conversation d "c1" <> None
   /\ session_opens env = true
   /\ signals env "hello" (history_of (messages_with_status d "c1" Sent))
      = map OnChunk ["Hi"] ++ [OnError "upstream failed"])
  /\ chunk_payloads (log w) = ["Hi"]
  /\ error_events (log w) = ["upstream failed"]
  /\ done_events (log w) = []
  /\ forall m, In m (rows_with_id (db w) "a1") ->
               Message.status m = Failed
               /\ Message.error_message m = Some "upstream failed".
Proof.
  intros env d w.
  assert (H1 : "hello" <> "") by discriminate.
  assert (H2 : get_conversation d "c1" <> None) by discriminate.
  assert (H3 : session_opens env = true) by reflexivity.
  assert (H4 : signals env "hello" (history_of (messages_with_status d "c1" Sent))
               = map OnChunk ["Hi"] ++ [OnError "upstream failed"]) by reflexivity.
  destruct (rejection_persisted_and_reported env d "c1" "hello" ["Hi"]
              "upstream failed" H1 H2 H3 H4)
    as [Hchunks [_ [Herr [Hdone [_ Hrows]]]]].
  split; [repeat split; assumption |].
  repeat split; try assumption; apply Hrows; assumption.
Defined.

(** ** The life cycle of a message *)

Lemma same_status_refl (s : option Status) : same_status s s = true.
Proof. destruct s as [[| |] |]; reflexivity. Qed.

Lemma status_history_cons (d : Database) (e : Effect) (l : list Effect) (x : string) :
  status_history d (e :: l) x = status_of d x :: status_history (replay d [e]) l x.
Proof. reflexivity. Qed.

Lemma follows_cons (move : option Status -> option Status -> bool)
      (d : Database) (e : Effect) (l : list Effect) (x : string) :
  follows move (status_history d (e :: l) x) =
  (same_status (status_of d x) (status_of (replay d [e]) x)
   || move (status_of d x) (status_of (replay d [e]) x))
  && follows move (status_history (replay d [e]) l x).
Proof. rewrite status_history_cons. destruct l; reflexivity. Qed.

Lemma follows_nil (move : option Status -> option Status -> bool)
      (d : Database) (x : string) :
  follows move (status_history d [] x) = true.
Proof. reflexivity. Qed.

Lemma follows_app (move : option Status -> option Status -> bool)
      (l1 l2 : list Effect) (x : string) :
  forall d,
    follows move (status_history d (l1 ++ l2) x) =
    follows move (status_history d l1 x)
    && follows move (status_history (replay d l1) l2 x).
Proof.
  induction l1 as [| e l1 IH]; intros d.
  - reflexivity.
  - cbn [app]. rewrite !follows_cons, IH, andb_assoc. reflexivity.
Qed.

Lemma follows_two (move : option Status -> option Status -> bool)
      (a b : option Status) (h : list (option Status)) :
  follows move (a :: b :: h) =
  (same_status a b || move a b) && follows move (b :: h).
Proof. reflexivity. Qed.

Lemma follows_weaken (move : option Status -> option Status -> bool)
      (h : list (option Status)) :
  follows no_move h = true -> follows move h = true.
Proof.
  induction h as [| a h IH]; [reflexivity |].
  destruct h as [| b h]; [reflexivity |].
  rewrite !follows_two. unfold no_move at 1. rewrite orb_false_r.
  intros H. apply andb_prop in H. destruct H as [H1 H2].
  rewrite H1, (IH H2). reflexivity.
Qed.

(** An effect that is not a write changes no status. *)
Lemma follows_quiet (move : option Status -> option Status -> bool)
      (d : Database) (e : Effect) (l : list Effect) (x : string) :
  replay d [e] = d ->
  follows move (status_history d (e :: l) x) = follows move (status_history d l x).
Proof.
  intros H. rewrite follows_cons, H, same_status_refl. reflexivity.
Qed.

Lemma find_snoc {A} (p : A -> bool) (l : list A) (m : A) :
  find p (l ++ [m]) =
  match find p l with
  | Some y => Some y
  | None => if p m then Some m else None
  end.
Proof.
  induction l as [| r l IH]; cbn; [reflexivity |].
  destruct (p r); [reflexivity | exact IH].
Qed.

Lemma find_update_where (x i : string) (f : Message.t -> Message.t)
      (rows : list Message.t) :
  (forall m, Message.id (f m) = Message.id m) ->
  find (fun m => Message.id m =? x)
       (update_where (fun m => Message.id m =? i) f rows)
  = option_map (fun m => if Message.id m =? i then f m else m)
               (find (fun m => Message.id m =? x) rows).
Proof.
  intros Hid. unfold update_where.
  induction rows as [| r rows IH]; cbn; [reflexivity |].
  destruct (Message.id r =? i) eqn:Ei.
  - rewrite Hid. destruct (Message.id r =? x); cbn; [now rewrite Ei | exact IH].
  - destruct (Message.id r =? x); cbn; [now rewrite Ei | exact IH].
Qed.

Lemma status_of_insert (d : Database) (i c : string) (r : Role) (t : string)
      (st : Status) (n x : string) :
  status_of (run d (InsertMessage i c r t st n)) x =
  match status_of d x with
  | Some s => Some s
  | None => if i =? x then Some st else None
  end.
Proof.
  unfold status_of. cbn. rewrite find_snoc. cbn.
  destruct (find _ (messages d)); cbn; [reflexivity |].
  destruct (i =? x); reflexivity.
Qed.

Lemma status_of_update (d : Database) (c : string) (st : Status) (i x : string) :
  status_of (run d (UpdateContentStatus c st i)) x =
  if i =? x then option_map (fun _ => st) (status_of d x) else status_of d x.
Proof.
  unfold status_of. cbn. rewrite find_update_where by reflexivity.
  destruct (find _ (messages d)) as [m |] eqn:Hf; cbn.
  - apply find_some in Hf. destruct Hf as [_ Hx]. apply String.eqb_eq in Hx.
    rewrite Hx, (String.eqb_sym x i). destruct (i =? x); reflexivity.
  - destruct (i =? x); reflexivity.
Qed.

Lemma status_of_fail (d : Database) (e : string) (st : Status) (i x : string) :
  status_of (run d (UpdateStatusError st e i)) x =
  if i =? x then option_map (fun _ => st) (status_of d x) else status_of d x.
Proof.
  unfold status_of. cbn. rewrite find_update_where by reflexivity.
  destruct (find _ (messages d)) as [m |] eqn:Hf; cbn.
  - apply find_some in Hf. destruct Hf as [_ Hx]. apply String.eqb_eq in Hx.
    rewrite Hx, (String.eqb_sym x i). destruct (i =? x); reflexivity.
  - destruct (i =? x); reflexivity.
Qed.

Lemma follows_write (move : option Status -> option Status -> bool)
      (d : Database) (s : Statement) (l : list Effect) (x : string) :
  follows move (status_history d (Sql s :: l) x) =
  (same_status (status_of d x) (status_of (run d s) x)
   || move (status_of d x) (status_of (run d s) x))
  && follows move (status_history (run d s) l x).
Proof. exact (follows_cons move d (Sql s) l x). Qed.

Lemma status_of_touch (d : Database) (n id x : string) :
  status_of (run d (TouchConversation n id)) x = status_of d x.
Proof. reflexivity. Qed.

(** The callbacks write to the placeholder only. *)
Lemma callbacks_leave_others (a x : string) (sigs : list Signal) :
  x <> a ->
  forall d, follows no_move (status_history d (flat_map (signal_effects a) sigs) x) = true.
Proof.
  intros Hx. apply String.eqb_neq in Hx. rewrite String.eqb_sym in Hx.
  induction sigs as [| s rest IH]; intros d; [reflexivity |].
  destruct s; cbn [flat_map signal_effects app].
  - rewrite follows_quiet by reflexivity. apply IH.
  - rewrite follows_write, status_of_fail, Hx, same_status_refl.
    rewrite !follows_quiet by reflexivity. apply IH.
  - rewrite follows_write, status_of_update, Hx, same_status_refl.
    rewrite !follows_quiet by reflexivity. apply IH.
  - rewrite follows_quiet by reflexivity. apply IH.
Qed.

(** With one terminal call at most, the placeholder leaves [sending]
    once, for [sent] or for [failed]. *)
Lemma callbacks_placeholder (a : string) (sigs : list Signal) :
  forall d,
    terminal_count sigs = 0
    \/ (terminal_count sigs <= 1 /\ status_of d a = Some Sending) ->
    follows lifecycle_move (status_history d (flat_map (signal_effects a) sigs) a) = true.
Proof.
  induction sigs as [| s rest IH]; intros d H; [reflexivity |].
  destruct s; cbn [flat_map signal_effects app].
  - rewrite follows_quiet by reflexivity. apply IH. exact H.
  - destruct H as [H | [H Hs]]; [discriminate H |].
    rewrite follows_write, status_of_fail, String.eqb_refl, Hs. cbn [option_map].
    rewrite !follows_quiet by reflexivity. apply IH.
    left. unfold terminal_count in *. cbn in H. lia.
  - destruct H as [H | [H Hs]]; [discriminate H |].
    rewrite follows_write, status_of_update, String.eqb_refl, Hs. cbn [option_map].
    rewrite !follows_quiet by reflexivity. apply IH.
    left. unfold terminal_count in *. cbn in H. lia.
  - rewrite follows_quiet by reflexivity. apply IH. exact H.
Qed.

Lemma opening_placeholder (d : Database) (u a id text n : string) :
  status_of d a = None ->
  u <> a ->
  follows lifecycle_move
    (status_history d [Sql (InsertMessage u id User text Sent n);
                       Sql (InsertMessage a id Assistant "" Sending n);
                       Sql (TouchConversation n id);
                       CreateSession] a) = true
  /\ status_of (run (run (run d (InsertMessage u id User text Sent n))
                          (InsertMessage a id Assistant "" Sending n))
                     (TouchConversation n id)) a = Some Sending.
Proof.
  intros Hfresh Hua. apply String.eqb_neq in Hua.
  assert (H1 : status_of (run d (InsertMessage u id User text Sent n)) a = None).
  { rewrite status_of_insert, Hfresh, Hua. reflexivity. }
  assert (H2 : status_of (run (run d (InsertMessage u id User text Sent n))
                              (InsertMessage a id Assistant "" Sending n)) a
               = Some Sending).
  { rewrite status_of_insert, H1, String.eqb_refl. reflexivity. }
  split.
  - rewrite follows_write, H1, Hfresh.
    rewrite follows_write, H1, H2.
    rewrite follows_write, status_of_touch, H2.
    rewrite follows_quiet by reflexivity. reflexivity.
  - rewrite status_of_touch. exact H2.
Qed.

Lemma opening_user (d : Database) (u a id text n : string) :
  u <> a ->
  follows created_sent
    (status_history d [Sql (InsertMessage u id User text Sent n);
                       Sql (InsertMessage a id Assistant "" Sending n);
                       Sql (TouchConversation n id);
                       CreateSession] u) = true.
Proof.
  intros Hua. apply not_eq_sym in Hua. apply String.eqb_neq in Hua.
  assert (H1 : exists s, status_of (run d (InsertMessage u id User text Sent n)) u
                         = Some s
                         /\ (same_status (status_of d u) (Some s)
                             || created_sent (status_of d u) (Some s)) = true).
  { rewrite status_of_insert, String.eqb_refl.
    destruct (status_of d u) as [s |].
    - exists s. split; [reflexivity |]. cbn. destruct s; reflexivity.
    - exists Sent. split; reflexivity. }
  destruct H1 as [s [H1 Hmove]].
  assert (H2 : status_of (run (run d (InsertMessage u id User text Sent n))
                              (InsertMessage a id Assistant "" Sending n)) u
               = Some s).
  { rewrite status_of_insert, H1. reflexivity. }
  rewrite follows_write, H1, Hmove.
  rewrite follows_write, H1, H2, same_status_refl.
  rewrite follows_write, status_of_touch, H2, same_status_refl.
  rewrite follows_quiet by reflexivity. reflexivity.
Qed.

Lemma opening_others (d : Database) (u a id text n x : string) :
  x <> u -> x <> a ->
  follows no_move
    (status_history d [Sql (InsertMessage u id User text Sent n);
                       Sql (InsertMessage a id Assistant "" Sending n);
                       Sql (TouchConversation n id);
                       CreateSession] x) = true.
Proof.
  intros Hu Ha.
  apply not_eq_sym in Hu. apply String.eqb_neq in Hu.
  apply not_eq_sym in Ha. apply String.eqb_neq in Ha.
  assert (H1 : status_of (run d (InsertMessage u id User text Sent n)) x
               = status_of d x).
  { rewrite status_of_insert, Hu. destruct (status_of d x); reflexivity. }
  assert (H2 : status_of (run (run d (InsertMessage u id User text Sent n))
                              (InsertMessage a id Assistant "" Sending n)) x
               = status_of d x).
  { rewrite status_of_insert, H1, Ha. destruct (status_of d x); reflexivity. }
  rewrite follows_write, H1, same_status_refl.
  rewrite follows_write, H1, H2, same_status_refl.
  rewrite follows_write, status_of_touch, H2, same_status_refl.
  rewrite follows_quiet by reflexivity. reflexivity.
Qed.

(** C3, as stated, fails: the user message is inserted with the status
    [sent]; it has not been in [sending] before. *)
Lemma user_message_is_created_sent :
  let env := Scenario.request (completion_source Scenario.hi_there) in
  let d := Scenario.fresh_conversation in
  let l := log (exec (post_message env "c1" (JString "hello")) d) in
  firstn 2 (status_history d l "u1") = [None; Some Sent]
  /\ follows lifecycle_move (status_history d l "u1") = false
  /\ ~ (forall x, follows lifecycle_move (status_history d l x) = true).
Proof.
  intros env d l. split; [reflexivity |]. split; [reflexivity |].
  intros H. specialize (H "u1"). vm_compute in H. discriminate H.
Qed.

(** C3, amended.  With identifiers that are new and a source that makes
    one terminal call at most, a request moves the status of the
    placeholder only along [sending -> sent] or [sending -> failed],
    after creating it as [sending]; the user message is created as
    [sent] and its status never changes; the status of no other message
    changes. *)
Theorem status_life_cycle (env : Env) (d : Database) (id text : string) :
  status_of d (assistantMessageId env) = None ->
  userMessageId env <> assistantMessageId env ->
  terminal_count (signals env text (history_of (messages_with_status d id Sent))) <= 1 ->
  let l := log (exec (post_message env id (JString text)) d) in
  follows lifecycle_move (status_history d l (assistantMessageId env)) = true
  /\ follows created_sent (status_history d l (userMessageId env)) = true
  /\ forall x, x <> userMessageId env -> x <> assistantMessageId env ->
               follows no_move (status_history d l x) = true.
Proof.
  intros Hfresh Hua Hone l. subst l.
  destruct (negb (truthy (JString text)) || negb (typeof (JString text) =? "string"))
    eqn:Ev.
  { rewrite post_message_400 by exact Ev. cbn.
    rewrite !same_status_refl. repeat split. intros x _ _.
    rewrite same_status_refl. reflexivity. }
  apply valid_content in Ev. destruct Ev as [t [Et Ht]]. inversion Et; subst t.
  destruct (get_conversation d id) as [c |] eqn:Hc.
  2:{ rewrite post_message_404 by assumption. cbn.
      rewrite !same_status_refl. repeat split. intros x _ _.
      rewrite same_status_refl. reflexivity. }
  assert (Hc' : get_conversation d id <> None) by congruence.
  set (u := userMessageId env) in *. set (a := assistantMessageId env) in *.
  destruct (opening_placeholder d u a id text (now env) Hfresh Hua) as [Hopen Hsending].
  pose proof (opening_user d u a id text (now env) Hua) as Huser.
  destruct (session_opens env) eqn:Hs.
  - rewrite (post_message_opens env d id text Ht Hc' Hs), deliver_effects.
    cbn [log db]. fold u a.
    split; [| split].
    + rewrite follows_app, Hopen. apply callbacks_placeholder.
      right. split; [exact Hone | exact Hsending].
    + rewrite follows_app, Huser. apply follows_weaken, callbacks_leave_others, Hua.
    + intros x Hxu Hxa.
      rewrite follows_app, (opening_others d u a id text (now env) x Hxu Hxa).
      apply callbacks_leave_others, Hxa.
  - rewrite (post_message_500 env d id text Ht Hc' Hs).
    cbn [log]. fold u a.
    change [Sql (InsertMessage u id User text Sent (now env));
            Sql (InsertMessage a id Assistant "" Sending (now env));
            Sql (TouchConversation (now env) id);
            CreateSession;
            Respond 500 (ErrorJson "Failed to process message")]
      with ([Sql (InsertMessage u id User text Sent (now env));
             Sql (InsertMessage a id Assistant "" Sending (now env));
             Sql (TouchConversation (now env) id);
             CreateSession]
              ++ [Respond 500 (ErrorJson "Failed to process message")]).
    split; [| split].
    + rewrite follows_app, Hopen, follows_quiet by reflexivity. reflexivity.
    + rewrite follows_app, Huser, follows_quiet by reflexivity. reflexivity.
    + intros x Hxu Hxa.
      rewrite follows_app, (opening_others d u a id text (now env) x Hxu Hxa).
      rewrite follows_quiet by reflexivity. reflexivity.
Qed.

Lemma status_life_cycle_witness :
  let env := Scenario.request (Scenario.rejects_after_one "upstream failed") in
  let d := Scenario.fresh_conversation in
  let l := log (exec (post_message env "c1" (JString "hello")) d) in
  (status_of d "a1" = None
   /\ "u1" <> "a1"
   /\ terminal_count (signals env "hello" (history_of (messages_with_status d "c1" Sent)))
      <= 1)
  /\ follows lifecycle_move (status_history d l "a1") = true
  /\ follows created_sent (status_history d l "u1") = true.
Proof.
  intros env d l.
  assert (H1 : status_of d "a1" = None) by reflexivity.
  assert (H2 : "u1" <> "a1") by discriminate.
  assert (H3 : terminal_count
                 (signals env "hello" (history_of (messages_with_status d "c1" Sent)))
               <= 1) by (vm_compute; lia).
  destruct (status_life_cycle env d "c1" "hello" H1 H2 H3) as [Ha [Hu _]].
  split; [repeat split; assumption |]. split; [exact Ha | exact Hu].
Defined.

(** ** What a request leaves of the rows that were there *)

Lemma update_where_none {A} (p : A -> bool) (f : A -> A) (l : list A) :
  (forall m, In m l -> p m = false) -> update_where p f l = l.
Proof.
  intros H. unfold update_where. induction l as [| m l IH]; cbn; [reflexivity |].
  rewrite (H m (or_introl eq_refl)). f_equal. apply IH.
  intros m' Hm'. apply H. right. exact Hm'.
Qed.

Lemma update_placeholder_only (a : string) (f : Message.t -> Message.t)
      (old : list Message.t) (urow p : Message.t) :
  (forall m, In m old -> (Message.id m =? a) = false) ->
  (Message.id urow =? a) = false ->
  Message.id p = a ->
  update_where (fun m => Message.id m =? a) f (old ++ [urow; p]) = old ++ [urow; f p].
Proof.
  intros Hold Hu Hp. unfold update_where. rewrite map_app.
  fold (update_where (fun m => Message.id m =? a) f old).
  rewrite (update_where_none _ f old Hold). cbn.
  rewrite Hu, Hp, String.eqb_refl. reflexivity.
Qed.

(** The callbacks rewrite the placeholder and nothing else. *)
Lemma callbacks_touch_placeholder (a : string) (old : list Message.t) (urow : Message.t)
      (sigs : list Signal) :
  (forall m, In m old -> (Message.id m =? a) = false) ->
  (Message.id urow =? a) = false ->
  forall (d : Database) (p : Message.t),
    messages d = old ++ [urow; p] ->
    Message.id p = a ->
    Message.role p = Assistant ->
    exists p',
      messages (replay d (flat_map (signal_effects a) sigs)) = old ++ [urow; p']
      /\ Message.id p' = a
      /\ Message.role p' = Assistant.
Proof.
  intros Hold Hu.
  induction sigs as [| s rest IH]; intros d p Hd Hp Hr.
  - exists p. auto.
  - destruct s; cbn [flat_map signal_effects app].
    + apply (IH d p); assumption.
    + change (replay d (Sql (UpdateStatusError Failed message a)
                          :: Push (EvError message) :: ResEnd
                          :: flat_map (signal_effects a) rest))
        with (replay (run d (UpdateStatusError Failed message a))
                     (flat_map (signal_effects a) rest)).
      apply (IH _ (Message.set_error_message (Some message)
                     (Message.set_status Failed p))).
      * cbn. rewrite Hd.
        apply (update_placeholder_only a
                 (fun m => Message.set_error_message (Some message)
                             (Message.set_status Failed m))); assumption.
      * exact Hp.
      * exact Hr.
    + change (replay d (Sql (UpdateContentStatus fullText Sent a)
                          :: Push (EvDone a fullText) :: ResEnd
                          :: flat_map (signal_effects a) rest))
        with (replay (run d (UpdateContentStatus fullText Sent a))
                     (flat_map (signal_effects a) rest)).
      apply (IH _ (Message.set_status Sent (Message.set_content fullText p))).
      * cbn. rewrite Hd.
        apply (update_placeholder_only a
                 (fun m => Message.set_status Sent (Message.set_content fullText m)));
          assumption.
      * exact Hp.
      * exact Hr.
    + apply (IH d p); assumption.
Qed.

Lemma no_row_with_id (d : Database) (a : string) :
  status_of d a = None ->
  forall m, In m (messages d) -> (Message.id m =? a) = false.
Proof.
  unfold status_of. intros H m Hm.
  destruct (find (fun m => Message.id m =? a) (messages d)) eqn:Hf; [discriminate |].
  exact (find_none _ _ Hf m Hm).
Qed.

(** A request that opens its stream adds a pair of rows, the user message
    with the text sent and a placeholder, after the rows that were there,
    which it leaves as they were. *)
Lemma post_message_adds_a_pair (env : Env) (d : Database) (id text : string) :
  text <> "" ->
  get_conversation d id <> None ->
  session_opens env = true ->
  status_of d (assistantMessageId env) = None ->
  userMessageId env <> assistantMessageId env ->
  exists p,
    messages (db (exec (post_message env id (JString text)) d))
    = messages d ++ [Message.mk (userMessageId env) id User text Sent None (now env); p]
    /\ Message.id p = assistantMessageId env
    /\ Message.role p = Assistant.
Proof.
  intros Ht Hc Hs Hfresh Hua.
  rewrite (post_message_opens env d id text Ht Hc Hs), deliver_effects. cbn [db].
  eapply callbacks_touch_placeholder.
  - apply no_row_with_id, Hfresh.
  - cbn. apply String.eqb_neq, Hua.
  - cbn. rewrite <- app_assoc. reflexivity.
  - reflexivity.
  - reflexivity.
Qed.

End RoutesTheory.

(** * Properties of the chat view *)

Module ChatViewTheory.
Import ChatView.

(** ** Sending while a stream is open *)

Lemma sendMessage_rejected (id : option string) (content : string) (clock : Clock)
      (v : State) :
  isStreaming v = true -> sendMessage id content clock v = v.
Proof.
  intros H. unfold sendMessage. destruct id as [s |]; [| reflexivity].
  rewrite H, orb_true_r. reflexivity.
Qed.

Lemma pending_app (l1 l2 : list Message.t) :
  pending (l1 ++ l2) = pending l1 ++ pending l2.
Proof. apply filter_app. Qed.

Lemma pending_filter (q : Message.t -> bool) (l : list Message.t) :
  pending (filter q l) = filter q (pending l).
Proof.
  unfold pending. induction l as [| m l IH]; cbn; [reflexivity |].
  destruct (q m) eqn:Eq; cbn;
    destruct (Role_eqb (Message.role m) User && Status_eqb (Message.status m) Sending);
    cbn; rewrite ?Eq, IH; reflexivity.
Qed.

(** Marking every entry that has the identifier of the optimistic one
    leaves no pending entry, when the pending entries all have that
    identifier. *)
Lemma pending_resolved (tid : string) (g : Message.t -> Message.t)
      (l : list Message.t) :
  (forall m, Status_eqb (Message.status (g m)) Sending = false) ->
  (forall m, In m (pending l) -> Message.id m = tid) ->
  pending (map (fun msg => if Message.id msg =? tid then g msg else msg) l) = [].
Proof.
  intros Hg. unfold pending.
  induction l as [| m l IH]; intros Hids; [reflexivity |].
  cbn [map filter].
  destruct (Message.id m =? tid) eqn:Eid.
  - rewrite Hg, andb_false_r. apply IH. intros m' Hm'. apply Hids.
    cbn. destruct (_ && _); [right |]; exact Hm'.
  - destruct (Role_eqb (Message.role m) User && Status_eqb (Message.status m) Sending)
      eqn:Ep.
    + apply String.eqb_neq in Eid. exfalso. apply Eid, Hids. cbn.
      rewrite Ep. left. reflexivity.
    + apply IH. intros m' Hm'. apply Hids. cbn. rewrite Ep. exact Hm'.
Qed.

Lemma settled_loaded (fetched : list Message.t) :
  pending fetched = [] -> settled (loaded fetched).
Proof.
  intros H. unfold settled, loaded. cbn [messages streams isStreaming].
  rewrite H. cbn. repeat split; auto; intros; contradiction.
Qed.

Lemma settled_sendMessage (id : option string) (content : string) (clock : Clock)
      (v : State) :
  settled v -> settled (sendMessage id content clock v).
Proof.
  intros Hv. unfold sendMessage. destruct id as [cid |]; [| exact Hv].
  destruct (no_id (Some cid) || isStreaming v) eqn:E; [exact Hv |].
  apply orb_false_elim in E. destruct E as [_ Hidle].
  destruct Hv as [H0 _]. destruct (H0 Hidle) as [Hs Hp].
  unfold settled. cbn [messages streams isStreaming].
  rewrite Hs, pending_app, Hp. cbn.
  repeat split; try discriminate; auto.
  intros s m [<- | []] [<- | []]. reflexivity.
Qed.

Lemma settled_filter (q : Message.t -> bool) (v : State) :
  settled v ->
  settled {| messages := filter q (messages v);
             streamingContent := streamingContent v;
             isStreaming := isStreaming v;
             error := error v;
             cleanupRef := cleanupRef v;
             streams := streams v |}.
Proof.
  intros [H0 [H1 [H2 H3]]]. unfold settled. cbn [messages streams isStreaming].
  rewrite pending_filter. repeat split.
  - apply H0, H.
  - destruct (H0 H) as [_ Hp]. rewrite Hp. reflexivity.
  - exact H1.
  - eapply Nat.le_trans; [apply filter_length_le | exact H2].
  - intros s m Hs Hm. apply filter_In in Hm. apply (H3 s m Hs), Hm.
Qed.

(** The one open stream, when the [n]-th is open. *)
Lemma only_stream (v : State) (n : nat) (s : Subscription) :
  length (streams v) <= 1 ->
  nth_error (streams v) n = Some s ->
  streams v = [s] /\ n = 0.
Proof.
  intros Hlen Hn. destruct (streams v) as [| s0 [| s1 l]]; cbn in Hlen.
  - destruct n; discriminate Hn.
  - destruct n as [| n]; cbn in Hn.
    + inversion Hn. auto.
    + destruct n; discriminate Hn.
  - lia.
Qed.

Lemma settled_step (id : option string) (v : State) (a : Action) :
  settled v -> settled (step id v a).
Proof.
  intros Hv. destruct a as [content clock | message clock | n chunk
                            | n messageId content clock | n message]; cbn [step].
  - apply settled_sendMessage, Hv.
  - unfold handleRetry. apply settled_sendMessage, settled_filter, Hv.
  - destruct (nth_error (streams v) n); exact Hv.
  - destruct (nth_error (streams v) n) as [s |] eqn:Hn; [| exact Hv].
    destruct Hv as [H0 [H1 [H2 H3]]].
    destruct (only_stream v n s H1 Hn) as [Hs ->].
    unfold settled, close, onDone. cbn [messages streams isStreaming].
    rewrite Hs. cbn [firstn skipn app length].
    rewrite pending_app.
    rewrite (pending_resolved (Message.id (tempUserMessage s))
               (fun msg => Message.set_id (replace "temp-" "user-" (Message.id msg))
                                          (Message.set_status Sent msg))).
    + cbn. repeat split; auto; intros; contradiction.
    + reflexivity.
    + intros m Hm. apply (H3 s m); [rewrite Hs; left; reflexivity | exact Hm].
  - destruct (nth_error (streams v) n) as [s |] eqn:Hn; [| exact Hv].
    destruct Hv as [H0 [H1 [H2 H3]]].
    destruct (only_stream v n s H1 Hn) as [Hs ->].
    unfold settled, close, onError. cbn [messages streams isStreaming].
    rewrite Hs. cbn [firstn skipn app length].
    rewrite (pending_resolved (Message.id (tempUserMessage s))
               (fun msg => Message.set_error_message (Some message)
                                                     (Message.set_status Failed msg))).
    + cbn. repeat split; auto; intros; contradiction.
    + reflexivity.
    + intros m Hm. apply (H3 s m); [rewrite Hs; left; reflexivity | exact Hm].
Qed.

Lemma settled_steps (id : option string) (l : list Action) :
  forall v, settled v -> settled (steps id v l).
Proof.
  induction l as [| a l IH]; intros v Hv; [exact Hv |].
  apply IH, settled_step, Hv.
Qed.

Lemma one_stream_sendMessage (id : option string) (content : string) (clock : Clock)
      (v : State) :
  one_stream v -> one_stream (sendMessage id content clock v).
Proof.
  intros Hv. unfold sendMessage. destruct id as [cid |]; [| exact Hv].
  destruct (no_id (Some cid) || isStreaming v) eqn:E; [exact Hv |].
  apply orb_false_elim in E. destruct E as [_ Hidle].
  destruct Hv as [H0 _]. unfold one_stream. cbn [streams isStreaming].
  rewrite (H0 Hidle). cbn. split; [discriminate | lia].
Qed.

Lemma one_stream_step (id : option string) (v : State) (a : Action) :
  one_stream v -> one_stream (step id v a).
Proof.
  intros Hv. destruct a as [content clock | message clock | n chunk
                            | n messageId content clock | n message]; cbn [step].
  - apply one_stream_sendMessage, Hv.
  - unfold handleRetry. apply one_stream_sendMessage. exact Hv.
  - destruct (nth_error (streams v) n); exact Hv.
  - destruct (nth_error (streams v) n) as [s |] eqn:Hn; [| exact Hv].
    destruct Hv as [_ H1]. destruct (only_stream v n s H1 Hn) as [Hs ->].
    unfold one_stream, close, onDone. cbn [streams isStreaming].
    rewrite Hs. cbn. split; [reflexivity | lia].
  - destruct (nth_error (streams v) n) as [s |] eqn:Hn; [| exact Hv].
    destruct Hv as [_ H1]. destruct (only_stream v n s H1 Hn) as [Hs ->].
    unfold one_stream, close, onError. cbn [streams isStreaming].
    rewrite Hs. cbn. split; [reflexivity | lia].
Qed.

Lemma one_stream_steps (id : option string) (l : list Action) :
  forall v, one_stream v -> one_stream (steps id v l).
Proof.
  induction l as [| a l IH]; intros v Hv; [exact Hv |].
  apply IH, one_stream_step, Hv.
Qed.

Lemma one_stream_loaded (fetched : list Message.t) : one_stream (loaded fetched).
Proof. split; [reflexivity | cbn; lia]. Qed.

(** C6.  In every view reached from a fetched conversation, a send made
    while [isStreaming] holds changes nothing, no component state and no
    stream opened, and there is at most one open stream; when none of the
    fetched messages is a pending user entry, there is at most one
    pending optimistic entry. *)
Theorem one_exchange_at_a_time
        (id : option string) (fetched : list Message.t) (actions : list Action) :
  let v := steps id (loaded fetched) actions in
  (isStreaming v = true ->
   forall content clock, sendMessage id content clock v = v)
  /\ length (streams v) <= 1
  /\ (pending fetched = [] -> length (pending (messages v)) <= 1).
Proof.
  intros v. split; [| split].
  - intros Hs content clock. apply sendMessage_rejected, Hs.
  - apply (one_stream_steps id actions (loaded fetched) (one_stream_loaded fetched)).
  - intros Hf.
    destruct (settled_steps id actions (loaded fetched) (settled_loaded fetched Hf))
      as [_ [_ [H2 _]]].
    exact H2.
Qed.

Lemma one_exchange_at_a_time_witness :
  let v := steps (Some "c1") (loaded [])
                 [Send "first" Scenario.first_click;
                  Error 0 "boom";
                  Send "second" Scenario.second_click;
                  Chunk 0 "Hi"] in
  (isStreaming v = true /\ pending [] = [])
  /\ sendMessage (Some "c1") "third" Scenario.third_click v = v
  /\ length (streams v) <= 1
  /\ length (pending (messages v)) <= 1.
Proof.
  intros v.
  assert (H0 : pending [] = []) by reflexivity.
  assert (Hs : isStreaming v = true) by reflexivity.
  destruct (one_exchange_at_a_time (Some "c1") []
              [Send "first" Scenario.first_click;
               Error 0 "boom";
               Send "second" Scenario.second_click;
               Chunk 0 "Hi"]) as [Hrej [Hlen Hpending]].
  split; [split; assumption |].
  split; [exact (Hrej Hs "third" Scenario.third_click) |].
  split; [exact Hlen | exact (Hpending H0)].
Defined.

(** ** The end of an exchange *)

Lemma substring_all (s : string) : substring 0 (String.length s) s = s.
Proof. induction s as [| c s IH]; cbn; [reflexivity | now rewrite IH]. Qed.

Lemma prefix_append (p s : string) : String.prefix p (p ++ s) = true.
Proof.
  induction p as [| a p IH]; cbn.
  - destruct s; reflexivity.
  - destruct (Ascii.ascii_dec a a); [exact IH | congruence].
Qed.

Lemma substring_after (p s : string) :
  substring (String.length p) (String.length (p ++ s) - String.length p) (p ++ s) = s.
Proof.
  induction p as [| a p IH]; cbn.
  - rewrite Nat.sub_0_r. apply substring_all.
  - exact IH.
Qed.

Lemma replace_unfold (pat rep s : string) :
  replace pat rep s =
  if String.prefix pat s
  then (rep ++ substring (String.length pat) (String.length s - String.length pat) s)%string
  else match s with
       | EmptyString => EmptyString
       | String c s' => String c (replace pat rep s')
       end.
Proof. destruct s; reflexivity. Qed.

(** A pattern at the start of the string is the occurrence replaced. *)
Lemma replace_prefix (pat rep s : string) :
  replace pat rep (pat ++ s) = (rep ++ s)%string.
Proof.
  rewrite replace_unfold, prefix_append, substring_after. reflexivity.
Qed.

(** The identifier of an optimistic entry, once confirmed. *)
Lemma confirmed_id (ms : N) :
  replace "temp-" "user-" (temp_id ms)
  = ("user-" ++ NilEmpty.string_of_uint (N.to_uint ms))%string.
Proof. apply replace_prefix. Qed.

Lemma nth_error_in_range {A} (l : list A) (i : nat) (x : A) :
  nth_error l i = Some x -> i < length l.
Proof. intros H. apply nth_error_Some. congruence. Qed.

(** C7.  On [onDone], the optimistic user entry, where it stands in the
    view, is replaced by itself with the status [sent] and the
    identifier "user-" followed by its time stamp; the entries with
    another identifier stay as they are; one entry is appended, the
    assistant message with the identifier and the text of the done
    event and the status [sent]; the streaming buffer is emptied and
    the view is idle again. *)
Theorem onDone_reconciles
        (id : string) (temp : Message.t) (ms : N) (messageId fullContent : string)
        (clock : Clock) (v : State) (i : nat) :
  Message.id temp = temp_id ms ->
  nth_error (messages v) i = Some temp ->
  let v' := onDone id temp messageId fullContent clock v in
  nth_error (messages v') i
  = Some (Message.mk ("user-" ++ NilEmpty.string_of_uint (N.to_uint ms))
                     (Message.conversation_id temp) (Message.role temp)
                     (Message.content temp) Sent (Message.error_message temp)
                     (Message.created_at temp))
  /\ (forall j m, nth_error (messages v) j = Some m ->
                  Message.id m <> Message.id temp ->
                  nth_error (messages v') j = Some m)
  /\ nth_error (messages v') (length (messages v))
     = Some (Message.mk messageId id Assistant fullContent Sent None (toISOString clock))
  /\ length (messages v') = S (length (messages v))
  /\ streamingContent v' = ""
  /\ isStreaming v' = false
  /\ cleanupRef v' = None.
Proof.
  intros Hid Hi v'. subst v'. unfold onDone. cbn [messages streamingContent isStreaming cleanupRef].
  repeat split.
  - rewrite nth_error_app1 by (rewrite length_map; eapply nth_error_in_range, Hi).
    rewrite nth_error_map, Hi. cbn [option_map].
    rewrite String.eqb_refl. unfold Message.set_id, Message.set_status. cbn.
    rewrite Hid, confirmed_id. reflexivity.
  - intros j m Hj Hne.
    rewrite nth_error_app1 by (rewrite length_map; eapply nth_error_in_range, Hj).
    rewrite nth_error_map, Hj. cbn [option_map].
    apply String.eqb_neq in Hne. rewrite Hne. reflexivity.
  - rewrite nth_error_app2 by (rewrite length_map; apply Nat.le_refl).
    rewrite length_map, Nat.sub_diag. reflexivity.
  - rewrite length_app, length_map. cbn. lia.
Qed.

Lemma onDone_reconciles_witness :
  let v := steps (Some "c1") (loaded [])
                 [Send "hello" Scenario.first_click; Chunk 0 "Hi"; Chunk 0 " there"] in
  let temp := Message.mk "temp-1700" "c1" User "hello" Sending None "t1" in
  let v' := onDone "c1" temp "a1" "Hi there" Scenario.second_click v in
  (Message.id temp = temp_id 1700 /\ nth_error (messages v) 0 = Some temp)
  /\ messages v' = [Message.mk "user-1700" "c1" User "hello" Sent None "t1";
                    Message.mk "a1" "c1" Assistant "Hi there" Sent None "t2"]
  /\ streamingContent v = "Hi there"
  /\ streamingContent v' = ""
  /\ isStreaming v' = false.
Proof.
  intros v temp v'.
  assert (H1 : Message.id temp = temp_id 1700) by reflexivity.
  assert (H2 : nth_error (messages v) 0 = Some temp) by reflexivity.
  destruct (onDone_reconciles "c1" temp 1700 "a1" "Hi there" Scenario.second_click
              v 0 H1 H2) as [_ [_ [_ [_ [Hbuf [Hidle _]]]]]].
  split; [split; assumption |].
  split; [reflexivity |]. split; [reflexivity |].
  split; [exact Hbuf | exact Hidle].
Defined.

(** ** Retrying *)

(** In an idle view, a retry removes the failed entry, appends a new
    optimistic entry with the text of the failed one, and opens a stream
    that posts that text. *)
Lemma handleRetry_idle (cid : string) (message : Message.t) (clock : Clock) (v : State) :
  cid <> "" ->
  isStreaming v = false ->
  let v' := handleRetry (Some cid) message clock v in
  let entry := Message.mk (temp_id (dateNow clock)) cid User (Message.content message)
                          Sending None (toISOString clock) in
  messages v'
  = filter (fun m => negb (Message.id m =? Message.id message)) (messages v) ++ [entry]
  /\ isStreaming v' = true
  /\ exists s, streams v' = streams v ++ [s]
               /\ body_content s = Message.content message
               /\ tempUserMessage s = entry.
Proof.
  intros Hcid Hidle v' entry. subst v' entry.
  unfold handleRetry, sendMessage. cbn [isStreaming messages streams no_id].
  apply String.eqb_neq in Hcid. rewrite Hcid, Hidle. cbn.
  repeat split. eexists. repeat split.
Qed.

(** C8, as stated, fails: a retry made while another exchange is being
    streamed removes the failed entry from the view, and the send it
    calls is rejected; the text of the failed entry is then in no entry
    of the view and no stream was opened for it. *)
Lemma retry_while_streaming_sends_nothing :
  let v := Scenario.streaming_after_failure in
  let v' := handleRetry (Some "c1") Scenario.failed_entry Scenario.third_click v in
  messages v = [Scenario.failed_entry;
                Message.mk "temp-1800" "c1" User "second" Sending None "t2"]
  /\ isStreaming v = true
  /\ messages v' = [Message.mk "temp-1800" "c1" User "second" Sending None "t2"]
  /\ streams v' = streams v
  /\ map body_content (streams v') = ["second"]
  /\ ~ (exists m, In m (messages v') /\ Message.content m = "first").
Proof.
  repeat split. intros [m [[<- | []] Hm]]. discriminate Hm.
Qed.

End ChatViewTheory.

(** * A retry, from the view to the store *)

Module RetryTheory.
Import Routes.

(** C8, amended.  In a view that is not streaming, a retry removes the
    failed entry, appends a new optimistic entry with the text of the
    failed one, and opens a stream that posts that text to the
    conversation; the request so posted, when it opens its stream with
    new identifiers, adds a new pair of rows to the store, the user
    message with that text and a placeholder, after the rows that were
    there, which stay as they were. *)
Theorem retry_sends_anew
        (cid : string) (message : Message.t) (clock : ChatView.Clock)
        (v : ChatView.State) (env : Env) (d : Database) :
  cid <> "" ->
  ChatView.isStreaming v = false ->
  Message.content message <> "" ->
  get_conversation d cid <> None ->
  session_opens env = true ->
  status_of d (assistantMessageId env) = None ->
  userMessageId env <> assistantMessageId env ->
  let v' := ChatView.handleRetry (Some cid) message clock v in
  let entry :=
    Message.mk (ChatView.temp_id (ChatView.dateNow clock)) cid User
               (Message.content message) Sending None (ChatView.toISOString clock) in
  ChatView.messages v'
  = filter (fun m => negb (Message.id m =? Message.id message)) (ChatView.messages v)
    ++ [entry]
  /\ ChatView.isStreaming v' = true
  /\ (exists s, ChatView.streams v' = ChatView.streams v ++ [s]
                /\ ChatView.body_content s = Message.content message
                /\ ChatView.tempUserMessage s = entry)
  /\ exists p,
      messages (db (exec (post_message env cid (JString (Message.content message))) d))
      = messages d
        ++ [Message.mk (userMessageId env) cid User (Message.content message)
                       Sent None (now env); p]
      /\ Message.id p = assistantMessageId env
      /\ Message.role p = Assistant.
Proof.
  intros Hcid Hidle Htext Hc Hs Hfresh Hua v' entry.
  destruct (ChatViewTheory.handleRetry_idle cid message clock v Hcid Hidle)
    as [Hm [Hst Hsub]].
  split; [exact Hm |]. split; [exact Hst |]. split; [exact Hsub |].
  apply RoutesTheory.post_message_adds_a_pair; assumption.
Qed.

Lemma retry_sends_anew_witness :
  let v := ChatView.steps (Some "c1") (ChatView.loaded [])
             [ChatView.Send "first" Scenario.first_click; ChatView.Error 0 "boom"] in
  let env := Scenario.request (completion_source Scenario.hi_there) in
  let d := Scenario.fresh_conversation in
  let v' := ChatView.handleRetry (Some "c1") Scenario.failed_entry
                                 Scenario.second_click v in
  ("c1" <> ""
   /\ ChatView.isStreaming v = false
   /\ Message.content Scenario.failed_entry <> ""
   /\ get_conversation d "c1" <> None
   /\ session_opens env = true
   /\ status_of d (assistantMessageId env) = None
   /\ userMessageId env <> assistantMessageId env)
  /\ ChatView.messages v = [Scenario.failed_entry]
  /\ ChatView.messages v'
     = [Message.mk "temp-1800" "c1" User "first" Sending None "t2"]
  /\ ChatView.isStreaming v' = true.
Proof.
  intros v env d v'.
  assert (H1 : "c1" <> "") by discriminate.
  assert (H2 : ChatView.isStreaming v = false) by reflexivity.
  assert (H3 : Message.content Scenario.failed_entry <> "") by discriminate.
  assert (H4 : get_conversation d "c1" <> None) by discriminate.
  assert (H5 : session_opens env = true) by reflexivity.
  assert (H6 : status_of d (assistantMessageId env) = None) by reflexivity.
  assert (H7 : userMessageId env <> assistantMessageId env) by discriminate.
  destruct (retry_sends_anew "c1" Scenario.failed_entry Scenario.second_click v env d
              H1 H2 H3 H4 H5 H6 H7) as [Hm [Hst _]].
  split; [repeat split; assumption |].
  split; [reflexivity |]. split; [exact Hm | exact Hst].
Defined.

End RetryTheory.

(** * More on the routes: listings, history, and the paths that end early *)

Module ListingTheory.
Import Routes.

(** ** The order of time stamps *)

Lemma ltb_leb (a b : string) : String.ltb a b = true -> String.leb a b = true.
Proof.
  unfold String.ltb, String.leb. destruct (String.compare a b); congruence.
Qed.

Lemma not_ltb_leb (a b : string) : String.ltb a b = false -> String.leb b a = true.
Proof.
  unfold String.ltb, String.leb. rewrite (String.compare_antisym b a).
  destruct (String.compare a b); cbn; congruence.
Qed.

Lemma ltb_asym (a b : string) : String.ltb a b = true -> String.ltb b a = false.
Proof.
  unfold String.ltb. rewrite (String.compare_antisym b a).
  destruct (String.compare a b); cbn; congruence.
Qed.

Lemma ltb_irrefl (a : string) : String.ltb a a = false.
Proof.
  destruct (String.ltb a a) eqn:E; [| reflexivity].
  pose proof (ltb_asym a a E). congruence.
Qed.

(** ** Messages in the order of their creation *)

Lemma insert_by_created_at_perm (m : Message.t) (l : list Message.t) :
  Permutation (insert_by_created_at m l) (m :: l).
Proof.
  induction l as [| x l IH]; cbn; [reflexivity |].
  destruct (String.ltb (Message.created_at m) (Message.created_at x)); [reflexivity |].
  rewrite IH. apply perm_swap.
Qed.

Lemma order_by_created_at_perm_acc (l : list Message.t) :
  forall acc,
    Permutation (fold_left (fun acc m => insert_by_created_at m acc) l acc) (acc ++ l).
Proof.
  induction l as [| m l IH]; intros acc; cbn.
  - rewrite app_nil_r. reflexivity.
  - rewrite IH, insert_by_created_at_perm. apply Permutation_middle.
Qed.

Lemma order_by_created_at_perm (l : list Message.t) :
  Permutation (order_by_created_at l) l.
Proof. apply (order_by_created_at_perm_acc l []). Qed.

Lemma insert_by_created_at_ordered (m : Message.t) (l : list Message.t) :
  Crud.ordered Crud.created_le l = true ->
  Crud.ordered Crud.created_le (insert_by_created_at m l) = true
  /\ forall x, Crud.created_le x m = true ->
               Crud.ordered Crud.created_le (x :: l) = true ->
               Crud.ordered Crud.created_le (x :: insert_by_created_at m l) = true.
Proof.
  induction l as [| y l IH]; intros Hl.
  - split; [reflexivity |]. intros x Hx _. cbn. rewrite Hx. reflexivity.
  - cbn [insert_by_created_at].
    destruct (String.ltb (Message.created_at m) (Message.created_at y)) eqn:E.
    + assert (Hmy : Crud.created_le m y = true) by (apply ltb_leb, E).
      split.
      * change (Crud.created_le m y && Crud.ordered Crud.created_le (y :: l) = true).
        rewrite Hmy, Hl. reflexivity.
      * intros x Hx _.
        change (Crud.created_le x m && (Crud.created_le m y && Crud.ordered Crud.created_le (y :: l))
                = true).
        rewrite Hx, Hmy, Hl. reflexivity.
    + assert (Hym : Crud.created_le y m = true) by (apply not_ltb_leb, E).
      assert (Hl' : Crud.ordered Crud.created_le l = true).
      { destruct l as [| z l]; [reflexivity |].
        change (Crud.created_le y z && Crud.ordered Crud.created_le (z :: l) = true) in Hl.
        apply andb_prop in Hl. tauto. }
      destruct (IH Hl') as [_ IH2].
      split.
      * apply IH2; assumption.
      * intros x Hx Hxl.
        change (Crud.created_le x y && Crud.ordered Crud.created_le (y :: l) = true) in Hxl.
        apply andb_prop in Hxl. destruct Hxl as [Hxy _].
        change (Crud.created_le x y
                && Crud.ordered Crud.created_le (y :: insert_by_created_at m l) = true).
        rewrite Hxy. cbn [andb]. apply IH2; assumption.
Qed.

Lemma order_by_created_at_ordered (l : list Message.t) :
  Crud.ordered Crud.created_le (order_by_created_at l) = true.
Proof.
  unfold order_by_created_at.
  assert (H : forall acc, Crud.ordered Crud.created_le acc = true ->
              Crud.ordered Crud.created_le
                (fold_left (fun acc m => insert_by_created_at m acc) l acc) = true).
  { induction l as [| m l IH]; intros acc Hacc; [exact Hacc |].
    cbn. apply IH. apply insert_by_created_at_ordered, Hacc. }
  apply H. reflexivity.
Qed.

(** X1.  For a conversation that has a row, the listing answers 200 with
    the rows of [messages] that belong to it, each once, in the order of
    their creation, and changes nothing in the store. *)
Theorem listing_returns_the_thread (d : Database) (id : string) :
  get_conversation d id <> None ->
  exists l,
    exec (get_messages id) d = {| db := d; log := [Respond 200 (MessagesJson l)] |}
    /\ Permutation l (filter (fun m => Message.conversation_id m =? id) (messages d))
    /\ Crud.ordered Crud.created_le l = true.
Proof.
  intros Hc. exists (messages_of d id). split; [| split].
  - unfold exec, get_messages, bind, query. cbn.
    destruct (get_conversation d id); [reflexivity | congruence].
  - apply order_by_created_at_perm.
  - apply order_by_created_at_ordered.
Qed.

Lemma listing_returns_the_thread_witness :
  let d := {| conversations := [Conversation.mk "c1" (JString "t") "t0" "t0"];
              messages := [Message.mk "m2" "c1" Assistant "late" Sent None "t2";
                           Message.mk "m3" "c2" User "other" Sent None "t1";
                           Message.mk "m1" "c1" User "early" Sent None "t1"] |} in
  get_conversation d "c1" <> None
  /\ responses (log (exec (get_messages "c1") d))
     = [(200, MessagesJson [Message.mk "m1" "c1" User "early" Sent None "t1";
                            Message.mk "m2" "c1" Assistant "late" Sent None "t2"])].
Proof.
  intros d.
  assert (H : get_conversation d "c1" <> None) by discriminate.
  destruct (listing_returns_the_thread d "c1" H) as [l [Hl _]].
  split; [exact H |]. reflexivity.
Defined.

(** X2.  The prior turns handed to the Completion Source are the rows of
    the conversation whose status is [sent], each once, in the order of
    their creation: a row that is [sending] or [failed], or that belongs
    to another conversation, gives no turn. *)
Theorem history_is_the_sent_turns (d : Database) (id : string) :
  let rows := messages_with_status d id Sent in
  Permutation rows
    (filter (fun m => (Message.conversation_id m =? id)
                      && Status_eqb (Message.status m) Sent) (messages d))
  /\ Crud.ordered Crud.created_le rows = true
  /\ (forall r c, In (r, c) (history_of rows) ->
                  exists m, In m (messages d)
                            /\ Message.conversation_id m = id
                            /\ Message.status m = Sent
                            /\ Message.role m = r /\ Message.content m = c)
  /\ (forall m, In m (messages d) -> Message.conversation_id m = id ->
                Message.status m = Sent ->
                In (Message.role m, Message.content m) (history_of rows)).
Proof.
  intros rows. subst rows. unfold messages_with_status.
  set (p := fun m => (Message.conversation_id m =? id)
                     && Status_eqb (Message.status m) Sent).
  pose proof (order_by_created_at_perm (filter p (messages d))) as Hperm.
  split; [exact Hperm |]. split; [apply order_by_created_at_ordered |]. split.
  - intros r c Hin. unfold history_of in Hin. apply in_map_iff in Hin.
    destruct Hin as [m [Hm Hin]]. inversion Hm; subst r c.
    apply (Permutation_in _ Hperm) in Hin. apply filter_In in Hin.
    destruct Hin as [Hin Hp]. unfold p in Hp. apply andb_prop in Hp.
    destruct Hp as [Hc Hs]. apply String.eqb_eq in Hc.
    exists m. repeat split; try assumption.
    destruct (Message.status m); try discriminate Hs. reflexivity.
  - intros m Hin Hc Hs. unfold history_of.
    apply (in_map (fun msg => (Message.role msg, Message.content msg))).
    apply (Permutation_in _ (Permutation_sym Hperm)). apply filter_In.
    split; [exact Hin |]. unfold p. rewrite Hc, Hs, String.eqb_refl. reflexivity.
Qed.

End ListingTheory.

(** * What an exchange leaves in the store *)

Module ExchangeTheory.
Import Routes.

Lemma replay_pushes (d : Database) (fr : list string) :
  replay d (map (fun c => Push (EvChunk c)) fr) = d.
Proof. induction fr as [| c fr IH]; [reflexivity | exact IH]. Qed.

(** Without a terminal call, the callbacks write nothing. *)
Lemma replay_without_terminal (a : string) (sigs : list Signal) (d : Database) :
  terminal_count sigs = 0 ->
  replay d (flat_map (signal_effects a) sigs) = d
  /\ done_events (flat_map (signal_effects a) sigs) = []
  /\ error_events (flat_map (signal_effects a) sigs) = []
  /\ ~ In ResEnd (flat_map (signal_effects a) sigs).
Proof.
  induction sigs as [| s rest IH]; intros H.
  - repeat split. intros [].
  - destruct s; try discriminate H.
    + destruct (IH H) as [H1 [H2 [H3 H4]]]. cbn [flat_map signal_effects app].
      repeat split; try assumption.
      intros [E | E]; [discriminate E | exact (H4 E)].
    + destruct (IH H) as [H1 [H2 [H3 H4]]]. cbn [flat_map signal_effects app].
      repeat split; try assumption.
      intros [E | E]; [discriminate E | exact (H4 E)].
Qed.

Lemma opened_rows (d : Database) (u a id text n : string) :
  messages (run (run (run d (InsertMessage u id User text Sent n))
                     (InsertMessage a id Assistant "" Sending n))
                (TouchConversation n id))
  = messages d ++ [Message.mk u id User text Sent None n;
                   Message.mk a id Assistant "" Sending None n].
Proof. cbn. rewrite <- app_assoc. reflexivity. Qed.

(** The rows after an exchange that the source completes. *)
Lemma rows_after_completion (env : Env) (d : Database) (id text : string)
      (fr : list string) (fullText : string) :
  text <> "" ->
  get_conversation d id <> None ->
  session_opens env = true ->
  status_of d (assistantMessageId env) = None ->
  userMessageId env <> assistantMessageId env ->
  signals env text (history_of (messages_with_status d id Sent))
  = map OnChunk fr ++ [OnDone fullText] ->
  messages (db (exec (post_message env id (JString text)) d))
  = messages d
    ++ [Message.mk (userMessageId env) id User text Sent None (now env);
        Message.mk (assistantMessageId env) id Assistant fullText Sent None (now env)].
Proof.
  intros Ht Hc Hs Hfresh Hua Hsig.
  rewrite (RoutesTheory.post_message_opens env d id text Ht Hc Hs), Hsig.
  rewrite RoutesTheory.deliver_chunks. cbn.
  rewrite <- app_assoc. cbn [app].
  apply (RoutesTheory.update_placeholder_only (assistantMessageId env)
           (fun m => Message.set_status Sent (Message.set_content fullText m))).
  - apply RoutesTheory.no_row_with_id, Hfresh.
  - cbn. apply String.eqb_neq, Hua.
  - reflexivity.
Qed.

(** The rows after an exchange in which the source fails. *)
Lemma rows_after_rejection (env : Env) (d : Database) (id text : string)
      (fr : list string) (message : string) :
  text <> "" ->
  get_conversation d id <> None ->
  session_opens env = true ->
  status_of d (assistantMessageId env) = None ->
  userMessageId env <> assistantMessageId env ->
  signals env text (history_of (messages_with_status d id Sent))
  = map OnChunk fr ++ [OnError message] ->
  messages (db (exec (post_message env id (JString text)) d))
  = messages d
    ++ [Message.mk (userMessageId env) id User text Sent None (now env);
        Message.mk (assistantMessageId env) id Assistant "" Failed (Some message)
                   (now env)].
Proof.
  intros Ht Hc Hs Hfresh Hua Hsig.
  rewrite (RoutesTheory.post_message_opens env d id text Ht Hc Hs), Hsig.
  rewrite RoutesTheory.deliver_chunks. cbn.
  rewrite <- app_assoc. cbn [app].
  apply (RoutesTheory.update_placeholder_only (assistantMessageId env)
           (fun m => Message.set_error_message (Some message)
                       (Message.set_status Failed m))).
  - apply RoutesTheory.no_row_with_id, Hfresh.
  - cbn. apply String.eqb_neq, Hua.
  - reflexivity.
Qed.

Lemma history_perm (d : Database) (id : string) :
  Permutation (history_of (messages_with_status d id Sent))
    (history_of (filter (fun m => (Message.conversation_id m =? id)
                                  && Status_eqb (Message.status m) Sent)
                        (messages d))).
Proof.
  unfold history_of. apply Permutation_map.
  apply ListingTheory.order_by_created_at_perm.
Qed.

(** X3.  After an exchange that the source completes, the prior turns of
    the next request on the conversation are, as a collection, those of
    this request together with the user's text and the assistant's full
    text, each once more: nothing is said here of their order, which is
    that of the times of creation. *)
Theorem history_after_completion (env : Env) (d : Database) (id text : string)
        (fr : list string) (fullText : string) :
  text <> "" ->
  get_conversation d id <> None ->
  session_opens env = true ->
  status_of d (assistantMessageId env) = None ->
  userMessageId env <> assistantMessageId env ->
  signals env text (history_of (messages_with_status d id Sent))
  = map OnChunk fr ++ [OnDone fullText] ->
  let d' := db (exec (post_message env id (JString text)) d) in
  Permutation (history_of (messages_with_status d' id Sent))
    (history_of (messages_with_status d id Sent)
       ++ [(User, text); (Assistant, fullText)]).
Proof.
  intros Ht Hc Hs Hfresh Hua Hsig d'. subst d'.
  rewrite history_perm.
  rewrite (rows_after_completion env d id text fr fullText Ht Hc Hs Hfresh Hua Hsig).
  rewrite filter_app. cbn [filter Message.conversation_id Message.status].
  rewrite String.eqb_refl. cbn [andb Status_eqb].
  unfold history_of at 1. rewrite map_app. cbn [map Message.role Message.content].
  apply Permutation_app_tail. symmetry. apply history_perm.
Qed.

Lemma history_after_completion_witness :
  let env := Scenario.request (completion_source Scenario.hi_there) in
  let d := Scenario.fresh_conversation in
  let d' := db (exec (post_message env "c1" (JString "hello")) d) in
  ("hello" <> ""
   /\ get_conversation d "c1" <> None
   /\ session_opens env = true
   /\ status_of d "a1" = None
   /\ "u1" <> "a1"
   /\ signals env "hello" (history_of (messages_with_status d "c1" Sent))
      = map OnChunk ["Hi"; " there"] ++ [OnDone "Hi there"])
  /\ history_of (messages_with_status d' "c1" Sent)
     = [(User, "hello"); (Assistant, "Hi there")]
  /\ Permutation (history_of (messages_with_status d' "c1" Sent))
       (history_of (messages_with_status d "c1" Sent)
          ++ [(User, "hello"); (Assistant, "Hi there")]).
Proof.
  intros env d d'.
  assert (H1 : "hello" <> "") by discriminate.
  assert (H2 : get_conversation d "c1" <> None) by discriminate.
  assert (H3 : session_opens env = true) by reflexivity.
  assert (H4 : status_of d (assistantMessageId env) = None) by reflexivity.
  assert (H5 : userMessageId env <> assistantMessageId env) by discriminate.
  assert (H6 : signals env "hello" (history_of (messages_with_status d "c1" Sent))
               = map OnChunk ["Hi"; " there"] ++ [OnDone "Hi there"]) by reflexivity.
  pose proof (history_after_completion env d "c1" "hello" ["Hi"; " there"] "Hi there"
                H1 H2 H3 H4 H5 H6) as H.
  split; [repeat split; assumption |]. split; [reflexivity | exact H].
Defined.

(** X4.  After an exchange in which the source fails, the prior turns of
    the next request on the conversation are those of this request and
    the user's text: the user message stays [sent] and is part of the
    history, the failed placeholder gives no turn. *)
Theorem history_after_rejection (env : Env) (d : Database) (id text : string)
        (fr : list string) (message : string) :
  text <> "" ->
  get_conversation d id <> None ->
  session_opens env = true ->
  status_of d (assistantMessageId env) = None ->
  userMessageId env <> assistantMessageId env ->
  signals env text (history_of (messages_with_status d id Sent))
  = map OnChunk fr ++ [OnError message] ->
  let d' := db (exec (post_message env id (JString text)) d) in
  Permutation (history_of (messages_with_status d' id Sent))
    (history_of (messages_with_status d id Sent) ++ [(User, text)]).
Proof.
  intros Ht Hc Hs Hfresh Hua Hsig d'. subst d'.
  rewrite history_perm.
  rewrite (rows_after_rejection env d id text fr message Ht Hc Hs Hfresh Hua Hsig).
  rewrite filter_app. cbn [filter Message.conversation_id Message.status].
  rewrite String.eqb_refl. cbn [andb Status_eqb].
  unfold history_of at 1. rewrite map_app. cbn [map Message.role Message.content].
  apply Permutation_app_tail. symmetry. apply history_perm.
Qed.

Lemma history_after_rejection_witness :
  let env := Scenario.request (Scenario.rejects_after_one "boom") in
  let d := Scenario.fresh_conversation in
  let d' := db (exec (post_message env "c1" (JString "hello")) d) in
  ("hello" <> ""
   /\ get_conversation d "c1" <> None
   /\ session_opens env = true
   /\ status_of d "a1" = None
   /\ "u1" <> "a1"
   /\ signals env "hello" (history_of (messages_with_status d "c1" Sent))
      = map OnChunk ["Hi"] ++ [OnError "boom"])
  /\ history_of (messages_with_status d' "c1" Sent) = [(User, "hello")].
Proof.
  intros env d d'.
  assert (H1 : "hello" <> "") by discriminate.
  assert (H2 : get_conversation d "c1" <> None) by discriminate.
  assert (H3 : session_opens env = true) by reflexivity.
  assert (H4 : status_of d (assistantMessageId env) = None) by reflexivity.
  assert (H5 : userMessageId env <> assistantMessageId env) by discriminate.
  assert (H6 : signals env "hello" (history_of (messages_with_status d "c1" Sent))
               = map OnChunk ["Hi"] ++ [OnError "boom"]) by reflexivity.
  pose proof (history_after_rejection env d "c1" "hello" ["Hi"] "boom"
                H1 H2 H3 H4 H5 H6) as H.
  split; [repeat split; assumption |].
  apply Permutation_length_1_inv. symmetry. exact H.
Defined.

(** ** The paths that end without a terminal event *)

(** X5.  When [createSession] throws, the request is answered with 500 and
    no event is pushed, but the writes made before are not undone: the
    user message and a placeholder that stays [sending] are in the store,
    and a later listing of the conversation shows both. *)
Theorem session_failure_keeps_the_rows (env : Env) (d : Database) (id text : string) :
  text <> "" ->
  get_conversation d id <> None ->
  session_opens env = false ->
  let w := exec (post_message env id (JString text)) d in
  let userRow := Message.mk (userMessageId env) id User text Sent None (now env) in
  let placeholder :=
    Message.mk (assistantMessageId env) id Assistant "" Sending None (now env) in
  responses (log w) = [(500, ErrorJson "Failed to process message")]
  /\ chunk_payloads (log w) = []
  /\ done_events (log w) = []
  /\ error_events (log w) = []
  /\ messages (db w) = messages d ++ [userRow; placeholder]
  /\ In userRow (messages_of (db w) id)
  /\ In placeholder (messages_of (db w) id).
Proof.
  intros Ht Hc Hs w userRow placeholder. subst w.
  rewrite (RoutesTheory.post_message_500 env d id text Ht Hc Hs). cbn [log db].
  rewrite opened_rows. fold userRow placeholder.
  repeat split.
  - unfold messages_of.
    apply (Permutation_in _ (Permutation_sym (ListingTheory.order_by_created_at_perm _))).
    apply filter_In. split.
    + rewrite opened_rows. apply in_or_app. right. left. reflexivity.
    + cbn. apply String.eqb_refl.
  - unfold messages_of.
    apply (Permutation_in _ (Permutation_sym (ListingTheory.order_by_created_at_perm _))).
    apply filter_In. split.
    + rewrite opened_rows. apply in_or_app. right. right. left. reflexivity.
    + cbn. apply String.eqb_refl.
Qed.

Lemma session_failure_keeps_the_rows_witness :
  let env := {| userMessageId := "u1"; assistantMessageId := "a1"; now := "t1";
                session_opens := false; signals := fun _ _ => [] |} in
  let d := Scenario.fresh_conversation in
  let w := exec (post_message env "c1" (JString "hello")) d in
  ("hello" <> "" /\ get_conversation d "c1" <> None /\ session_opens env = false)
  /\ responses (log w) = [(500, ErrorJson "Failed to process message")]
  /\ messages (db w) = [Message.mk "u1" "c1" User "hello" Sent None "t1";
                        Message.mk "a1" "c1" Assistant "" Sending None "t1"].
Proof.
  intros env d w.
  assert (H1 : "hello" <> "") by discriminate.
  assert (H2 : get_conversation d "c1" <> None) by discriminate.
  assert (H3 : session_opens env = false) by reflexivity.
  destruct (session_failure_keeps_the_rows env d "c1" "hello" H1 H2 H3)
    as [Hr [_ [_ [_ [Hm _]]]]].
  split; [repeat split; assumption |]. split; [exact Hr | exact Hm].
Defined.

Lemma cancels_counted (a : string) (sigs : list Signal) :
  length (filter (fun e => match e with Cancel => true | _ => false end)
                 (flat_map (signal_effects a) sigs))
  = length (filter (fun s => match s with Disconnected => true | _ => false end) sigs).
Proof.
  induction sigs as [| s rest IH]; [reflexivity |].
  destruct s; cbn [flat_map signal_effects app filter length]; rewrite IH; reflexivity.
Qed.

(** X6.  When the source makes no terminal call (the client left and the
    stream was cancelled), no done or error event is pushed and the
    response is not ended by the handler; the placeholder stays in the
    store as it was inserted, [sending] and empty; and [cancelStream] is
    called once for each notification of the disconnection. *)
Theorem disconnect_leaves_placeholder_sending
        (env : Env) (d : Database) (id text : string) :
  text <> "" ->
  get_conversation d id <> None ->
  session_opens env = true ->
  terminal_count (signals env text (history_of (messages_with_status d id Sent))) = 0 ->
  let w := exec (post_message env id (JString text)) d in
  messages (db w)
  = messages d
    ++ [Message.mk (userMessageId env) id User text Sent None (now env);
        Message.mk (assistantMessageId env) id Assistant "" Sending None (now env)]
  /\ done_events (log w) = []
  /\ error_events (log w) = []
  /\ ~ In ResEnd (log w)
  /\ length (filter (fun e => match e with Cancel => true | _ => false end) (log w))
     = length (filter (fun s => match s with Disconnected => true | _ => false end)
                      (signals env text (history_of (messages_with_status d id Sent)))).
Proof.
  intros Ht Hc Hs Hterm w. subst w.
  rewrite (RoutesTheory.post_message_opens env d id text Ht Hc Hs),
    RoutesTheory.deliver_effects.
  cbn [db log].
  destruct (replay_without_terminal (assistantMessageId env) _
              (run (run (run d
                 (InsertMessage (userMessageId env) id User text Sent (now env)))
                 (InsertMessage (assistantMessageId env) id Assistant "" Sending (now env)))
                 (TouchConversation (now env) id)) Hterm) as [H1 [H2 [H3 H4]]].
  rewrite H1, opened_rows.
  split; [reflexivity |].
  split; [rewrite RoutesTheory.done_events_app, H2; reflexivity |].
  split; [rewrite RoutesTheory.error_events_app, H3; reflexivity |].
  split.
  - intros Hin. apply in_app_or in Hin. destruct Hin as [Hin | Hin]; [| exact (H4 Hin)].
    cbn in Hin. repeat (destruct Hin as [Hin | Hin]; [discriminate |]). exact Hin.
  - rewrite filter_app, length_app, cancels_counted. reflexivity.
Qed.

Lemma disconnect_leaves_placeholder_sending_witness :
  let env := Scenario.request [OnChunk "Hi"; Disconnected] in
  let d := Scenario.fresh_conversation in
  let w := exec (post_message env "c1" (JString "hello")) d in
  ("hello" <> ""
   /\ get_conversation d "c1" <> None
   /\ session_opens env = true
   /\ terminal_count (signals env "hello" (history_of (messages_with_status d "c1" Sent)))
      = 0)
  /\ log w = [Sql (InsertMessage "u1" "c1" User "hello" Sent "t1");
              Sql (InsertMessage "a1" "c1" Assistant "" Sending "t1");
              Sql (TouchConversation "t1" "c1");
              CreateSession; Push (EvChunk "Hi"); Cancel]
  /\ messages (db w) = [Message.mk "u1" "c1" User "hello" Sent None "t1";
                        Message.mk "a1" "c1" Assistant "" Sending None "t1"].
Proof.
  intros env d w.
  assert (H1 : "hello" <> "") by discriminate.
  assert (H2 : get_conversation d "c1" <> None) by discriminate.
  assert (H3 : session_opens env = true) by reflexivity.
  assert (H4 : terminal_count
                 (signals env "hello" (history_of (messages_with_status d "c1" Sent)))
               = 0) by reflexivity.
  destruct (disconnect_leaves_placeholder_sending env d "c1" "hello" H1 H2 H3 H4)
    as [Hm _].
  split; [repeat split; assumption |]. split; [reflexivity | exact Hm].
Defined.

(** ** The conversation of an exchange *)

Lemma find_update_conversations (x i : string) (f : Conversation.t -> Conversation.t)
      (rows : list Conversation.t) :
  (forall c, Conversation.id (f c) = Conversation.id c) ->
  find (fun c => Conversation.id c =? x)
       (update_where (fun c => Conversation.id c =? i) f rows)
  = option_map (fun c => if Conversation.id c =? i then f c else c)
               (find (fun c => Conversation.id c =? x) rows).
Proof.
  intros Hid. unfold update_where.
  induction rows as [| r rows IH]; cbn; [reflexivity |].
  destruct (Conversation.id r =? i) eqn:Ei.
  - rewrite Hid. destruct (Conversation.id r =? x); cbn; [now rewrite Ei | exact IH].
  - destruct (Conversation.id r =? x); cbn; [now rewrite Ei | exact IH].
Qed.

Lemma callbacks_keep_conversations (a : string) (sigs : list Signal) :
  forall d, conversations (replay d (flat_map (signal_effects a) sigs)) = conversations d.
Proof.
  induction sigs as [| s rest IH]; intros d; [reflexivity |].
  destruct s; cbn [flat_map signal_effects app].
  - apply (IH d).
  - change (conversations
              (replay (run d (UpdateStatusError Failed message a))
                      (flat_map (signal_effects a) rest)) = conversations d).
    rewrite IH. reflexivity.
  - change (conversations
              (replay (run d (UpdateContentStatus fullText Sent a))
                      (flat_map (signal_effects a) rest)) = conversations d).
    rewrite IH. reflexivity.
  - apply (IH d).
Qed.

(** The table of conversations after a request that got past the lookup. *)
Lemma conversations_after_request (env : Env) (d : Database) (id text : string) :
  text <> "" ->
  get_conversation d id <> None ->
  conversations (db (exec (post_message env id (JString text)) d))
  = update_where (fun c => Conversation.id c =? id)
                 (Conversation.set_updated_at (now env)) (conversations d).
Proof.
  intros Ht Hc. destruct (session_opens env) eqn:Hs.
  - rewrite (RoutesTheory.post_message_opens env d id text Ht Hc Hs),
      RoutesTheory.deliver_effects.
    cbn [db]. rewrite callbacks_keep_conversations. reflexivity.
  - rewrite (RoutesTheory.post_message_500 env d id text Ht Hc Hs). reflexivity.
Qed.

(** X7.  A request to the send endpoint that gets past the lookup sets the
    last-update time of its conversation to the time of the request and
    leaves its other fields, and every other conversation, as they were,
    whatever the source does afterwards. *)
Theorem exchange_bumps_the_conversation
        (env : Env) (d : Database) (id text : string) (c : Conversation.t) :
  text <> "" ->
  get_conversation d id = Some c ->
  let d' := db (exec (post_message env id (JString text)) d) in
  get_conversation d' id
  = Some (Conversation.mk (Conversation.id c) (Conversation.title c)
                          (Conversation.created_at c) (now env))
  /\ forall other, other <> id -> get_conversation d' other = get_conversation d other.
Proof.
  intros Ht Hc d'. subst d'.
  assert (Hc' : get_conversation d id <> None) by congruence.
  unfold get_conversation in *.
  rewrite (conversations_after_request env d id text Ht Hc').
  split.
  - rewrite find_update_conversations by reflexivity. rewrite Hc. cbn.
    apply find_some in Hc. destruct Hc as [_ Hid]. rewrite Hid. reflexivity.
  - intros other Hne. rewrite find_update_conversations by reflexivity.
    destruct (find (fun c0 => Conversation.id c0 =? other) (conversations d))
      as [c0 |] eqn:Hf; [| reflexivity].
    cbn. apply find_some in Hf. destruct Hf as [_ Hid].
    apply String.eqb_eq in Hid. rewrite Hid.
    apply String.eqb_neq in Hne. rewrite Hne. reflexivity.
Qed.

Lemma exchange_bumps_the_conversation_witness :
  let env := Scenario.request (Scenario.rejects_after_one "boom") in
  let d := Scenario.fresh_conversation in
  let d' := db (exec (post_message env "c1" (JString "hello")) d) in
  ("hello" <> ""
   /\ get_conversation d "c1" = Some (Conversation.mk "c1" (JString "New Chat") "t0" "t0"))
  /\ get_conversation d' "c1" = Some (Conversation.mk "c1" (JString "New Chat") "t0" "t1").
Proof.
  intros env d d'.
  assert (H1 : "hello" <> "") by discriminate.
  assert (H2 : get_conversation d "c1"
               = Some (Conversation.mk "c1" (JString "New Chat") "t0" "t0"))
    by reflexivity.
  destruct (exchange_bumps_the_conversation env d "c1" "hello" _ H1 H2) as [H _].
  split; [split; assumption | exact H].
Defined.

End ExchangeTheory.

(** * The routes of the conversations *)

Module CrudTheory.
Import Routes Crud.

(** ** Conversations, the latest first *)

Lemma insert_by_updated_at_perm (c : Conversation.t) (l : list Conversation.t) :
  Permutation (insert_by_updated_at c l) (c :: l).
Proof.
  induction l as [| x l IH]; cbn; [reflexivity |].
  destruct (String.ltb (Conversation.updated_at x) (Conversation.updated_at c));
    [reflexivity |].
  rewrite IH. apply perm_swap.
Qed.

Lemma order_by_updated_at_desc_perm (l : list Conversation.t) :
  Permutation (order_by_updated_at_desc l) l.
Proof.
  unfold order_by_updated_at_desc.
  assert (H : forall acc,
             Permutation (fold_left (fun acc c => insert_by_updated_at c acc) l acc)
                         (acc ++ l)).
  { induction l as [| c l IH]; intros acc; cbn.
    - rewrite app_nil_r. reflexivity.
    - rewrite IH, insert_by_updated_at_perm. apply Permutation_middle. }
  apply (H []).
Qed.

Lemma insert_by_updated_at_ordered (c : Conversation.t) (l : list Conversation.t) :
  ordered updated_ge l = true ->
  ordered updated_ge (insert_by_updated_at c l) = true
  /\ forall x, updated_ge x c = true ->
               ordered updated_ge (x :: l) = true ->
               ordered updated_ge (x :: insert_by_updated_at c l) = true.
Proof.
  induction l as [| y l IH]; intros Hl.
  - split; [reflexivity |]. intros x Hx _. cbn. rewrite Hx. reflexivity.
  - cbn [insert_by_updated_at].
    destruct (String.ltb (Conversation.updated_at y) (Conversation.updated_at c)) eqn:E.
    + assert (Hcy : updated_ge c y = true) by (apply ListingTheory.ltb_leb, E).
      split.
      * change (updated_ge c y && ordered updated_ge (y :: l) = true).
        rewrite Hcy, Hl. reflexivity.
      * intros x Hx _.
        change (updated_ge x c && (updated_ge c y && ordered updated_ge (y :: l)) = true).
        rewrite Hx, Hcy, Hl. reflexivity.
    + assert (Hyc : updated_ge y c = true) by (apply ListingTheory.not_ltb_leb, E).
      assert (Hl' : ordered updated_ge l = true).
      { destruct l as [| z l]; [reflexivity |].
        change (updated_ge y z && ordered updated_ge (z :: l) = true) in Hl.
        apply andb_prop in Hl. tauto. }
      destruct (IH Hl') as [_ IH2].
      split.
      * apply IH2; assumption.
      * intros x Hx Hxl.
        change (updated_ge x y && ordered updated_ge (y :: l) = true) in Hxl.
        apply andb_prop in Hxl. destruct Hxl as [Hxy _].
        change (updated_ge x y
                && ordered updated_ge (y :: insert_by_updated_at c l) = true).
        rewrite Hxy. cbn [andb]. apply IH2; assumption.
Qed.

Lemma order_by_updated_at_desc_ordered (l : list Conversation.t) :
  ordered updated_ge (order_by_updated_at_desc l) = true.
Proof.
  unfold order_by_updated_at_desc.
  assert (H : forall acc, ordered updated_ge acc = true ->
              ordered updated_ge
                (fold_left (fun acc c => insert_by_updated_at c acc) l acc) = true).
  { induction l as [| c l IH]; intros acc Hacc; [exact Hacc |].
    cbn. apply IH. apply insert_by_updated_at_ordered, Hacc. }
  apply H. reflexivity.
Qed.

(** X8.  GET / answers 200 with every conversation of the table, each
    once, the most recently updated first, and changes nothing in the
    store. *)
Theorem conversations_listed_latest_first (d : Database) :
  exists l,
    get_conversations d = (d, (200, ConversationsBody l))
    /\ Permutation l (conversations d)
    /\ ordered updated_ge l = true.
Proof.
  exists (order_by_updated_at_desc (conversations d)).
  split; [reflexivity |].
  split; [apply order_by_updated_at_desc_perm | apply order_by_updated_at_desc_ordered].
Qed.

(** The head of the listing is a row updated at [n], when there is such a
    row and every other row was updated before [n]. *)
Lemma latest_is_first (n : string) (l : list Conversation.t) :
  (forall c, In c l ->
             Conversation.updated_at c = n
             \/ String.ltb (Conversation.updated_at c) n = true) ->
  (exists c, In c l /\ Conversation.updated_at c = n) ->
  exists c rest, order_by_updated_at_desc l = c :: rest /\ Conversation.updated_at c = n.
Proof.
  unfold order_by_updated_at_desc.
  assert (Hins : forall c acc,
             (Conversation.updated_at c = n
              \/ String.ltb (Conversation.updated_at c) n = true) ->
             (forall x, In x acc ->
                        Conversation.updated_at x = n
                        \/ String.ltb (Conversation.updated_at x) n = true) ->
             ((exists x, In x acc /\ Conversation.updated_at x = n) ->
              exists h t, acc = h :: t /\ Conversation.updated_at h = n) ->
             ((exists x, In x (c :: acc) /\ Conversation.updated_at x = n) ->
              exists h t, insert_by_updated_at c acc = h :: t
                          /\ Conversation.updated_at h = n)).
  { intros c acc Hc Hall Hinv Hex.
    destruct acc as [| y acc]; cbn [insert_by_updated_at].
    - destruct Hex as [x [[<- | []] Hx]]. eauto.
    - destruct (String.ltb (Conversation.updated_at y) (Conversation.updated_at c)) eqn:E.
      + destruct Hc as [Hc | Hc]; [eauto |].
        (* c is older than n: then y, older than c, is not at n, nor is
           any row behind it *)
        exfalso.
        assert (Hy : exists x, In x (y :: acc) /\ Conversation.updated_at x = n).
        { destruct Hex as [x [[<- | Hin] Hx]]; [| eauto].
          rewrite Hx in Hc. rewrite ListingTheory.ltb_irrefl in Hc. discriminate. }
        destruct (Hinv Hy) as [h [t [Eh Hh]]]. inversion Eh; subst h t.
        rewrite Hh in E. apply ListingTheory.ltb_asym in E. congruence.
      + destruct (Hall y (or_introl eq_refl)) as [Hy | Hy]; [eauto |].
        destruct Hc as [Hc | Hc].
        * rewrite Hc, Hy in E. discriminate.
        * assert (Hy' : exists x, In x (y :: acc) /\ Conversation.updated_at x = n).
          { destruct Hex as [x [[<- | Hin] Hx]]; [| eauto].
            rewrite Hx in Hc. rewrite ListingTheory.ltb_irrefl in Hc. discriminate. }
          destruct (Hinv Hy') as [h [t [Eh Hh]]]. inversion Eh; subst h t.
          rewrite Hh in Hy. rewrite ListingTheory.ltb_irrefl in Hy. discriminate. }
  assert (H : forall l acc,
             (forall c, In c l ->
                        Conversation.updated_at c = n
                        \/ String.ltb (Conversation.updated_at c) n = true) ->
             (forall x, In x acc ->
                        Conversation.updated_at x = n
                        \/ String.ltb (Conversation.updated_at x) n = true) ->
             ((exists x, In x acc /\ Conversation.updated_at x = n) ->
              exists h t, acc = h :: t /\ Conversation.updated_at h = n) ->
             (exists x, In x (acc ++ l) /\ Conversation.updated_at x = n) ->
             exists h t, fold_left (fun acc c => insert_by_updated_at c acc) l acc = h :: t
                         /\ Conversation.updated_at h = n).
  { clear l. induction l as [| c l IH]; intros acc Hl Hall Hinv Hex.
    - rewrite app_nil_r in Hex. exact (Hinv Hex).
    - cbn [fold_left]. apply IH.
      + intros x Hx. apply Hl. right. exact Hx.
      + intros x Hx.
        apply (Permutation_in _ (insert_by_updated_at_perm c acc)) in Hx.
        destruct Hx as [<- | Hx]; [apply Hl; left; reflexivity | apply Hall, Hx].
      + intros [x [Hx Hn]]. apply Hins; try assumption.
        * apply Hl. left. reflexivity.
        * exists x. split; [| exact Hn].
          apply (Permutation_in _ (insert_by_updated_at_perm c acc)), Hx.
      + destruct Hex as [x [Hx Hn]]. exists x. split; [| exact Hn].
        apply in_app_or in Hx. apply in_or_app.
        destruct Hx as [Hx | [<- | Hx]].
        * left. apply (Permutation_in _ (Permutation_sym (insert_by_updated_at_perm c acc))).
          right. exact Hx.
        * left. apply (Permutation_in _ (Permutation_sym (insert_by_updated_at_perm c acc))).
          left. reflexivity.
        * right. exact Hx. }
  intros Hall Hex. apply (H l []).
  - exact Hall.
  - intros x [].
  - intros [x [[] _]].
  - exact Hex.
Qed.

(** X9.  Once a request to the send endpoint got past the lookup, at a
    time later than every last-update time of the table, GET / lists the
    conversation of the request first. *)
Theorem touched_conversation_lists_first
        (env : Env) (d : Database) (id text : string) :
  text <> "" ->
  get_conversation d id <> None ->
  (forall c, In c (conversations d) ->
             String.ltb (Conversation.updated_at c) (now env) = true) ->
  let d' := db (exec (post_message env id (JString text)) d) in
  exists c rest,
    get_conversations d' = (d', (200, ConversationsBody (c :: rest)))
    /\ Conversation.id c = id
    /\ Conversation.updated_at c = now env.
Proof.
  intros Ht Hc Hold d'. subst d'. unfold get_conversations.
  set (d' := db (exec (post_message env id (JString text)) d)).
  assert (Hconv : conversations d'
                  = update_where (fun c => Conversation.id c =? id)
                                 (Conversation.set_updated_at (now env)) (conversations d)).
  { apply ExchangeTheory.conversations_after_request; assumption. }
  assert (Hrows : forall c, In c (conversations d') ->
            (Conversation.updated_at c = now env /\ Conversation.id c = id)
            \/ String.ltb (Conversation.updated_at c) (now env) = true).
  { intros c Hin. rewrite Hconv in Hin. unfold update_where in Hin.
    apply in_map_iff in Hin. destruct Hin as [c0 [Hc0 Hin]].
    destruct (Conversation.id c0 =? id) eqn:E.
    - left. subst c. cbn. apply String.eqb_eq in E. auto.
    - right. subst c. apply Hold, Hin. }
  destruct (latest_is_first (now env) (conversations d')) as [c [rest [Hl Hn]]].
  - intros c Hin. destruct (Hrows c Hin) as [[H _] | H]; auto.
  - unfold get_conversation in Hc.
    destruct (find (fun c => Conversation.id c =? id) (conversations d)) as [c |] eqn:Hf;
      [| congruence].
    apply find_some in Hf. destruct Hf as [Hin Hid].
    exists (Conversation.set_updated_at (now env) c). split; [| reflexivity].
    rewrite Hconv. unfold update_where.
    apply in_map_iff. exists c. rewrite Hid. auto.
  - exists c, rest. rewrite Hl. split; [reflexivity |]. split; [| exact Hn].
    assert (Hin : In c (conversations d')).
    { apply (Permutation_in _ (order_by_updated_at_desc_perm (conversations d'))).
      rewrite Hl. left. reflexivity. }
    destruct (Hrows c Hin) as [[_ H] | H]; [exact H |].
    rewrite Hn, ListingTheory.ltb_irrefl in H. discriminate.
Qed.

Lemma touched_conversation_lists_first_witness :
  let env := Scenario.request (completion_source Scenario.hi_there) in
  let d := {| conversations := [Conversation.mk "c0" (JString "old") "s0" "s9";
                                Conversation.mk "c1" (JString "New Chat") "s1" "s1"];
              messages := [] |} in
  let d' := db (exec (post_message env "c1" (JString "hello")) d) in
  ("hello" <> ""
   /\ get_conversation d "c1" <> None
   /\ forall c, In c (conversations d) ->
                String.ltb (Conversation.updated_at c) (now env) = true)
  /\ snd (get_conversations d)
     = (200, ConversationsBody [Conversation.mk "c0" (JString "old") "s0" "s9";
                                Conversation.mk "c1" (JString "New Chat") "s1" "s1"])
  /\ snd (get_conversations d')
     = (200, ConversationsBody [Conversation.mk "c1" (JString "New Chat") "s1" "t1";
                                Conversation.mk "c0" (JString "old") "s0" "s9"]).
Proof.
  intros env d d'.
  assert (H1 : "hello" <> "") by discriminate.
  assert (H2 : get_conversation d "c1" <> None) by discriminate.
  assert (H3 : forall c, In c (conversations d) ->
                         String.ltb (Conversation.updated_at c) (now env) = true).
  { intros c [<- | [<- | []]]; reflexivity. }
  destruct (touched_conversation_lists_first env d "c1" "hello" H1 H2 H3)
    as [c [rest [_ _]]].
  split; [repeat split; assumption |]. split; reflexivity.
Defined.

(** ** Creating, renaming, deleting *)

Lemma find_other_last (rows : list Conversation.t) (c : Conversation.t) (other : string) :
  other <> Conversation.id c ->
  find (fun x => Conversation.id x =? other) (rows ++ [c])
  = find (fun x => Conversation.id x =? other) rows.
Proof.
  intros Hne. rewrite RoutesTheory.find_snoc.
  apply not_eq_sym in Hne. apply String.eqb_neq in Hne. rewrite Hne.
  destruct (find _ rows); reflexivity.
Qed.

(** A title that is falsy or a string is bound: as 'New Chat', or as it
    is. *)
Lemma title_is_bound (title : JsValue) :
  truthy title = false \/ typeof title = "string" ->
  binds (js_or title (JString "New Chat")) = true.
Proof.
  intros [H | H]; unfold js_or.
  - rewrite H. reflexivity.
  - destruct title; try discriminate H. destruct (truthy (JString s)); reflexivity.
Qed.

(** X10.  A conversation created by POST / under a new identifier, with
    a title that is a string or is falsy, is answered with 201 and is
    then found by GET /:id, with the title given, or 'New Chat' for a
    falsy one, and both times set to the time of the request; GET / lists
    it; the conversations that were there are found as before and no
    message is touched.  A title that is the boolean [true] is refused
    when it is bound: the answer is 500 and nothing is written. *)
Theorem created_conversation_is_found
        (d : Database) (id now : string) (title : JsValue) :
  truthy title = false \/ typeof title = "string" ->
  get_conversation d id = None ->
  let d' := db (exec (post_conversation id now title) d) in
  let created := Conversation.mk id (js_or title (JString "New Chat")) now now in
  responses (log (exec (post_conversation id now title) d))
  = [(201, ConversationJson (Some created))]
  /\ get_conversation_by_id id d' = (d', (200, ConversationBody (Some created)))
  /\ (exists l, get_conversations d' = (d', (200, ConversationsBody l)) /\ In created l)
  /\ (forall other, other <> id -> get_conversation d' other = get_conversation d other)
  /\ messages d' = messages d
  /\ exec (post_conversation id now (JBool true)) d
     = {| db := d; log := [Respond 500 (ErrorJson "Failed to create conversation")] |}.
Proof.
  intros Htitle Hfresh d' created. subst d'.
  unfold exec, post_conversation. cbv zeta. rewrite (title_is_bound title Htitle).
  unfold bind, sql, query, respond, emit. cbn [snd fst db log].
  unfold get_conversation_by_id, get_conversation. cbn [conversations run messages].
  fold created.
  pose proof (RoutesTheory.find_fresh_last (conversations d) created Hfresh) as Hfind.
  cbn [Conversation.id created] in Hfind.
  split; [| split; [| split; [| split; [| split]]]].
  - unfold created in Hfind |- *. cbn in Hfind |- *. rewrite Hfind. reflexivity.
  - unfold created in Hfind |- *. cbn in Hfind |- *. rewrite Hfind. reflexivity.
  - eexists. split; [reflexivity |].
    apply (Permutation_in _ (Permutation_sym (order_by_updated_at_desc_perm _))).
    cbn. apply in_or_app. right. left. reflexivity.
  - intros other Hne. cbn. apply (find_other_last (conversations d) created other Hne).
  - reflexivity.
  - destruct d; reflexivity.
Qed.

Lemma created_conversation_is_found_witness :
  let d := Scenario.fresh_conversation in
  let d' := db (exec (post_conversation "c2" "t2" (JString "Plans")) d) in
  ((truthy (JString "Plans") = false \/ typeof (JString "Plans") = "string")
   /\ get_conversation d "c2" = None)
  /\ snd (get_conversation_by_id "c2" d')
     = (200, ConversationBody (Some (Conversation.mk "c2" (JString "Plans") "t2" "t2")))
  /\ get_conversation d' "c1" = get_conversation d "c1"
  /\ db (exec (post_conversation "c2" "t2" (JBool true)) d) = d.
Proof.
  intros d d'.
  assert (H0 : truthy (JString "Plans") = false \/ typeof (JString "Plans") = "string")
    by (right; reflexivity).
  assert (H : get_conversation d "c2" = None) by reflexivity.
  destruct (created_conversation_is_found d "c2" "t2" (JString "Plans") H0 H)
    as [_ [Hget [_ [Hother [_ Hrefused]]]]].
  split; [split; assumption |]. split; [| split].
  - change d' with (db (exec (post_conversation "c2" "t2" (JString "Plans")) d)).
    rewrite Hget. reflexivity.
  - apply Hother. discriminate.
  - rewrite Hrefused. reflexivity.
Defined.

Lemma filter_none {A} (p : A -> bool) (l : list A) :
  (forall x, In x l -> p x = false) -> filter p l = [].
Proof.
  intros H. induction l as [| x l IH]; [reflexivity |].
  cbn. rewrite (H x (or_introl eq_refl)). apply IH.
  intros y Hy. apply H. right. exact Hy.
Qed.

Lemma no_match_no_row (d : Database) (id : string) :
  get_conversation d id = None ->
  filter (fun c => Conversation.id c =? id) (conversations d) = []
  /\ forall c, In c (conversations d) -> (Conversation.id c =? id) = false.
Proof.
  unfold get_conversation. intros H.
  assert (Hall : forall c, In c (conversations d) -> (Conversation.id c =? id) = false).
  { intros c Hin. exact (find_none _ _ H c Hin). }
  split; [| exact Hall].
  apply filter_none, Hall.
Qed.

Lemma match_has_row (d : Database) (id : string) (c : Conversation.t) :
  get_conversation d id = Some c ->
  Nat.eqb (length (filter (fun c => Conversation.id c =? id) (conversations d))) 0 = false.
Proof.
  unfold get_conversation. intros H. apply find_some in H. destruct H as [Hin Hid].
  destruct (filter (fun c => Conversation.id c =? id) (conversations d)) as [| x l] eqn:Hf;
    [| reflexivity].
  assert (Hin' : In c (filter (fun c => Conversation.id c =? id) (conversations d))).
  { apply filter_In. auto. }
  rewrite Hf in Hin'. destruct Hin'.
Qed.

Lemma filter_all {A} (p : A -> bool) (l : list A) :
  (forall x, In x l -> p x = true) -> filter p l = l.
Proof.
  intros H. induction l as [| x l IH]; [reflexivity |].
  cbn. rewrite (H x (or_introl eq_refl)). f_equal. apply IH.
  intros y Hy. apply H. right. exact Hy.
Qed.

(** X11.  PATCH /:id for an identifier without a row answers 404 and
    leaves the store as it was, for a title that is bound (a string, a
    number, or NULL for a title that is null or missing).  A title that
    is a boolean is refused when it is bound, before the number of
    changes is read: the answer is 500, not 404, and the store is left as
    it was. *)
Theorem patch_of_unknown_conversation
        (d : Database) (now id : string) (title : JsValue) :
  binds title = true ->
  get_conversation d id = None ->
  patch_conversation now id title d = (d, (404, ErrorBody "Conversation not found"))
  /\ forall b,
      patch_conversation now id (JBool b) d
      = (d, (500, ErrorBody "Failed to update conversation")).
Proof.
  intros Hb H. split; [| reflexivity].
  destruct (no_match_no_row d id H) as [Hf Hall].
  unfold patch_conversation, update_title. rewrite Hb, Hf. cbn.
  rewrite RoutesTheory.update_where_none by exact Hall.
  destruct d; reflexivity.
Qed.

Lemma patch_of_unknown_conversation_witness :
  (binds (JString "Plans") = true
   /\ get_conversation Scenario.fresh_conversation "c9" = None)
  /\ patch_conversation "t2" "c9" (JString "Plans") Scenario.fresh_conversation
     = (Scenario.fresh_conversation, (404, ErrorBody "Conversation not found"))
  /\ patch_conversation "t2" "c9" (JBool true) Scenario.fresh_conversation
     = (Scenario.fresh_conversation, (500, ErrorBody "Failed to update conversation")).
Proof.
  assert (H0 : binds (JString "Plans") = true) by reflexivity.
  assert (H : get_conversation Scenario.fresh_conversation "c9" = None) by reflexivity.
  destruct (patch_of_unknown_conversation Scenario.fresh_conversation "t2" "c9"
              (JString "Plans") H0 H) as [H404 H500].
  split; [split; assumption |]. split; [exact H404 | exact (H500 true)].
Defined.

(** X12.  PATCH /:id with a title that is a string, for a conversation
    that has a row, answers 200 with the conversation under its new
    title, its last-update time set to the time of the request and its
    creation time kept; GET /:id then answers with the same record; the
    other conversations and all messages stay as they were.  With a title
    that is a boolean the answer is 500 and the store, the conversation
    with it, is left as it was. *)
Theorem patch_renames_the_conversation
        (d : Database) (now id title : string) (c : Conversation.t) :
  get_conversation d id = Some c ->
  let d' := fst (patch_conversation now id (JString title) d) in
  let renamed := Conversation.mk id (JString title) (Conversation.created_at c) now in
  snd (patch_conversation now id (JString title) d)
  = (200, ConversationBody (Some renamed))
  /\ get_conversation_by_id id d' = (d', (200, ConversationBody (Some renamed)))
  /\ (forall other, other <> id -> get_conversation d' other = get_conversation d other)
  /\ messages d' = messages d
  /\ forall b,
      patch_conversation now id (JBool b) d
      = (d, (500, ErrorBody "Failed to update conversation")).
Proof.
  intros Hc d' renamed. subst d'.
  unfold patch_conversation, update_title. cbn [binds].
  rewrite (match_has_row d id c Hc).
  cbn [fst snd].
  assert (Hfind : get_conversation
                    {| conversations :=
                         update_where (fun c => Conversation.id c =? id)
                           (fun c => Conversation.mk (Conversation.id c) (JString title)
                                       (Conversation.created_at c) now)
                           (conversations d);
                       messages := messages d |} id = Some renamed).
  { unfold get_conversation in *. cbn [conversations].
    rewrite ExchangeTheory.find_update_conversations by reflexivity.
    rewrite Hc. cbn. apply find_some in Hc. destruct Hc as [_ Hid].
    rewrite Hid. apply String.eqb_eq in Hid. rewrite Hid. reflexivity. }
  split; [| split; [| split; [| split]]].
  - rewrite Hfind. reflexivity.
  - unfold get_conversation_by_id. rewrite Hfind. reflexivity.
  - intros other Hne. unfold get_conversation. cbn [conversations].
    rewrite ExchangeTheory.find_update_conversations by reflexivity.
    destruct (find (fun c0 => Conversation.id c0 =? other) (conversations d))
      as [c0 |] eqn:Hf; [| reflexivity].
    cbn. apply find_some in Hf. destruct Hf as [_ Hid].
    apply String.eqb_eq in Hid. rewrite Hid.
    apply String.eqb_neq in Hne. rewrite Hne. reflexivity.
  - reflexivity.
  - reflexivity.
Qed.

Lemma patch_renames_the_conversation_witness :
  let d := Scenario.fresh_conversation in
  get_conversation d "c1" = Some (Conversation.mk "c1" (JString "New Chat") "t0" "t0")
  /\ snd (patch_conversation "t2" "c1" (JString "Plans") d)
     = (200, ConversationBody (Some (Conversation.mk "c1" (JString "Plans") "t0" "t2")))
  /\ patch_conversation "t2" "c1" (JBool true) d
     = (d, (500, ErrorBody "Failed to update conversation")).
Proof.
  intros d.
  assert (H : get_conversation d "c1"
              = Some (Conversation.mk "c1" (JString "New Chat") "t0" "t0"))
    by reflexivity.
  destruct (patch_renames_the_conversation d "t2" "c1" "Plans" _ H)
    as [Hp [_ [_ [_ Hrefused]]]].
  split; [exact H |]. split; [exact Hp | exact (Hrefused true)].
Defined.

(** A DELETE that matches no row changes nothing and reports no change. *)
Lemma delete_without_row (cascade : bool) (d : Database) (id : string) :
  get_conversation d id = None ->
  delete_from_conversations cascade d id = (d, 0).
Proof.
  intros H. destruct (no_match_no_row d id H) as [Hf Hall].
  unfold delete_from_conversations. rewrite Hf. cbn.
  rewrite filter_all.
  - destruct d; reflexivity.
  - intros c Hin. rewrite (Hall c Hin). reflexivity.
Qed.

(** X13.  DELETE /:id for an identifier without a row answers 404 and
    leaves the store as it was, conversations and messages. *)
Theorem delete_of_unknown_conversation (cascade : bool) (d : Database) (id : string) :
  get_conversation d id = None ->
  delete_conversation cascade id d = (d, (404, ErrorBody "Conversation not found")).
Proof.
  intros H. unfold delete_conversation.
  rewrite (delete_without_row cascade d id H). reflexivity.
Qed.

Lemma delete_of_unknown_conversation_witness :
  get_conversation Scenario.fresh_conversation "c9" = None
  /\ delete_conversation true "c9" Scenario.fresh_conversation
     = (Scenario.fresh_conversation, (404, ErrorBody "Conversation not found")).
Proof.
  assert (H : get_conversation Scenario.fresh_conversation "c9" = None) by reflexivity.
  split; [exact H |].
  exact (delete_of_unknown_conversation true Scenario.fresh_conversation "c9" H).
Defined.

Lemma find_filter_other (rows : list Conversation.t) (id other : string) :
  other <> id ->
  find (fun c => Conversation.id c =? other)
       (filter (fun c => negb (Conversation.id c =? id)) rows)
  = find (fun c => Conversation.id c =? other) rows.
Proof.
  intros Hne. induction rows as [| r rows IH]; [reflexivity |].
  cbn. destruct (Conversation.id r =? id) eqn:E; cbn.
  - apply String.eqb_eq in E. rewrite E.
    apply not_eq_sym in Hne. apply String.eqb_neq in Hne. rewrite Hne. exact IH.
  - destruct (Conversation.id r =? other); [reflexivity | exact IH].
Qed.

Lemma find_filter_same (rows : list Conversation.t) (id : string) :
  find (fun c => Conversation.id c =? id)
       (filter (fun c => negb (Conversation.id c =? id)) rows) = None.
Proof.
  induction rows as [| r rows IH]; [reflexivity |].
  cbn. destruct (Conversation.id r =? id) eqn:E; cbn; [exact IH |].
  rewrite E. exact IH.
Qed.

(** X14.  DELETE /:id for a conversation that has a row answers 200;
    afterwards the conversation is not found: GET /:id, the listing of its
    messages, the send endpoint and a second DELETE all answer 404; the
    other conversations are found as before, and the messages of other
    conversations are still in the store. *)
Theorem delete_removes_the_conversation
        (cascade : bool) (env : Env) (d : Database) (id text : string) :
  get_conversation d id <> None ->
  text <> "" ->
  let d' := fst (delete_conversation cascade id d) in
  snd (delete_conversation cascade id d) = (200, DeletedBody)
  /\ get_conversation_by_id id d' = (d', (404, ErrorBody "Conversation not found"))
  /\ exec (get_messages id) d'
     = {| db := d'; log := [Respond 404 (ErrorJson "Conversation not found")] |}
  /\ exec (post_message env id (JString text)) d'
     = {| db := d'; log := [Respond 404 (ErrorJson "Conversation not found")] |}
  /\ delete_conversation cascade id d' = (d', (404, ErrorBody "Conversation not found"))
  /\ (forall other, other <> id -> get_conversation d' other = get_conversation d other)
  /\ (forall m, In m (messages d) -> Message.conversation_id m <> id ->
                In m (messages d')).
Proof.
  intros Hc Ht d'.
  destruct (get_conversation d id) as [c |] eqn:Hg; [| congruence].
  pose proof (match_has_row d id c Hg) as Hrow.
  assert (Hd' : d' = fst (delete_from_conversations cascade d id)).
  { subst d'. unfold delete_conversation.
    destruct (delete_from_conversations cascade d id) as [x n]. destruct (Nat.eqb n 0);
      reflexivity. }
  assert (Hnone : get_conversation d' id = None).
  { rewrite Hd'. unfold get_conversation, delete_from_conversations. cbn.
    apply find_filter_same. }
  split; [| split; [| split; [| split; [| split; [| split]]]]].
  - unfold delete_conversation, delete_from_conversations. cbn [snd].
    unfold Nat.eqb in Hrow. fold Nat.eqb in Hrow.
    destruct (length (filter (fun c0 => Conversation.id c0 =? id) (conversations d)));
      [discriminate Hrow | reflexivity].
  - unfold get_conversation_by_id. rewrite Hnone. reflexivity.
  - apply RoutesTheory.get_messages_404, Hnone.
  - apply RoutesTheory.post_message_404; assumption.
  - unfold delete_conversation. rewrite (delete_without_row _ _ _ Hnone). reflexivity.
  - intros other Hne. rewrite Hd'. unfold get_conversation, delete_from_conversations.
    cbn. apply find_filter_other, Hne.
  - intros m Hin Hm. rewrite Hd'. unfold delete_from_conversations. cbn.
    destruct (filter (fun c0 => Conversation.id c0 =? id) (conversations d));
      [exact Hin |].
    destruct cascade; [| exact Hin].
    apply filter_In. split; [exact Hin |].
    apply String.eqb_neq in Hm. rewrite Hm. reflexivity.
Qed.

Lemma delete_removes_the_conversation_witness :
  let env := Scenario.request [] in
  let d := Scenario.fresh_conversation in
  (get_conversation d "c1" <> None /\ "hello" <> "")
  /\ delete_conversation true "c1" d
     = ({| conversations := []; messages := [] |}, (200, DeletedBody))
  /\ responses (log (exec (get_messages "c1") (fst (delete_conversation true "c1" d))))
     = [(404, ErrorJson "Conversation not found")].
Proof.
  intros env d.
  assert (H1 : get_conversation d "c1" <> None) by discriminate.
  assert (H2 : "hello" <> "") by discriminate.
  destruct (delete_removes_the_conversation true env d "c1" "hello" H1 H2)
    as [_ [_ [Hlist _]]].
  split; [split; assumption |]. split; [reflexivity |].
  rewrite Hlist. reflexivity.
Defined.

End CrudTheory.

(** * Properties of the sidebar *)

Module SidebarTheory.
Import Sidebar.

(** ** The conversation of the current path *)

Lemma split_from_skip (sep p x acc : string) :
  split_from sep (String.length p) acc (p ++ x) = split_from sep 0 acc x.
Proof.
  induction p as [| c p IH]; [reflexivity | exact IH].
Qed.

Lemma split_from_without (sep x : string) :
  occurs sep x = false ->
  forall acc, split_from sep 0 acc x = [(acc ++ x)%string].
Proof.
  induction x as [| c x IH]; intros H acc.
  - cbn. rewrite RoutesTheory.append_empty_r. reflexivity.
  - cbn [occurs] in H. apply orb_false_elim in H. destruct H as [Hp Hx].
    cbn [split_from]. rewrite Hp, (IH Hx), RoutesTheory.append_assoc. reflexivity.
Qed.

Lemma split_at_separator (c : Ascii.ascii) (sep' x acc : string) :
  split_from (String c sep') 0 acc (String c sep' ++ x)
  = acc :: split_from (String c sep') 0 "" x.
Proof.
  change (String c sep' ++ x)%string with (String c (sep' ++ x)).
  cbn [split_from].
  change (String c (sep' ++ x)) with (String c sep' ++ x)%string.
  rewrite ChatViewTheory.prefix_append.
  replace (String.length (String c sep') - 1) with (String.length sep')
    by (cbn [String.length]; lia).
  rewrite split_from_skip. reflexivity.
Qed.

Lemma plain_char_codes (c : Ascii.ascii) :
  plain_char c = true ->
  Ascii.nat_of_ascii c <> 63 /\ Ascii.nat_of_ascii c <> 35 /\ Ascii.nat_of_ascii c <> 47.
Proof.
  unfold plain_char. cbv zeta. intros H.
  repeat split; intros E; rewrite E in H; discriminate H.
Qed.

(** The router finds no search and no hash in a plain identifier. *)
Lemma navigate_plain (s : string) : plain s = true -> navigate s = s.
Proof.
  induction s as [| c s IH]; [reflexivity |].
  cbn [plain navigate]. intros H. apply andb_prop in H. destruct H as [Hc Hs].
  destruct (plain_char_codes c Hc) as [H1 [H2 _]].
  apply Nat.eqb_neq in H1, H2. rewrite H1, H2, (IH Hs). reflexivity.
Qed.

(** Nor is there a slash in it. *)
Lemma plain_without_chat (s : string) : plain s = true -> occurs "/chat/" s = false.
Proof.
  induction s as [| c s IH]; [reflexivity |].
  cbn [plain]. intros H. apply andb_prop in H. destruct H as [Hc Hs].
  cbn [occurs]. rewrite (IH Hs), orb_false_r.
  cbn [String.prefix].
  destruct (Ascii.ascii_dec _ c) as [E | E]; [| reflexivity].
  exfalso. destruct (plain_char_codes c Hc) as [_ [_ H3]].
  apply H3. rewrite <- E. reflexivity.
Qed.

(** What [navigate] is given for a conversation reads back as it. *)
Lemma currentId_chat (id : string) :
  plain id = true -> currentId (navigate ("/chat/" ++ id)) = Some id.
Proof.
  intros H.
  assert (Hnav : navigate ("/chat/" ++ id) = ("/chat/" ++ id)%string).
  { change (navigate ("/chat/" ++ id)) with ("/chat/" ++ navigate id)%string.
    rewrite (navigate_plain id H). reflexivity. }
  rewrite Hnav. unfold currentId. rewrite ChatViewTheory.prefix_append.
  unfold split.
  rewrite split_at_separator, (split_from_without _ _ (plain_without_chat id H)).
  reflexivity.
Qed.

(** X15.  After a conversation is selected, or created by the button, the
    conversation that the path of the location designates is that one,
    for an identifier made of letters, digits and hyphens, as [uuidv4()]
    draws them: the item highlighted is the one clicked or created.  (The
    router cuts an identifier at a '?' or a '#', so that this fails for
    an identifier that holds one.) *)
Theorem selection_is_the_current_conversation
        (id : string) (created : Conversation.t) (v : State) :
  plain id = true ->
  plain (Conversation.id created) = true ->
  currentId (pathname (handleSelectConversation id v)) = Some id
  /\ currentId (pathname (handleNewChat (inl created) v)) = Some (Conversation.id created)
  /\ hd_error (conversations (handleNewChat (inl created) v)) = Some created.
Proof.
  intros Hid Hc. cbn [handleSelectConversation handleNewChat pathname conversations].
  split; [apply currentId_chat, Hid |].
  split; [apply currentId_chat, Hc | reflexivity].
Qed.

Lemma selection_is_the_current_conversation_witness :
  let created := Conversation.mk "3f2a-77" (JString "New Chat") "t1" "t1" in
  let v := {| conversations := []; loading := false; error := None;
              creating := false; pathname := "/" |} in
  (plain "9b1c" = true /\ plain (Conversation.id created) = true)
  /\ currentId (pathname v) = None
  /\ currentId (pathname (handleSelectConversation "9b1c" v)) = Some "9b1c"
  /\ currentId (pathname (handleNewChat (inl created) v)) = Some "3f2a-77"
  /\ currentId (pathname (handleSelectConversation "p?q" v)) = Some "p".
Proof.
  intros created v.
  assert (H1 : plain "9b1c" = true) by reflexivity.
  assert (H2 : plain (Conversation.id created) = true) by reflexivity.
  destruct (selection_is_the_current_conversation "9b1c" created v H1 H2)
    as [Hs [Hn _]].
  split; [split; assumption |]. split; [reflexivity |]. split; [exact Hs |].
  split; [exact Hn | reflexivity].
Defined.

(** ** Moving a conversation to the top *)

Lemma perm_partition {A} (p : A -> bool) (l : list A) :
  Permutation l (filter p l ++ filter (fun x => negb (p x)) l).
Proof.
  induction l as [| x l IH]; [reflexivity |].
  cbn. destruct (p x); cbn.
  - apply perm_skip, IH.
  - apply Permutation_cons_app, IH.
Qed.

Lemma only_row_with_id (l : list Conversation.t) (c : Conversation.t) :
  NoDup (map Conversation.id l) ->
  In c l ->
  filter (fun x => Conversation.id x =? Conversation.id c) l = [c].
Proof.
  induction l as [| x l IH]; intros Hnd Hin; [destruct Hin |].
  cbn [map] in Hnd. inversion Hnd as [| i ids Hx Hnd']; subst.
  cbn [filter]. destruct (Conversation.id x =? Conversation.id c) eqn:E.
  - apply String.eqb_eq in E.
    assert (Hc : c = x).
    { destruct Hin as [Hin | Hin]; [auto |].
      exfalso. apply Hx. rewrite E. apply in_map, Hin. }
    subst c. f_equal. apply CrudTheory.filter_none.
    intros y Hy. apply String.eqb_neq. intros Hid. apply Hx.
    rewrite <- Hid. apply in_map, Hy.
  - destruct Hin as [Hin | Hin].
    + subst x. rewrite String.eqb_refl in E. discriminate.
    + apply IH; assumption.
Qed.

Lemma found_has_id (id : string) (l : list Conversation.t) (c : Conversation.t) :
  find (fun x => Conversation.id x =? id) l = Some c ->
  In c l /\ Conversation.id c = id.
Proof.
  intros H. apply find_some in H. destruct H as [Hin Hid].
  apply String.eqb_eq in Hid. auto.
Qed.

Lemma selected_to_top_perm (id : string) (prev : list Conversation.t) :
  NoDup (map Conversation.id prev) ->
  Permutation (selected_to_top id prev) prev.
Proof.
  intros Hnd. unfold selected_to_top.
  destruct (find (fun c => Conversation.id c =? id) prev) as [c |] eqn:Hf; [| reflexivity].
  destruct (found_has_id id prev c Hf) as [Hin Hid].
  pose proof (only_row_with_id prev c Hnd Hin) as Honly. rewrite Hid in Honly.
  rewrite (perm_partition (fun x => Conversation.id x =? id) prev) at 2.
  rewrite Honly. reflexivity.
Qed.

Lemma selected_to_top_idem (id : string) (prev : list Conversation.t) :
  selected_to_top id (selected_to_top id prev) = selected_to_top id prev.
Proof.
  unfold selected_to_top at 2 3.
  destruct (find (fun c => Conversation.id c =? id) prev) as [c |] eqn:Hf.
  - destruct (found_has_id id prev c Hf) as [_ Hid].
    unfold selected_to_top. cbn [find filter]. rewrite Hid, String.eqb_refl. cbn [negb].
    f_equal. apply CrudTheory.filter_all.
    intros x Hx. apply filter_In in Hx. tauto.
  - unfold selected_to_top. rewrite Hf. reflexivity.
Qed.

(** X16.  Selecting a conversation in a list whose identifiers are
    distinct only reorders the list: the result holds the same
    conversations, the selected one first when it is in the list, the
    others after it in the order they had; selecting it again changes
    nothing. *)
Theorem select_moves_to_top (id : string) (v : State) :
  NoDup (map Conversation.id (conversations v)) ->
  let v' := handleSelectConversation id v in
  Permutation (conversations v') (conversations v)
  /\ (forall c, In c (conversations v) -> Conversation.id c = id ->
                conversations v'
                = c :: filter (fun x => negb (Conversation.id x =? id)) (conversations v))
  /\ handleSelectConversation id v' = v'.
Proof.
  intros Hnd v'. subst v'. unfold handleSelectConversation. cbn [conversations].
  split; [apply selected_to_top_perm, Hnd |]. split.
  - intros c Hin Hid. unfold selected_to_top.
    destruct (find (fun x => Conversation.id x =? id) (conversations v)) as [c' |] eqn:Hf.
    + destruct (found_has_id id _ c' Hf) as [Hin' Hid'].
      pose proof (only_row_with_id _ c Hnd Hin) as H1.
      pose proof (only_row_with_id _ c' Hnd Hin') as H2.
      rewrite Hid in H1. rewrite Hid' in H2. rewrite H1 in H2.
      inversion H2. reflexivity.
    + exfalso. pose proof (find_none _ _ Hf c Hin) as Hn. cbn in Hn.
      rewrite Hid, String.eqb_refl in Hn. discriminate.
  - rewrite selected_to_top_idem. reflexivity.
Qed.

Lemma select_moves_to_top_witness :
  let a := Conversation.mk "a" (JString "A") "t0" "t3" in
  let b := Conversation.mk "b" (JString "B") "t1" "t2" in
  let c := Conversation.mk "c" (JString "C") "t2" "t2" in
  let v := {| conversations := [a; b; c]; loading := false; error := None;
              creating := false; pathname := "/" |} in
  NoDup (map Conversation.id (conversations v))
  /\ conversations (handleSelectConversation "c" v) = [c; a; b]
  /\ Permutation (conversations (handleSelectConversation "c" v)) (conversations v).
Proof.
  intros a b c v.
  assert (H : NoDup (map Conversation.id (conversations v))).
  { cbn. repeat constructor; cbn; intuition discriminate. }
  destruct (select_moves_to_top "c" v H) as [Hp _].
  split; [exact H |]. split; [reflexivity | exact Hp].
Defined.

(** ** The effect that follows the current conversation *)

Lemma set_conversations_same (v : State) : set_conversations (conversations v) v = v.
Proof. destruct v; reflexivity. Qed.

Lemma current_to_top_settled (cur : string) (l : list Conversation.t) :
  find (fun c => Conversation.id c =? cur) l = None
  \/ (exists c rest, l = c :: rest /\ Conversation.id c = cur) ->
  current_to_top cur l = l.
Proof.
  intros [H | [c [rest [-> Hid]]]]; unfold current_to_top.
  - rewrite H. reflexivity.
  - cbn [find]. rewrite Hid, String.eqb_refl. reflexivity.
Qed.

Lemma move_current_to_top_settled (v : State) (cur : string) :
  currentId (pathname v) = Some cur ->
  current_to_top cur (conversations v) = conversations v ->
  move_current_to_top v = v.
Proof.
  intros Hcur Hl. unfold move_current_to_top. rewrite Hcur, Hl.
  rewrite set_conversations_same. destruct (_ && _); reflexivity.
Qed.

(** X17.  The effect that moves the current conversation to the top finds
    nothing to do after a selection or a creation, for an identifier made
    of letters, digits and hyphens: applied to the state that
    [handleSelectConversation] or [handleNewChat] leaves, it returns that
    state.  (For another identifier the path may designate another
    conversation, which the effect then moves.) *)
Theorem effect_settles_after_selection
        (id : string) (created : Conversation.t) (v : State) :
  plain id = true ->
  plain (Conversation.id created) = true ->
  move_current_to_top (handleSelectConversation id v) = handleSelectConversation id v
  /\ move_current_to_top (handleNewChat (inl created) v) = handleNewChat (inl created) v.
Proof.
  intros Hid Hc. split.
  - apply (move_current_to_top_settled _ id).
    + apply currentId_chat, Hid.
    + apply current_to_top_settled. cbn [handleSelectConversation conversations].
      unfold selected_to_top.
      destruct (find (fun c => Conversation.id c =? id) (conversations v)) as [c |] eqn:Hf.
      * right. destruct (found_has_id id _ c Hf) as [_ Hc']. eauto.
      * left. exact Hf.
  - apply (move_current_to_top_settled _ (Conversation.id created)).
    + apply currentId_chat, Hc.
    + apply current_to_top_settled. right. cbn [handleNewChat conversations]. eauto.
Qed.

Lemma effect_settles_after_selection_witness :
  let a := Conversation.mk "a" (JString "A") "t0" "t3" in
  let b := Conversation.mk "b" (JString "B") "t1" "t2" in
  let pq := Conversation.mk "a?b" (JString "C") "t1" "t2" in
  let v := {| conversations := [a; b]; loading := false; error := None;
              creating := false; pathname := "/chat/a" |} in
  let u := {| conversations := [pq; b; a]; loading := false; error := None;
              creating := false; pathname := "/" |} in
  (plain "b" = true /\ plain (Conversation.id a) = true)
  /\ conversations (handleSelectConversation "b" v) = [b; a]
  /\ move_current_to_top (handleSelectConversation "b" v) = handleSelectConversation "b" v
  /\ conversations (move_current_to_top (handleSelectConversation "a?b" u)) = [a; pq; b].
Proof.
  intros a b pq v u.
  assert (H1 : plain "b" = true) by reflexivity.
  assert (H2 : plain (Conversation.id a) = true) by reflexivity.
  destruct (effect_settles_after_selection "b" a v H1 H2) as [H _].
  split; [split; assumption |]. split; [reflexivity |]. split; [exact H | reflexivity].
Defined.

(** X18.  On a list whose identifiers are distinct, the update of the
    effect and the update of the click handler give the same list: the
    test the effect makes for a conversation that is already first only
    saves the work. *)
Theorem effect_agrees_with_selection (cur : string) (prev : list Conversation.t) :
  NoDup (map Conversation.id prev) ->
  current_to_top cur prev = selected_to_top cur prev.
Proof.
  intros Hnd. unfold current_to_top, selected_to_top.
  destruct (find (fun c => Conversation.id c =? cur) prev) as [c |] eqn:Hf; [| reflexivity].
  destruct prev as [| h t]; [discriminate Hf |].
  destruct (Conversation.id h =? cur) eqn:E; [| reflexivity].
  cbn [find] in Hf. rewrite E in Hf. inversion Hf; subst c.
  cbn [filter]. rewrite E. cbn [negb]. f_equal. symmetry.
  apply CrudTheory.filter_all. intros x Hx.
  cbn [map] in Hnd. inversion Hnd as [| i ids Hh Hnd']; subst.
  apply String.eqb_eq in E.
  destruct (Conversation.id x =? cur) eqn:Ex; [| reflexivity].
  exfalso. apply String.eqb_eq in Ex. apply Hh. rewrite E, <- Ex. apply in_map, Hx.
Qed.

Lemma effect_agrees_with_selection_witness :
  let a := Conversation.mk "a" (JString "A") "t0" "t3" in
  let b := Conversation.mk "b" (JString "B") "t1" "t2" in
  NoDup (map Conversation.id [a; b])
  /\ current_to_top "b" [a; b] = [b; a]
  /\ current_to_top "a" [a; b] = selected_to_top "a" [a; b].
Proof.
  intros a b.
  assert (H : NoDup (map Conversation.id [a; b])).
  { cbn. repeat constructor; cbn; intuition discriminate. }
  split; [exact H |]. split; [reflexivity |].
  exact (effect_agrees_with_selection "a" [a; b] H).
Defined.

(** ** Updating and deleting *)

(** X19.  [updateConversation] keeps the identifiers of the list and their
    order; afterwards every item with the identifier of the conversation
    given is that conversation, and the items with another identifier
    are those that were there; with an identifier that is not in the
    list, the state stays as it was. *)
Theorem updateConversation_replaces_in_place (u : Conversation.t) (v : State) :
  let v' := updateConversation u v in
  map Conversation.id (conversations v') = map Conversation.id (conversations v)
  /\ (forall c, In c (conversations v') ->
                Conversation.id c = Conversation.id u -> c = u)
  /\ (forall c, Conversation.id c <> Conversation.id u ->
                (In c (conversations v') <-> In c (conversations v)))
  /\ (find (fun c => Conversation.id c =? Conversation.id u) (conversations v) = None ->
      v' = v).
Proof.
  intros v'. subst v'. unfold updateConversation. cbn [set_conversations conversations].
  repeat split.
  - rewrite map_map. apply map_ext_in. intros c _.
    destruct (Conversation.id c =? Conversation.id u) eqn:E; [| reflexivity].
    apply String.eqb_eq in E. auto.
  - intros c Hin Hid. apply in_map_iff in Hin. destruct Hin as [c0 [Hc0 _]].
    destruct (Conversation.id c0 =? Conversation.id u) eqn:E; [auto |].
    subst c. apply String.eqb_neq in E. contradiction.
  - intros Hin. apply in_map_iff in Hin. destruct Hin as [c0 [Hc0 Hin]].
    destruct (Conversation.id c0 =? Conversation.id u) eqn:E.
    + subst c. contradiction.
    + subst c. exact Hin.
  - intros Hin. apply in_map_iff. exists c. split; [| exact Hin].
    apply String.eqb_neq in H. rewrite H. reflexivity.
  - intros Hf.
    assert (Hsame : map (fun conv => if Conversation.id conv =? Conversation.id u
                                     then u else conv) (conversations v)
                    = conversations v).
    { rewrite <- (map_id (conversations v)) at 2. apply map_ext_in. intros c Hin.
      pose proof (find_none _ _ Hf c Hin) as Hn. cbn in Hn. rewrite Hn. reflexivity. }
    rewrite Hsame. destruct v; reflexivity.
Qed.

(** X20.  After a deletion that the server accepted, no item of the list
    has the identifier deleted and the path designates another
    conversation or none, the items with another identifier staying in
    their order; after a deletion that failed, the list and the path are
    as they were and the failure is shown. *)
Theorem deletion_leaves_no_trace (id : string) (message : string) (v : State) :
  let v' := handleDeleteConversation id None v in
  (forall c, In c (conversations v') -> Conversation.id c <> id)
  /\ currentId (pathname v') <> Some id
  /\ filter (fun c => negb (Conversation.id c =? id)) (conversations v)
     = conversations v'
  /\ conversations (handleDeleteConversation id (Some message) v) = conversations v
  /\ pathname (handleDeleteConversation id (Some message) v) = pathname v
  /\ error (handleDeleteConversation id (Some message) v) = Some message.
Proof.
  intros v'. subst v'. cbn [handleDeleteConversation conversations pathname error].
  repeat split.
  - intros c Hin. apply filter_In in Hin. destruct Hin as [_ Hne].
    apply negb_true_iff, String.eqb_neq in Hne. exact Hne.
  - destruct (currentId (pathname v)) as [cur |] eqn:Hcur.
    + destruct (cur =? id) eqn:E.
      * cbn. discriminate.
      * rewrite Hcur. apply String.eqb_neq in E. congruence.
    + rewrite Hcur. discriminate.
Qed.

End SidebarTheory.

(** * From the input to the store, and back to the view *)

Module InputTheory.

Lemma nonempty_length (s : string) :
  Nat.ltb 0 (String.length s) = negb (s =? "").
Proof. destruct s; reflexivity. Qed.

(** X21.  The send button is enabled exactly when a submission sends:
    [canSend] holds if and only if [handleSubmit] hands a text to
    [onSend]; that text is the trimmed input and is not empty, the input
    is not disabled, and the input field is emptied; when nothing is
    sent, the input field keeps its text. *)
Theorem canSend_iff_submission_sends
        (trim : string -> string) (disabled : bool) (input : string) :
  (MessageInput.canSend trim disabled input = true
   <-> exists text, fst (MessageInput.handleSubmit trim disabled input) = Some text)
  /\ (forall text,
        fst (MessageInput.handleSubmit trim disabled input) = Some text ->
        text = trim input /\ text <> "" /\ disabled = false
        /\ snd (MessageInput.handleSubmit trim disabled input) = "")
  /\ (fst (MessageInput.handleSubmit trim disabled input) = None ->
      snd (MessageInput.handleSubmit trim disabled input) = input).
Proof.
  unfold MessageInput.canSend, MessageInput.handleSubmit.
  rewrite nonempty_length.
  destruct (trim input =? "") eqn:E; destruct disabled; cbn.
  - repeat split; try discriminate. intros [t Ht]. discriminate.
  - repeat split; try discriminate. intros [t Ht]. discriminate.
  - repeat split; try discriminate. intros [t Ht]. discriminate.
  - apply String.eqb_neq in E.
    repeat split; try congruence; eauto.
Qed.

Lemma responses_of_callbacks (a : string) (sigs : list Routes.Signal) :
  Routes.responses (flat_map (Routes.signal_effects a) sigs) = [].
Proof.
  induction sigs as [| s rest IH]; [reflexivity |].
  destruct s; cbn [flat_map Routes.signal_effects app]; exact IH.
Qed.

(** No well-formed text is answered with 400. *)
Lemma text_is_never_malformed (env : Routes.Env) (d : Database) (id text : string) :
  text <> "" ->
  forall r, In r (Routes.responses
                    (Routes.log (Routes.exec (Routes.post_message env id (JString text)) d))) ->
            fst r <> 400.
Proof.
  intros Ht r Hin.
  destruct (get_conversation d id) as [c |] eqn:Hc.
  - assert (Hc' : get_conversation d id <> None) by congruence.
    destruct (Routes.session_opens env) eqn:Hs.
    + rewrite (RoutesTheory.post_message_opens env d id text Ht Hc' Hs),
        RoutesTheory.deliver_effects in Hin.
      cbn [Routes.log] in Hin. unfold Routes.responses in Hin.
      rewrite flat_map_app in Hin. fold (Routes.responses) in Hin.
      apply in_app_or in Hin. destruct Hin as [Hin | Hin]; [destruct Hin |].
      fold (Routes.responses (flat_map (Routes.signal_effects (Routes.assistantMessageId env))
              (Routes.signals env text
                 (Routes.history_of (messages_with_status d id Sent))))) in Hin.
      rewrite responses_of_callbacks in Hin. destruct Hin.
    + rewrite (RoutesTheory.post_message_500 env d id text Ht Hc' Hs) in Hin.
      cbn in Hin. destruct Hin as [<- | []]. discriminate.
  - rewrite (RoutesTheory.post_message_404 env d id text Ht Hc) in Hin.
    cbn in Hin. destruct Hin as [<- | []]. discriminate.
Qed.

(** X22.  A text submitted through the input of an idle chat view becomes
    the content of the request that [sendMessage] posts, and the send
    endpoint never answers that request with 400: what passes the test of
    the input passes the validation of the server. *)
Theorem submitted_text_passes_validation
        (trim : string -> string) (input cid text : string) (clock : ChatView.Clock)
        (v : ChatView.State) (env : Routes.Env) (d : Database) :
  cid <> "" ->
  fst (MessageInput.handleSubmit trim (ChatView.isStreaming v) input) = Some text ->
  let v' := ChatView.sendMessage (Some cid) text clock v in
  exists s,
    ChatView.streams v' = ChatView.streams v ++ [s]
    /\ ChatView.endpoint s = ("/chats/" ++ cid ++ "/messages")%string
    /\ ChatView.body_content s = trim input
    /\ forall r,
        In r (Routes.responses
                (Routes.log
                   (Routes.exec
                      (Routes.post_message env cid (JString (ChatView.body_content s))) d))) ->
        fst r <> 400.
Proof.
  intros Hcid Hsub v'. subst v'.
  unfold MessageInput.handleSubmit in Hsub.
  destruct (trim input =? "") eqn:E; [discriminate Hsub |].
  destruct (ChatView.isStreaming v) eqn:Hs; [discriminate Hsub |].
  cbn in Hsub. inversion Hsub; subst text.
  unfold ChatView.sendMessage. cbn [ChatView.no_id].
  apply String.eqb_neq in Hcid. rewrite Hcid, Hs. cbn [orb ChatView.streams].
  eexists. split; [reflexivity |]. cbn [ChatView.endpoint ChatView.body_content].
  split; [reflexivity |]. split; [reflexivity |].
  apply text_is_never_malformed. apply String.eqb_neq, E.
Qed.

Lemma submitted_text_passes_validation_witness :
  let v := ChatView.loaded [] in
  let env := Scenario.request (Routes.completion_source Scenario.hi_there) in
  let v' := ChatView.sendMessage (Some "c1") "hello" Scenario.first_click v in
  ("c1" <> ""
   /\ fst (MessageInput.handleSubmit MessageInput.ascii_trim (ChatView.isStreaming v)
                                     "  hello ") = Some "hello")
  /\ map ChatView.body_content (ChatView.streams v') = ["hello"]
  /\ Routes.responses
       (Routes.log (Routes.exec (Routes.post_message env "c1" (JString "hello"))
                                Scenario.fresh_conversation)) = [].
Proof.
  intros v env v'.
  assert (H1 : "c1" <> "") by discriminate.
  assert (H2 : fst (MessageInput.handleSubmit MessageInput.ascii_trim
                      (ChatView.isStreaming v) "  hello ") = Some "hello") by reflexivity.
  destruct (submitted_text_passes_validation MessageInput.ascii_trim "  hello " "c1"
              "hello" Scenario.first_click v env Scenario.fresh_conversation H1 H2)
    as [s [_ _]].
  split; [split; assumption |]. split; reflexivity.
Defined.

End InputTheory.

(** * More on the chat view *)

Module ViewTheory.
Import ChatView.

(** ** The streaming buffer *)

Lemma chunks_accumulate (id : option string) (chunks : list string) :
  forall v s,
    streams v = [s] ->
    let v' := steps id v (map (Chunk 0) chunks) in
    streamingContent v' = (streamingContent v ++ String.concat "" chunks)%string
    /\ messages v' = messages v
    /\ isStreaming v' = isStreaming v
    /\ streams v' = [s].
Proof.
  induction chunks as [| c chunks IH]; intros v s Hs.
  - cbn. rewrite RoutesTheory.append_empty_r. auto.
  - cbn [map steps fold_left step]. rewrite Hs. cbn [nth_error].
    destruct (IH (onChunk c v) s Hs) as [H1 [H2 [H3 H4]]].
    unfold steps in H1, H2, H3, H4. rewrite H1, H2, H3, H4.
    cbn [onChunk streamingContent messages isStreaming].
    rewrite RoutesTheory.concat_cons, RoutesTheory.append_assoc. auto.
Qed.

(** X23.  From an idle view, a send followed by the chunks of its stream
    leaves in the streaming buffer the chunks put together, whatever the
    buffer held before; the list of messages holds the optimistic entry
    after those that were there, and no other change. *)
Theorem buffer_is_the_chunks_received
        (cid content : string) (clock : Clock) (chunks : list string) (v : State) :
  cid <> "" ->
  isStreaming v = false ->
  streams v = [] ->
  let v' := steps (Some cid) v (Send content clock :: map (Chunk 0) chunks) in
  streamingContent v' = String.concat "" chunks
  /\ messages v'
     = messages v ++ [Message.mk (temp_id (dateNow clock)) cid User content Sending None
                                 (toISOString clock)]
  /\ isStreaming v' = true.
Proof.
  intros Hcid Hidle Hstreams v'. subst v'.
  cbn [steps fold_left step].
  apply String.eqb_neq in Hcid.
  destruct (chunks_accumulate (Some cid) chunks (sendMessage (Some cid) content clock v)
              {| endpoint := "/chats/" ++ cid ++ "/messages";
                 body_content := content;
                 closure_id := cid;
                 tempUserMessage :=
                   Message.mk (temp_id (dateNow clock)) cid User content Sending None
                              (toISOString clock) |}) as [H1 [H2 [H3 _]]].
  { unfold sendMessage. cbn [no_id]. rewrite Hcid, Hidle. cbn [orb streams].
    rewrite Hstreams. reflexivity. }
  unfold steps in H1, H2, H3. rewrite H1, H2, H3.
  unfold sendMessage. cbn [no_id]. rewrite Hcid, Hidle.
  cbn [orb streamingContent messages isStreaming]. auto.
Qed.

Lemma buffer_is_the_chunks_received_witness :
  let v := steps (Some "c1") (loaded [])
                 [Send "first" Scenario.first_click; Chunk 0 "partial";
                  Error 0 "boom"] in
  let v' := steps (Some "c1") v
                  (Send "second" Scenario.second_click :: map (Chunk 0) ["Hi"; " there"]) in
  ("c1" <> "" /\ isStreaming v = false /\ streams v = [])
  /\ streamingContent v' = "Hi there"
  /\ isStreaming v' = true.
Proof.
  intros v v'.
  assert (H1 : "c1" <> "") by discriminate.
  assert (H2 : isStreaming v = false) by reflexivity.
  assert (H3 : streams v = []) by reflexivity.
  destruct (buffer_is_the_chunks_received "c1" "second" Scenario.second_click
              ["Hi"; " there"] v H1 H2 H3) as [Hb [_ Hs]].
  split; [repeat split; assumption |]. split; [exact Hb | exact Hs].
Defined.

(** ** A failed exchange, as it is shown *)

(** X24.  On [onError], the optimistic user entry, where it stands in the
    view, is marked [failed] with the message of the error; the other
    entries stay and none is added, so the placeholder of the assistant
    is not shown; the buffer is emptied, the view is idle and shows the
    message; and the bubble of the entry offers to retry and shows the
    message, or 'Failed to send' when the message is empty. *)
Theorem onError_marks_the_entry_failed
        (temp : Message.t) (message : string) (v : State) (i : nat) :
  Message.role temp = User ->
  nth_error (messages v) i = Some temp ->
  let v' := onError temp message v in
  let failed := Message.set_error_message (Some message) (Message.set_status Failed temp) in
  nth_error (messages v') i = Some failed
  /\ (forall j m, nth_error (messages v) j = Some m ->
                  Message.id m <> Message.id temp ->
                  nth_error (messages v') j = Some m)
  /\ length (messages v') = length (messages v)
  /\ streamingContent v' = ""
  /\ isStreaming v' = false
  /\ error v' = Some message
  /\ MessageList.retry (MessageList.MessageBubble true failed) = true
  /\ MessageList.failure (MessageList.MessageBubble true failed)
     = Some (if message =? "" then "Failed to send" else message).
Proof.
  intros Hrole Hi v' failed. subst v' failed. unfold onError.
  cbn [messages streamingContent isStreaming error].
  repeat split.
  - rewrite nth_error_map, Hi. cbn [option_map]. rewrite String.eqb_refl. reflexivity.
  - intros j m Hj Hne. rewrite nth_error_map, Hj. cbn [option_map].
    apply String.eqb_neq in Hne. rewrite Hne. reflexivity.
  - apply length_map.
  - unfold MessageList.MessageBubble. cbn. rewrite Hrole. reflexivity.
  - unfold MessageList.MessageBubble. cbn. destruct (message =? ""); reflexivity.
Qed.

Lemma onError_marks_the_entry_failed_witness :
  let v := steps (Some "c1") (loaded [])
                 [Send "hello" Scenario.first_click; Chunk 0 "Hi"] in
  let temp := Message.mk "temp-1700" "c1" User "hello" Sending None "t1" in
  let v' := onError temp "" v in
  (Message.role temp = User /\ nth_error (messages v) 0 = Some temp)
  /\ messages v' = [Message.mk "temp-1700" "c1" User "hello" Failed (Some "") "t1"]
  /\ MessageList.failure
       (MessageList.MessageBubble true
          (Message.mk "temp-1700" "c1" User "hello" Failed (Some "") "t1"))
     = Some "Failed to send".
Proof.
  intros v temp v'.
  assert (H1 : Message.role temp = User) by reflexivity.
  assert (H2 : nth_error (messages v) 0 = Some temp) by reflexivity.
  destruct (onError_marks_the_entry_failed temp "" v 0 H1 H2)
    as [_ [_ [_ [_ [_ [_ [_ Hf]]]]]]].
  split; [split; assumption |]. split; [reflexivity | exact Hf].
Defined.

(** X25.  A bubble shows a failure exactly for a message that is
    [failed], and the text it shows is never empty; it offers to retry
    only for a failed message of the user. *)
Theorem failure_is_always_worded (onRetry : bool) (message : Message.t) :
  let bubble := MessageList.MessageBubble onRetry message in
  (Message.status message = Failed ->
   exists t, MessageList.failure bubble = Some t /\ t <> "")
  /\ (Message.status message <> Failed -> MessageList.failure bubble = None)
  /\ (MessageList.retry bubble = true ->
      Message.status message = Failed /\ Message.role message = User /\ onRetry = true).
Proof.
  intros bubble. subst bubble. unfold MessageList.MessageBubble. cbn.
  repeat split.
  - intros Hs. rewrite Hs. cbn.
    destruct (Message.error_message message) as [e |].
    + destruct (e =? "") eqn:E; cbn.
      * eexists. split; [reflexivity | discriminate].
      * exists e. split; [reflexivity |]. apply String.eqb_neq, E.
    + eexists. split; [reflexivity | discriminate].
  - intros Hs. destruct (Message.status message); try reflexivity. contradiction.
  - destruct (Message.status message); try discriminate H. reflexivity.
  - destruct (Message.status message), (Message.role message), onRetry;
      try discriminate H; reflexivity.
  - destruct (Message.status message), (Message.role message), onRetry;
      try discriminate H; reflexivity.
Qed.

End ViewTheory.

(** * Across the components *)

Module AcrossTheory.

(** X26.  After an exchange that the source completes, the assistant entry
    that [onDone] appends to the view for the done event of the server is
    the placeholder row of the store, up to the time of creation, which
    the view takes from its own clock: a view fetched again shows the
    same identifier and text. *)
Theorem view_agrees_with_the_store
        (env : Routes.Env) (d : Database) (cid text : string)
        (fr : list string) (fullText : string)
        (temp : Message.t) (clock : ChatView.Clock) (v : ChatView.State) :
  text <> "" ->
  get_conversation d cid <> None ->
  Routes.session_opens env = true ->
  Routes.status_of d (Routes.assistantMessageId env) = None ->
  Routes.userMessageId env <> Routes.assistantMessageId env ->
  Routes.signals env text (Routes.history_of (messages_with_status d cid Sent))
  = map Routes.OnChunk fr ++ [Routes.OnDone fullText] ->
  let w := Routes.exec (Routes.post_message env cid (JString text)) d in
  exists messageId content row entry,
    Routes.done_events (Routes.log w) = [(messageId, content)]
    /\ last (messages (Routes.db w)) row = row
    /\ In row (messages (Routes.db w))
    /\ ChatView.messages (ChatView.onDone cid temp messageId content clock v)
       = map (fun msg =>
                if Message.id msg =? Message.id temp
                then Message.set_id (replace "temp-" "user-" (Message.id msg))
                                    (Message.set_status Sent msg)
                else msg) (ChatView.messages v) ++ [entry]
    /\ row = Message.mk (Message.id entry) (Message.conversation_id entry)
                        (Message.role entry) (Message.content entry)
                        (Message.status entry) (Message.error_message entry)
                        (Routes.now env)
    /\ Message.content entry = fullText
    /\ Message.status entry = Sent.
Proof.
  intros Ht Hc Hs Hfresh Hua Hsig w.
  pose proof (ExchangeTheory.rows_after_completion env d cid text fr fullText
                Ht Hc Hs Hfresh Hua Hsig) as Hrows.
  fold w in Hrows.
  assert (Hdone : Routes.done_events (Routes.log w)
                  = [(Routes.assistantMessageId env, fullText)]).
  { subst w. rewrite (RoutesTheory.post_message_opens env d cid text Ht Hc Hs), Hsig.
    rewrite RoutesTheory.deliver_chunks. cbn.
    rewrite !RoutesTheory.done_events_app, RoutesTheory.done_events_chunks. reflexivity. }
  exists (Routes.assistantMessageId env), fullText,
    (Message.mk (Routes.assistantMessageId env) cid Assistant fullText Sent None
                (Routes.now env)),
    (Message.mk (Routes.assistantMessageId env) cid Assistant fullText Sent None
                (ChatView.toISOString clock)).
  split; [exact Hdone |]. split; [| split].
  - rewrite Hrows.
    match goal with
    | |- last (?l ++ [?u; ?a]) _ = _ =>
        replace (l ++ [u; a]) with ((l ++ [u]) ++ [a])
          by (rewrite <- app_assoc; reflexivity)
    end.
    apply last_last.
  - rewrite Hrows. apply in_or_app. right. right. left. reflexivity.
  - repeat split.
Qed.

Lemma view_agrees_with_the_store_witness :
  let env := Scenario.request (Routes.completion_source Scenario.hi_there) in
  let d := Scenario.fresh_conversation in
  let w := Routes.exec (Routes.post_message env "c1" (JString "hello")) d in
  let v := ChatView.steps (Some "c1") (ChatView.loaded [])
             [ChatView.Send "hello" Scenario.first_click] in
  let temp := Message.mk "temp-1700" "c1" User "hello" Sending None "t1" in
  ("hello" <> ""
   /\ get_conversation d "c1" <> None
   /\ Routes.session_opens env = true
   /\ Routes.status_of d "a1" = None
   /\ "u1" <> "a1"
   /\ Routes.signals env "hello" (Routes.history_of (messages_with_status d "c1" Sent))
      = map Routes.OnChunk ["Hi"; " there"] ++ [Routes.OnDone "Hi there"])
  /\ messages (Routes.db w)
     = [Message.mk "u1" "c1" User "hello" Sent None "t1";
        Message.mk "a1" "c1" Assistant "Hi there" Sent None "t1"]
  /\ ChatView.messages (ChatView.onDone "c1" temp "a1" "Hi there" Scenario.second_click v)
     = [Message.mk "user-1700" "c1" User "hello" Sent None "t1";
        Message.mk "a1" "c1" Assistant "Hi there" Sent None "t2"].
Proof.
  intros env d w v temp.
  assert (H1 : "hello" <> "") by discriminate.
  assert (H2 : get_conversation d "c1" <> None) by discriminate.
  assert (H3 : Routes.session_opens env = true) by reflexivity.
  assert (H4 : Routes.status_of d (Routes.assistantMessageId env) = None) by reflexivity.
  assert (H5 : Routes.userMessageId env <> Routes.assistantMessageId env) by discriminate.
  assert (H6 : Routes.signals env "hello"
                 (Routes.history_of (messages_with_status d "c1" Sent))
               = map Routes.OnChunk ["Hi"; " there"] ++ [Routes.OnDone "Hi there"])
    by reflexivity.
  destruct (view_agrees_with_the_store env d "c1" "hello" ["Hi"; " there"] "Hi there"
              temp Scenario.second_click v H1 H2 H3 H4 H5 H6) as [mid [c [row [e _]]]].
  split; [repeat split; assumption |]. split; reflexivity.
Defined.

(** X27.  A title is saved only when it is worth a request: nothing is
    sent, and the conversation of the view is left as it is, when the
    route has no identifier, when the trimmed title is empty, or when the
    title typed is the title the conversation has; in every case the
    title leaves edit mode.  A request that is sent carries the trimmed
    title, which is not empty. *)
Theorem title_is_saved_when_it_changed
        (trim : string -> string) (id : option string)
        (result : Conversation.t + string) (v : ChatTitle.State) :
  (ChatView.no_id id = true
   \/ trim (ChatTitle.editedTitle v) = ""
   \/ ChatTitle.same_title (ChatTitle.editedTitle v) (ChatTitle.conversation v) = true ->
   ChatTitle.title_request trim id v = None
   /\ ChatTitle.conversation (fst (ChatTitle.handleTitleSave trim id result v))
      = ChatTitle.conversation v
   /\ snd (ChatTitle.handleTitleSave trim id result v) = None)
  /\ ChatTitle.isEditingTitle (fst (ChatTitle.handleTitleSave trim id result v)) = false
  /\ (forall cid title, ChatTitle.title_request trim id v = Some (cid, title) ->
                        id = Some cid /\ cid <> ""
                        /\ title = trim (ChatTitle.editedTitle v) /\ title <> "").
Proof.
  unfold ChatTitle.handleTitleSave, ChatTitle.title_request.
  split; [| split].
  - intros H. destruct id as [cid |]; [| repeat split].
    assert (E : ChatView.no_id (Some cid) || (trim (ChatTitle.editedTitle v) =? "")
                || ChatTitle.same_title (ChatTitle.editedTitle v) (ChatTitle.conversation v)
                = true).
    { destruct H as [H | [H | H]].
      - rewrite H. reflexivity.
      - rewrite H. cbn. rewrite orb_true_r. reflexivity.
      - rewrite H. rewrite orb_true_r. reflexivity. }
    rewrite E. repeat split.
  - destruct id as [cid |]; [| reflexivity].
    destruct (ChatView.no_id (Some cid) || (trim (ChatTitle.editedTitle v) =? "")
              || ChatTitle.same_title (ChatTitle.editedTitle v) (ChatTitle.conversation v));
      [reflexivity |].
    destruct result; reflexivity.
  - intros cid title H. destruct id as [cid' |]; [| discriminate H].
    destruct (ChatView.no_id (Some cid')) eqn:E1; [discriminate H |].
    destruct (trim (ChatTitle.editedTitle v) =? "") eqn:E2; [discriminate H |].
    cbn [orb] in H.
    destruct (ChatTitle.same_title _ _); [discriminate H |].
    inversion H; subst. cbn in E1.
    apply String.eqb_neq in E1, E2. auto.
Qed.

(** X28.  A title that is saved goes round the components: for a
    conversation that has a row, the request of [handleTitleSave] makes
    PATCH /:id answer 200 with the conversation under the trimmed title;
    the chat view then holds that conversation, out of edit mode, and
    hands it to the sidebar, whose list keeps its identifiers and their
    order and holds, for that identifier, the renamed conversation only;
    GET /:id answers with it from then on. *)
Theorem saved_title_reaches_the_sidebar
        (trim : string -> string) (cid title now : string) (c : Conversation.t)
        (v : ChatTitle.State) (d : Database) (sidebar : Sidebar.State) :
  ChatTitle.title_request trim (Some cid) v = Some (cid, title) ->
  get_conversation d cid = Some c ->
  let renamed := Conversation.mk cid (JString title) (Conversation.created_at c) now in
  let d' := fst (Crud.patch_conversation now cid (JString title) d) in
  snd (Crud.patch_conversation now cid (JString title) d)
  = (200, Crud.ConversationBody (Some renamed))
  /\ ChatTitle.handleTitleSave trim (Some cid) (inl renamed) v
     = ({| ChatTitle.conversation := Some renamed;
           ChatTitle.isEditingTitle := false;
           ChatTitle.editedTitle := ChatTitle.editedTitle v;
           ChatTitle.error := ChatTitle.error v |}, Some renamed)
  /\ map Conversation.id (Sidebar.conversations (Sidebar.updateConversation renamed sidebar))
     = map Conversation.id (Sidebar.conversations sidebar)
  /\ (forall x, In x (Sidebar.conversations (Sidebar.updateConversation renamed sidebar)) ->
                Conversation.id x = cid -> x = renamed)
  /\ Crud.get_conversation_by_id cid d' = (d', (200, Crud.ConversationBody (Some renamed)))
  /\ title = trim (ChatTitle.editedTitle v)
  /\ title <> "".
Proof.
  intros Hreq Hc renamed d'.
  pose proof (CrudTheory.match_has_row d cid c Hc) as Hrow.
  assert (Hd' : d' = fst (Crud.update_title d (JString title) now cid)).
  { subst d'. unfold Crud.patch_conversation, Crud.update_title.
    rewrite Hrow. reflexivity. }
  assert (Hfind : get_conversation d' cid = Some renamed).
  { rewrite Hd'. unfold Crud.update_title. cbn [fst].
    unfold get_conversation in *. cbn [conversations].
    rewrite ExchangeTheory.find_update_conversations by reflexivity.
    rewrite Hc. cbn [option_map]. apply find_some in Hc. destruct Hc as [_ Hid].
    rewrite Hid. apply String.eqb_eq in Hid. rewrite Hid. reflexivity. }
  split; [| split; [| split; [| split; [| split]]]].
  - assert (Hp : Crud.patch_conversation now cid (JString title) d
                 = (d', (200, Crud.ConversationBody (get_conversation d' cid)))).
    { rewrite Hd'. unfold Crud.patch_conversation, Crud.update_title.
      rewrite Hrow. reflexivity. }
    rewrite Hp. cbn [snd]. rewrite Hfind. reflexivity.
  - unfold ChatTitle.handleTitleSave. rewrite Hreq. reflexivity.
  - unfold Sidebar.updateConversation. cbn [Sidebar.set_conversations Sidebar.conversations].
    rewrite map_map. apply map_ext_in. intros x _.
    destruct (Conversation.id x =? Conversation.id renamed) eqn:E; [| reflexivity].
    apply String.eqb_eq in E. auto.
  - intros x Hin Hid. unfold Sidebar.updateConversation in Hin.
    cbn [Sidebar.set_conversations Sidebar.conversations] in Hin.
    apply in_map_iff in Hin. destruct Hin as [x0 [Hx0 _]].
    destruct (Conversation.id x0 =? Conversation.id renamed) eqn:E; [auto |].
    subst x. apply String.eqb_neq in E. contradiction.
  - unfold Crud.get_conversation_by_id. rewrite Hfind. reflexivity.
  - unfold ChatTitle.title_request in Hreq. cbn [ChatView.no_id] in Hreq.
    destruct ((cid =? "") || (trim (ChatTitle.editedTitle v) =? "")
              || ChatTitle.same_title (ChatTitle.editedTitle v) (ChatTitle.conversation v))
      eqn:E; [discriminate Hreq |].
    inversion Hreq; subst title.
    apply orb_false_elim in E. destruct E as [E _].
    apply orb_false_elim in E. destruct E as [_ E].
    split; [reflexivity | apply String.eqb_neq, E].
Qed.

Lemma saved_title_reaches_the_sidebar_witness :
  let c := Conversation.mk "c1" (JString "New Chat") "t0" "t0" in
  let v := {| ChatTitle.conversation := Some c; ChatTitle.isEditingTitle := true;
              ChatTitle.editedTitle := " Plans "; ChatTitle.error := None |} in
  let sidebar := {| Sidebar.conversations := [c]; Sidebar.loading := false;
                    Sidebar.error := None; Sidebar.creating := false;
                    Sidebar.pathname := "/chat/c1" |} in
  let renamed := Conversation.mk "c1" (JString "Plans") "t0" "t2" in
  (ChatTitle.title_request MessageInput.ascii_trim (Some "c1") v = Some ("c1", "Plans")
   /\ get_conversation Scenario.fresh_conversation "c1" = Some c)
  /\ snd (Crud.patch_conversation "t2" "c1" (JString "Plans") Scenario.fresh_conversation)
     = (200, Crud.ConversationBody (Some renamed))
  /\ Sidebar.conversations (Sidebar.updateConversation renamed sidebar) = [renamed].
Proof.
  intros c v sidebar renamed.
  assert (H1 : ChatTitle.title_request MessageInput.ascii_trim (Some "c1") v
               = Some ("c1", "Plans")) by reflexivity.
  assert (H2 : get_conversation Scenario.fresh_conversation "c1" = Some c) by reflexivity.
  destruct (saved_title_reaches_the_sidebar MessageInput.ascii_trim "c1" "Plans" "t2" c v
              Scenario.fresh_conversation sidebar H1 H2) as [Hp _].
  split; [split; assumption |]. split; [exact Hp | reflexivity].
Defined.

End AcrossTheory.

(** * What is rendered, and what the keys do *)

Module RenderTheory.

(** X29.  The list shows the empty state exactly when there is no message
    and no streamed text.  Otherwise it shows one bubble for each message,
    in the order of the messages, and after them the streamed text exactly
    when that text is not empty.  The list tests the text itself, so it
    renders the same for the buffer of the chat view as it is and for
    [streamingContent || undefined]. *)
Theorem empty_state_or_thread
        (onRetry : bool) (messages : list Message.t) (streamingContent : string) :
  let rendered :=
    MessageList.MessageList onRetry messages
                            (MessageList.streaming_prop streamingContent) in
  MessageList.MessageList onRetry messages (Some streamingContent) = rendered
  /\ (rendered = MessageList.EmptyState <-> messages = [] /\ streamingContent = "")
  /\ (forall bubbles streaming,
        rendered = MessageList.Thread bubbles streaming ->
        bubbles = map (MessageList.MessageBubble onRetry) messages
        /\ (streaming = None <-> streamingContent = "")
        /\ (forall t, streaming = Some t -> t = streamingContent)).
Proof.
  intros rendered. subst rendered.
  unfold MessageList.MessageList, MessageList.streaming_prop.
  cbv beta iota zeta.
  destruct (streamingContent =? "") eqn:E; cbn [negb]; rewrite ?E; cbn [negb].
  - apply String.eqb_eq in E. subst streamingContent.
    split; [reflexivity |]. split.
    + destruct messages as [| m l]; split; try discriminate; auto.
      intros [H _]. discriminate H.
    + intros bubbles streaming H. destruct messages as [| m l]; [discriminate H |].
      inversion H; subst. split; [reflexivity |]. split; [tauto |]. discriminate.
  - apply String.eqb_neq in E.
    split; [reflexivity |]. split.
    + destruct messages as [| m l]; split; try discriminate; intros [_ H]; contradiction.
    + intros bubbles streaming H.
      assert (H' : MessageList.Thread (map (MessageList.MessageBubble onRetry) messages)
                                      (Some streamingContent)
                   = MessageList.Thread bubbles streaming)
        by (destruct messages; exact H).
      inversion H'; subst. split; [reflexivity |]. split.
      * split; [discriminate | contradiction].
      * intros t Ht. inversion Ht. reflexivity.
Qed.

(** X30.  A key sends only when it is Enter without Shift: then the
    default action of the key is prevented and the outcome is that of
    [handleSubmit], so a text is sent exactly when [canSend] holds.  Any
    other key, and Enter with Shift, prevents nothing, sends nothing and
    leaves the input as it is; and nothing is ever sent from an input
    that is disabled, as the chat view has it while it streams. *)
Theorem only_plain_enter_sends
        (trim : string -> string) (key : string) (shiftKey disabled : bool)
        (input : string) :
  let outcome := MessageInput.handleKeyDown trim key shiftKey disabled input in
  (fst outcome = true <-> key = "Enter" /\ shiftKey = false)
  /\ (fst outcome = false -> snd outcome = (None, input))
  /\ (fst outcome = true -> snd outcome = MessageInput.handleSubmit trim disabled input)
  /\ ((exists text, fst (snd outcome) = Some text)
      <-> key = "Enter" /\ shiftKey = false
          /\ MessageInput.canSend trim disabled input = true)
  /\ (disabled = true -> snd outcome = (None, input)).
Proof.
  intros outcome. subst outcome.
  unfold MessageInput.handleKeyDown, MessageInput.canSend, MessageInput.handleSubmit.
  rewrite InputTheory.nonempty_length.
  destruct (key =? "Enter") eqn:Ek;
    [apply String.eqb_eq in Ek | apply String.eqb_neq in Ek];
    destruct shiftKey; cbn [andb negb fst snd];
    destruct (trim input =? "") eqn:E; destruct disabled; cbn [andb negb fst snd];
    repeat split; intros;
    repeat match goal with
           | H : exists _, _ |- _ => destruct H
           | H : _ /\ _ |- _ => destruct H
           end;
    try discriminate; try contradiction; try congruence; eauto.
Qed.

End RenderTheory.
